(** * qwen-video-captioning: the dispatcher, its helpers, the caption
    maintenance utility and the combination counter, embedded from
    [main.py], [clean_and_format_captions.py] and [count_combinations.py].

    Conventions of the embedding.
    - A Python [str] is the list of its Unicode code points ([pystr]).
    - Python [int]s are [Z]; [float]s (prices, clock readings, delays) are
      idealised as exact rationals [Q].
    - A raised exception is a value of [exc]; [try/except] is written out
      as a [match] on it.
    - Library calls whose code lives outside the repository ([str.lower],
      [json.loads], [json.dumps], what [json.dump] leaves in a file when
      it raises, [round]) are the fields of the [PyLib] interface; what the
      proofs use about them is [PyLibSpec]. *)

From Stdlib Require Import ZArith NArith QArith Lqa List String Ascii Bool Lia.
From Stdlib Require Import Permutation DecimalString Qround Sorted.
Import ListNotations.

Set Implicit Arguments.

(* ================================================================== *)
(** * Part I: definitions *)
(* ================================================================== *)

(** ** Python strings and sequences *)

Module PyStr.

Local Open Scope Z_scope.

Definition pystr := list N.

(** An ASCII literal as a Python string. *)
Definition lit (s : string) : pystr :=
  map N_of_ascii (list_ascii_of_string s).

Fixpoint eqb (a b : pystr) : bool :=
  match a, b with
  | [], [] => true
  | c :: a', d :: b' => N.eqb c d && eqb a' b'
  | _, _ => false
  end.

(** A literal in which the apostrophe stands for the double quote. *)
Definition jlit (s : string) : pystr :=
  map (fun c => if N.eqb c 39 then 34%N else c) (lit s).

(** [s.startswith(p)] *)
Fixpoint startswith (p s : pystr) : bool :=
  match p, s with
  | [], _ => true
  | c :: p', d :: s' => N.eqb c d && startswith p' s'
  | _ :: _, [] => false
  end.

(** [s.endswith(p)] *)
Definition endswith (p s : pystr) : bool :=
  startswith (rev p) (rev s).

(** [needle in hay] for strings. *)
Fixpoint contains (needle hay : pystr) : bool :=
  startswith needle hay ||
  match hay with
  | [] => false
  | _ :: t => contains needle t
  end.

(** [s.find(c)] for a one-character needle: index of the first occurrence,
    [-1] when there is none. *)
Fixpoint find_from (c : N) (s : pystr) (i : Z) : Z :=
  match s with
  | [] => -1
  | d :: s' => if N.eqb c d then i else find_from c s' (i + 1)
  end.

Definition find (c : N) (s : pystr) : Z := find_from c s 0.

(** [s.rfind(c)]: index of the last occurrence, [-1] when there is none. *)
Fixpoint rfind_from (c : N) (s : pystr) (i : Z) (last : Z) : Z :=
  match s with
  | [] => last
  | d :: s' => rfind_from c s' (i + 1) (if N.eqb c d then i else last)
  end.

Definition rfind (c : N) (s : pystr) : Z := rfind_from c s 0 (-1).

(** Python's index normalisation for slices: a negative bound counts from
    the end, and the result is clamped to [0 .. len]. *)
Definition clamp_index (len i : Z) : Z :=
  let j := if i <? 0 then i + len else i in
  Z.max 0 (Z.min len j).

(** [l[lo:hi]] *)
Definition slice {A} (l : list A) (lo hi : Z) : list A :=
  let len := Z.of_nat (List.length l) in
  let a := clamp_index len lo in
  let b := clamp_index len hi in
  firstn (Z.to_nat (b - a)) (skipn (Z.to_nat a) l).

(** [l[lo:]] *)
Definition slice_from {A} (l : list A) (lo : Z) : list A :=
  skipn (Z.to_nat (clamp_index (Z.of_nat (List.length l)) lo)) l.

(** [l[:hi]] *)
Definition slice_to {A} (l : list A) (hi : Z) : list A :=
  firstn (Z.to_nat (clamp_index (Z.of_nat (List.length l)) hi)) l.

(** [x in l] for a list or set of strings. *)
Definition mem (x : pystr) (l : list pystr) : bool :=
  existsb (eqb x) l.

(** [s.replace(old, '')] for a non-empty [old]: every non-overlapping
    occurrence, found left to right, is dropped.  The fuel bounds the number
    of characters still to scan. *)
Fixpoint remove_all_fuel (fuel : nat) (old s : pystr) : pystr :=
  match fuel with
  | O => s
  | S fuel' =>
      match s with
      | [] => []
      | c :: s' =>
          if startswith old s
          then remove_all_fuel fuel' old (skipn (List.length old) s)
          else c :: remove_all_fuel fuel' old s'
      end
  end.

Definition remove_all (old s : pystr) : pystr :=
  remove_all_fuel (List.length s) old s.

(** The ASCII part of [str.lower]. *)
Definition ascii_lower_char (c : N) : N :=
  if (65 <=? c)%N && (c <=? 90)%N then (c + 32)%N else c.

Definition is_ascii (s : pystr) : bool := forallb (fun c => (c <? 128)%N) s.

(** The code points utf-8 refuses to encode: the surrogates.  A [str] that
    holds one cannot be written to a file opened with [encoding='utf-8']:
    [f.write] raises [UnicodeEncodeError]. *)
Definition is_surrogate (c : N) : bool := ((55296 <=? c) && (c <=? 57343))%N.

Definition utf8_encodable (s : pystr) : bool :=
  forallb (fun c => negb (is_surrogate c)) s.

End PyStr.
Export PyStr.

(** ** Exceptions and JSON values *)

Inductive exn : Type :=
| JSONDecodeError
| TypeError
| OtherError.

Inductive exc (A : Type) : Type :=
| Ok (a : A)
| Raise (e : exn).
Arguments Raise {A} e.

#[warnings="-register-all"] Inductive json : Type :=
| JNull
| JBool (b : bool)
| JInt (z : Z)
| JFloat (q : Q)
| JStr (s : pystr)
| JArr (l : list json)
| JObj (d : list (pystr * json)).

(** A Python [dict] with string keys, in insertion order. *)
Definition dict := list (pystr * json).

Module Dict.

(** [d.get(k)] *)
Fixpoint get (k : pystr) (d : dict) : option json :=
  match d with
  | [] => None
  | (k', v) :: d' => if PyStr.eqb k k' then Some v else get k d'
  end.

(** [k in d] *)
Definition has (k : pystr) (d : dict) : bool :=
  existsb (fun kv => PyStr.eqb k (fst kv)) d.

(** [del d[k]] *)
Definition del (k : pystr) (d : dict) : dict :=
  filter (fun kv => negb (PyStr.eqb k (fst kv))) d.

(** [d[k] = v]: an existing key keeps its position, a new one goes last. *)
Fixpoint set (k : pystr) (v : json) (d : dict) : dict :=
  match d with
  | [] => [(k, v)]
  | (k', v') :: d' =>
      if PyStr.eqb k k' then (k, v) :: d' else (k', v') :: set k v d'
  end.

(** [{**d, **e}] *)
Definition merge (d e : dict) : dict :=
  fold_left (fun acc kv => set (fst kv) (snd kv) acc) e d.

Definition keys (d : dict) : list pystr := map fst d.

End Dict.

(** ** Library interface *)

Class PyLib : Type := {
  (** [str.lower] *)
  str_lower : pystr -> pystr;
  (** [json.loads] *)
  json_loads : pystr -> exc json;
  (** [json.dumps(v, indent=2, ensure_ascii=b)] *)
  json_dumps : bool -> json -> pystr;
  (** [json.dump(v, f, indent=2, ensure_ascii=False)] hands the text to
      [f.write] in pieces.  When a piece cannot be encoded the call raises
      and the file keeps the pieces written before it: this text. *)
  json_dump_written : json -> pystr;
  (** [round(x, 6)] *)
  round6 : Q -> Q
}.

Class PyLibSpec (L : PyLib) : Prop := {
  (** On ASCII text [str.lower] works character by character. *)
  lower_ascii : forall s, is_ascii s = true ->
    str_lower s = map ascii_lower_char s;
  (** A text that starts with an opening brace decodes, if at all, to an
      object. *)
  loads_object : forall s v, json_loads (123%N :: s) = Ok v ->
    exists d, v = JObj d;
  (** The empty text does not decode. *)
  loads_empty : json_loads [] = Raise JSONDecodeError
}.

(** ** Cost estimator ([calculate_cost]) *)

Module Cost.

Local Open Scope Q_scope.

Record cost_info : Type := {
  input_cost_usd : Q;
  output_cost_usd : Q;
  total_cost_usd : Q;
  pricing_model : pystr
}.

Definition tiered_name : pystr := Eval cbv in lit "qwen3-vl-flash".
Definition tiered_label : pystr := Eval cbv in lit "qwen3-vl-flash-tiered".

(** Lines 63-71: the (input, output) price per million tokens of the
    bracket an input-token count falls in. *)
Definition tier_prices (input_tokens : Z) : Q * Q :=
  if (input_tokens <=? 32000)%Z then (0.05, 0.40)
  else if (input_tokens <=? 128000)%Z then (0.075, 0.60)
  else (0.12, 0.96).

(** The [pricing] table of the other models, in the order of the source. *)
Definition pricing : list (pystr * (Q * Q)) :=
  [ (lit "qwen-vl-max", (2.8, 8.4));
    (lit "qwen-vl-plus", (1.12, 2.8));
    (lit "qwen3-vl-plus", (1.12, 2.8));
    (lit "qwen-vl-turbo", (0.28, 0.84)) ].

(** The [for key in pricing] loop with its [break]. *)
Fixpoint first_key (keys : list pystr) (lowered : pystr) (default : pystr)
  : pystr :=
  match keys with
  | [] => default
  | k :: keys' => if contains k lowered then k else first_key keys' lowered default
  end.

Fixpoint lookup_price (k : pystr) (t : list (pystr * (Q * Q))) : Q * Q :=
  match t with
  | [] => (0, 0)
  | (k', p) :: t' => if PyStr.eqb k k' then p else lookup_price k t'
  end.

Definition per_million (tokens : Z) (price : Q) : Q :=
  (inject_Z tokens / 1000000) * price.

Definition priced {L : PyLib} (prices : Q * Q) (input_tokens output_tokens : Z)
  (label : pystr) : cost_info :=
  let input_cost := per_million input_tokens (fst prices) in
  let output_cost := per_million output_tokens (snd prices) in
  let total_cost := input_cost + output_cost in
  {| input_cost_usd := round6 input_cost;
     output_cost_usd := round6 output_cost;
     total_cost_usd := round6 total_cost;
     pricing_model := label |}.

Definition calculate_cost {L : PyLib} (input_tokens output_tokens : Z)
  (model : pystr) : cost_info :=
  if contains tiered_name (str_lower model) then
    priced (tier_prices input_tokens) input_tokens output_tokens tiered_label
  else
    let model_key :=
      first_key (map fst pricing) (str_lower model) (lit "qwen-vl-plus") in
    priced (lookup_price model_key pricing) input_tokens output_tokens model_key.

End Cost.

(** ** Directories *)

Module Fs.

(** A directory whose file contents matter: names with their text, in
    listing order.  [None] stands for a path that does not exist. *)
Definition dir := list (pystr * pystr).

Definition listdir (d : dir) : list pystr := map fst d.

Fixpoint read (name : pystr) (d : dir) : option pystr :=
  match d with
  | [] => None
  | (n, c) :: d' => if PyStr.eqb name n then Some c else read name d'
  end.

(** [open(name, 'w').write(text)] *)
Fixpoint write (name text : pystr) (d : dir) : dir :=
  match d with
  | [] => [(name, text)]
  | (n, c) :: d' =>
      if PyStr.eqb name n then (n, text) :: d' else (n, c) :: write name text d'
  end.

(** [os.remove(name)] *)
Definition remove (name : pystr) (d : dir) : dir :=
  filter (fun e => negb (PyStr.eqb name (fst e))) d.

(** [os.makedirs(path, exist_ok=True)] *)
Definition makedirs (d : option dir) : option dir :=
  match d with
  | None => Some []
  | Some _ => d
  end.

Definition entries (d : option dir) : dir :=
  match d with
  | None => []
  | Some e => e
  end.

End Fs.

(** ** Work selector ([get_video_files]) *)

Module Selector.

Local Open Scope Z_scope.

Definition sep : N := Eval cbv in N_of_ascii "/".
Definition extsep : N := Eval cbv in N_of_ascii ".".

(** The loop of [splitext] over the characters before the last dot: whether
    one of them is not a dot. *)
Definition has_nondot (s : pystr) : bool :=
  existsb (fun c => negb (N.eqb c extsep)) s.

(** [os.path.splitext] on a POSIX path: the extension starts at the last
    dot of the last path component, unless only dots precede it there. *)
Definition splitext (p : pystr) : pystr * pystr :=
  let sepIndex := rfind sep p in
  let dotIndex := rfind extsep p in
  if sepIndex <? dotIndex then
    if has_nondot (slice p (sepIndex + 1) dotIndex)
    then (slice_to p dotIndex, slice_from p dotIndex)
    else (p, [])
  else (p, []).

Definition video_exts : list pystr :=
  Eval cbv in [lit ".mp4"; lit ".mov"; lit ".avi"].

Definition json_ext : pystr := Eval cbv in lit ".json".

(** [f.lower().endswith(('.mp4', '.mov', '.avi'))] *)
Definition is_video {L : PyLib} (f : pystr) : bool :=
  existsb (fun e => endswith e (str_lower f)) video_exts.

(** [{os.path.splitext(f)[0] for f in os.listdir(output_dir)
      if f.endswith('.json')}] *)
Definition processed_videos (out : Fs.dir) : list pystr :=
  map (fun f => fst (splitext f))
      (filter (endswith json_ext) (Fs.listdir out)).

(** The input items that have no artifact yet: lines 43-50. *)
Definition eligible {L : PyLib} (names : list pystr) (out : Fs.dir)
  : list pystr :=
  filter (fun v => negb (mem (fst (splitext v)) (processed_videos out)))
    (filter is_video names).

(** [rnd] is the permutation [random.shuffle] draws in this call.  The
    second component is the output directory, created when it was missing. *)
Definition get_video_files {L : PyLib} (rnd : list pystr -> list pystr)
  (input_dir : option (list pystr)) (output_dir : option Fs.dir)
  (max_items : Z) (shuffle : bool) : list pystr * option Fs.dir :=
  match input_dir with
  | None => ([], output_dir)
  | Some names =>
      let all_videos := filter is_video names in
      let output_dir := Fs.makedirs output_dir in
      let processed := processed_videos (Fs.entries output_dir) in
      let videos_to_process :=
        filter (fun v => negb (mem (fst (splitext v)) processed)) all_videos in
      let videos_to_process :=
        if shuffle then rnd videos_to_process else videos_to_process in
      (slice_to videos_to_process max_items, output_dir)
  end.

End Selector.

(** ** Response normalizer (lines 335-350 of [main]) *)

Module Normalizer.

Local Open Scope Z_scope.

Definition lbrace : N := Eval cbv in N_of_ascii "{".
Definition rbrace : N := Eval cbv in N_of_ascii "}".
Definition fence_json : pystr := Eval cbv in lit "```json".
Definition fence : pystr := Eval cbv in lit "```".

(** Lines 335-338. *)
Definition strip_fence (result : pystr) : pystr :=
  if startswith fence_json result then slice result 7 (-3)
  else if startswith fence result then slice result 3 (-3)
  else result.

(** [{"caption": result, "error": "JSON parse failed"}] *)
Definition envelope (result : pystr) : json :=
  JObj [ (lit "caption", JStr result);
         (lit "error", JStr (lit "JSON parse failed")) ].

(** The body of the [try] (lines 342-348). *)
Definition find_json {L : PyLib} (result : pystr) : exc json :=
  let start := find lbrace result in
  let end_ := rfind rbrace result in
  if negb (start =? -1) && negb (end_ =? -1) then
    match json_loads (slice result start (end_ + 1)) with
    | Ok json_res => Ok json_res
    | Raise e => Raise e
    end
  else Ok (envelope result).

(** The [try] with its bare [except] (lines 340-350), on the text the fence
    was stripped from. *)
Definition caption_data {L : PyLib} (result : pystr) : exc json :=
  match find_json result with
  | Ok v => Ok v
  | Raise _ => Ok (envelope result)
  end.

Definition normalize {L : PyLib} (result : pystr) : exc json :=
  caption_data (strip_fence result).

End Normalizer.

(** ** One request ([process_video]) and its result ([main], lines 327-364) *)

Module Worker.

Import Cost Selector Normalizer.

Local Open Scope Z_scope.

(** [response.output.choices[0].message.content]: a plain string, or a list
    of parts, each a dict that may carry a ['text'] entry. *)
Inductive content : Type :=
| CText (s : pystr)
| CParts (parts : list dict).

Record response : Type := {
  status_code : Z;
  (** [None]: reaching the content raises (no output, no choices). *)
  message_content : option content;
  (** [response.usage] as (input_tokens, output_tokens). *)
  usage : option (Z * Z)
}.

(** What the outside world answers for one item: the exchange with the
    service (anything raised before or by the call included) and the
    file-derived metadata block (lines 203-226). *)
Record call_env : Type := {
  api_call : exc response;
  file_metadata : exc dict
}.

Definition text_key : pystr := Eval cbv in lit "text".

(** Lines 179-183. *)
Fixpoint join_text (parts : list dict) (text_result : pystr) : exc pystr :=
  match parts with
  | [] => Ok text_result
  | item :: parts' =>
      if Dict.has text_key item then
        match Dict.get text_key item with
        | Some (JStr t) => join_text parts' (text_result ++ t)
        | _ => Raise TypeError
        end
      else join_text parts' text_result
  end.

(** Lines 177-185, the body of the inner [try]. *)
Definition extract_text (r : response) : exc pystr :=
  match message_content r with
  | None => Raise OtherError
  | Some (CParts parts) => join_text parts []
  | Some (CText s) => Ok s
  end.

Definition usage_metadata {L : PyLib} (input_tokens output_tokens : Z)
  (model : pystr) : dict :=
  let cost_info := calculate_cost input_tokens output_tokens model in
  [ (lit "prompt_tokens", JInt input_tokens);
    (lit "completion_tokens", JInt output_tokens);
    (lit "total_tokens", JInt (input_tokens + output_tokens));
    (lit "estimated_cost_usd", JFloat (round6 (total_cost_usd cost_info))) ].

Definition usage_key : pystr := Eval cbv in lit "usage_metadata".
Definition file_key : pystr := Eval cbv in lit "file_metadata".

(** [process_video]: [None] is the pair [(None, None)]. *)
Definition process_video {L : PyLib} (model : pystr) (env : call_env)
  : option (pystr * dict) :=
  match api_call env with
  | Raise _ => None
  | Ok response =>
      if negb (status_code response =? 200) then None
      else
        match extract_text response with
        | Raise _ => None
        | Ok result =>
            let '(input_tokens, output_tokens) :=
              match usage response with
              | Some u => u
              | None => (0, 0)
              end in
            match file_metadata env with
            | Raise _ => None
            | Ok fm =>
                Some (result,
                      [ (usage_key,
                         JObj (usage_metadata input_tokens output_tokens model));
                        (file_key, JObj fm) ])
            end
        end
  end.

(** What the main loop does with one completed future. *)
Inductive handled : Type :=
| Written (output_path : pystr) (output_data : json)
| FailedResult
| LoopError (e : exn).

(** [metadata.get(k, {})] *)
Definition get_or_empty (k : pystr) (metadata : dict) : json :=
  match Dict.get k metadata with
  | Some v => v
  | None => JObj []
  end.

(** Lines 327-364 for the future of [video_file]; a future that holds an
    exception re-raises it from [future.result()]. *)
Definition handle_result {L : PyLib} (video_file : pystr)
  (r : exc (option (pystr * dict))) : handled :=
  let video_name := fst (splitext video_file) in
  let output_path := video_name ++ json_ext in
  match r with
  | Raise e => LoopError e
  | Ok None => FailedResult
  | Ok (Some ([], _)) => FailedResult
  | Ok (Some (result, metadata)) =>
      match normalize result with
      | Raise e => LoopError e
      | Ok (JObj caption_data) =>
          Written output_path
            (JObj (Dict.merge caption_data
                     [ (usage_key, get_or_empty usage_key metadata);
                       (file_key, get_or_empty file_key metadata) ]))
      | Ok _ => LoopError TypeError
      end
  end.

(** Lines 358-359. *)
Definition persist {L : PyLib} (h : handled) (out : Fs.dir) : Fs.dir :=
  match h with
  | Written output_path output_data =>
      Fs.write output_path (json_dumps true output_data) out
  | _ => out
  end.

End Worker.

(** ** The dispatcher: worker pool, admission control and result loop *)

Module Dispatcher.

Import Selector Worker.

Local Open Scope Q_scope.

Record config : Type := {
  max_rpm : Z;
  request_delay : Q;
  concurrency : nat;
  model : pystr;
  (** the outside world's answer for each item *)
  world : pystr -> call_env
}.

Definition Qlt_bool (a b : Q) : bool := negb (Qle_bool b a).

(** Python's [max(a, b)]: the first argument unless the second is larger. *)
Definition py_max (a b : Q) : Q := if Qlt_bool a b then b else a.

(** Where a pool thread stands:
    - [WIdle]: waiting for the executor to hand it the next submitted call;
    - [WEnter1]: in [wait_for_rate_limits], before the first [with rpm_lock];
    - [WEvict]: lock held, clock read (line 302), at the loop of line 303;
    - [WWait]: first block left, at line 308;
    - [WSleep]: inside [time.sleep] (line 311);
    - [WEnter2]: before the second [with rpm_lock] (line 313);
    - [WLocked2]: lock held, before the append of line 314;
    - [WCall]: inside [process_video] (line 321). *)
Inductive wpc : Type :=
| WIdle
| WEnter1 (item : pystr)
| WEvict (item : pystr) (current_time : Q)
| WWait (item : pystr) (wait_time_rpm : Q)
| WSleep (item : pystr) (until : Q)
| WEnter2 (item : pystr)
| WLocked2 (item : pystr)
| WCall (item : pystr).

(** Where the main thread stands in the [as_completed] loop: waiting for a
    completed future, or inside the [time.sleep] of line 366. *)
Inductive mpc : Type :=
| MWait
| MSleep (until : Q).

(** What an observer records: a thread takes an item, a timestamp is
    appended to the window, a call returns, the main loop deals with a
    completed item. *)
Inductive obs : Type :=
| Begin (w : nat) (item : pystr) (t : Q)
| Granted (w : nat) (t : Q)
| Finish (w : nat) (item : pystr) (t : Q)
| Handle (item : pystr) (t : Q) (h : handled).

Record state : Type := {
  clock : Q;
  request_timestamps : list Q;
  rpm_lock : option nat;
  work_queue : list pystr;
  workers : nat -> wpc;
  finished : list (pystr * exc (option (pystr * dict)));
  main_pc : mpc;
  output : Fs.dir;
  (** newest first *)
  trace : list obs
}.

Inductive actor : Type :=
| Pool (w : nat)
| Main.

(** One scheduling decision: who runs, and what the clock shows then. *)
Record event : Type := {
  who : actor;
  now : Q
}.

Definition upd (f : nat -> wpc) (w : nat) (p : wpc) : nat -> wpc :=
  fun w' => if Nat.eqb w' w then p else f w'.

Definition is_free (l : option nat) : bool :=
  match l with
  | None => true
  | Some _ => false
  end.

(** Field updates. *)
Definition set_clock (t : Q) (s : state) : state :=
  {| clock := t; request_timestamps := request_timestamps s;
     rpm_lock := rpm_lock s; work_queue := work_queue s;
     workers := workers s; finished := finished s; main_pc := main_pc s;
     output := output s; trace := trace s |}.

Definition set_window (ts : list Q) (s : state) : state :=
  {| clock := clock s; request_timestamps := ts;
     rpm_lock := rpm_lock s; work_queue := work_queue s;
     workers := workers s; finished := finished s; main_pc := main_pc s;
     output := output s; trace := trace s |}.

Definition set_lock (l : option nat) (s : state) : state :=
  {| clock := clock s; request_timestamps := request_timestamps s;
     rpm_lock := l; work_queue := work_queue s;
     workers := workers s; finished := finished s; main_pc := main_pc s;
     output := output s; trace := trace s |}.

Definition set_queue (q : list pystr) (s : state) : state :=
  {| clock := clock s; request_timestamps := request_timestamps s;
     rpm_lock := rpm_lock s; work_queue := q;
     workers := workers s; finished := finished s; main_pc := main_pc s;
     output := output s; trace := trace s |}.

Definition set_worker (w : nat) (p : wpc) (s : state) : state :=
  {| clock := clock s; request_timestamps := request_timestamps s;
     rpm_lock := rpm_lock s; work_queue := work_queue s;
     workers := upd (workers s) w p; finished := finished s;
     main_pc := main_pc s; output := output s; trace := trace s |}.

Definition set_finished (f : list (pystr * exc (option (pystr * dict))))
  (s : state) : state :=
  {| clock := clock s; request_timestamps := request_timestamps s;
     rpm_lock := rpm_lock s; work_queue := work_queue s;
     workers := workers s; finished := f; main_pc := main_pc s;
     output := output s; trace := trace s |}.

Definition set_main (m : mpc) (s : state) : state :=
  {| clock := clock s; request_timestamps := request_timestamps s;
     rpm_lock := rpm_lock s; work_queue := work_queue s;
     workers := workers s; finished := finished s; main_pc := m;
     output := output s; trace := trace s |}.

Definition set_output (o : Fs.dir) (s : state) : state :=
  {| clock := clock s; request_timestamps := request_timestamps s;
     rpm_lock := rpm_lock s; work_queue := work_queue s;
     workers := workers s; finished := finished s; main_pc := main_pc s;
     output := o; trace := trace s |}.

Definition record (o : obs) (s : state) : state :=
  {| clock := clock s; request_timestamps := request_timestamps s;
     rpm_lock := rpm_lock s; work_queue := work_queue s;
     workers := workers s; finished := finished s; main_pc := main_pc s;
     output := output s; trace := o :: trace s |}.

(** Lines 305-306, then leaving the first [with] block.  With an empty
    window and a budget of zero or less [request_timestamps[0]] raises: the
    lock is released and the future of the item holds the exception. *)
Definition leave_check (cfg : config) (w : nat) (item : pystr)
  (current_time : Q) (s : state) : state :=
  let ts := request_timestamps s in
  if (max_rpm cfg <=? Z.of_nat (List.length ts))%Z then
    match ts with
    | [] =>
        record (Finish w item (clock s))
          (set_finished (finished s ++ [(item, Raise OtherError)])
             (set_worker w WIdle (set_lock None s)))
    | oldest :: _ =>
        set_worker w (WWait item (py_max 0 (oldest + 60 - current_time)))
          (set_lock None s)
    end
  else set_worker w (WWait item 0) (set_lock None s).

(** One step of pool thread [w]; [None] when the thread cannot move (empty
    queue, lock taken, still asleep).  The clock of [s] already shows the
    time of the step. *)
Definition worker_step {L : PyLib} (cfg : config) (w : nat) (s : state)
  : option state :=
  let t := clock s in
  match workers s w with
  | WIdle =>
      (* the executor hands the thread the next submitted call *)
      match work_queue s with
      | [] => None
      | item :: q =>
          Some (record (Begin w item t)
                  (set_worker w (WEnter1 item) (set_queue q s)))
      end
  | WEnter1 item =>
      (* line 301-302: take the lock, read the clock *)
      if is_free (rpm_lock s)
      then Some (set_worker w (WEvict item t) (set_lock (Some w) s))
      else None
  | WEvict item current_time =>
      (* lines 303-306 *)
      match request_timestamps s with
      | oldest :: rest =>
          if Qlt_bool 60 (current_time - oldest)
          then Some (set_window rest s)
          else Some (leave_check cfg w item current_time s)
      | [] => Some (leave_check cfg w item current_time s)
      end
  | WWait item wait_time_rpm =>
      (* lines 308-311 *)
      let wait_time := py_max wait_time_rpm 0 in
      if Qlt_bool 0 wait_time
      then Some (set_worker w (WSleep item (t + wait_time)) s)
      else Some (set_worker w (WEnter2 item) s)
  | WSleep item until =>
      if Qle_bool until t
      then Some (set_worker w (WEnter2 item) s)
      else None
  | WEnter2 item =>
      (* line 313 *)
      if is_free (rpm_lock s)
      then Some (set_worker w (WLocked2 item) (set_lock (Some w) s))
      else None
  | WLocked2 item =>
      (* line 314, then leaving the second [with] block *)
      Some (record (Granted w t)
              (set_worker w (WCall item)
                 (set_lock None
                    (set_window (request_timestamps s ++ [t]) s))))
  | WCall item =>
      (* line 321: the call returns and the future is completed *)
      Some (record (Finish w item t)
              (set_worker w WIdle
                 (set_finished
                    (finished s ++
                       [(item, Ok (process_video (model cfg) (world cfg item)))])
                    s)))
  end.

(** One step of the main thread in the loop of lines 326-366. *)
Definition main_step {L : PyLib} (cfg : config) (s : state) : option state :=
  let t := clock s in
  match main_pc s with
  | MWait =>
      match finished s with
      | [] => None
      | (video_file, r) :: rest =>
          let h := handle_result video_file r in
          Some (record (Handle video_file t h)
                  (set_main (MSleep (t + request_delay cfg))
                     (set_output (persist h (output s))
                        (set_finished rest s))))
      end
  | MSleep until =>
      if Qle_bool until t then Some (set_main MWait s) else None
  end.

(** A step is taken at a clock reading that is not in the past. *)
Definition step {L : PyLib} (cfg : config) (e : event) (s : state)
  : option state :=
  if Qle_bool (clock s) (now e) then
    match who e with
    | Pool w =>
        if (w <? concurrency cfg)%nat
        then worker_step cfg w (set_clock (now e) s)
        else None
    | Main => main_step cfg (set_clock (now e) s)
    end
  else None.

Fixpoint run {L : PyLib} (cfg : config) (sched : list event) (s : state)
  : option state :=
  match sched with
  | [] => Some s
  | e :: sched' =>
      match step cfg e s with
      | Some s' => run cfg sched' s'
      | None => None
      end
  end.

(** The state after line 324: every selected file submitted, nothing
    let through yet. *)
Definition init (video_files : list pystr) (out : Fs.dir) (start : Q)
  : state :=
  {| clock := start; request_timestamps := []; rpm_lock := None;
     work_queue := video_files; workers := fun _ => WIdle; finished := [];
     main_pc := MWait; output := out; trace := [] |}.

(** The admission timestamps an observer has recorded. *)
Fixpoint admissions (tr : list obs) : list Q :=
  match tr with
  | [] => []
  | Granted _ t :: tr' => t :: admissions tr'
  | _ :: tr' => admissions tr'
  end.

(** How many of the timestamps fall in the 60-second window that opens at
    [t0]. *)
Definition granted_in (ts : list Q) (t0 : Q) : nat :=
  List.length
    (filter (fun t => Qle_bool t0 t && Qlt_bool t (t0 + 60)) ts).

(** Lines 303-304 run to completion. *)
Fixpoint evict (current_time : Q) (ts : list Q) : list Q :=
  match ts with
  | [] => []
  | oldest :: rest =>
      if Qlt_bool 60 (current_time - oldest)
      then evict current_time rest
      else ts
  end.

(** The items the main loop has dealt with. *)
Fixpoint handled_items (tr : list obs) : list pystr :=
  match tr with
  | [] => []
  | Handle item _ _ :: tr' => item :: handled_items tr'
  | _ :: tr' => handled_items tr'
  end.

(** The statement of idempotency as the specification has it: once a first
    run has dealt with every item it selected, a second run over the same
    directories selects nothing. *)
Definition second_run_selects_nothing {L : PyLib} (cfg : config)
  (rnd : list pystr -> list pystr) (names : list pystr) (out0 : Fs.dir)
  (max_items : Z) (shuffle : bool) (start : Q) (sched : list event) : Prop :=
  let first :=
    fst (get_video_files rnd (Some names) (Some out0) max_items shuffle) in
  forall s,
    run cfg sched (init first out0 start) = Some s ->
    List.length (handled_items (trace s)) = List.length first ->
    fst (get_video_files rnd (Some names) (Some (output s)) max_items shuffle)
    = [].

(** Every artifact the main loop reports written is in the output
    directory under the name derived from its item, and nothing that was in
    the directory leaves it. *)
Definition outputs_kept (out0 : Fs.dir) (s : state) : Prop :=
  (forall v t p d,
      In (Handle v t (Written p d)) (trace s) ->
      p = fst (splitext v) ++ json_ext /\ In p (Fs.listdir (output s))) /\
  (forall x, In x (Fs.listdir out0) -> In x (Fs.listdir (output s))).

(** Pacing of the pool as the specification has it: a thread that has
    finished an item at [t1] begins no item before [t1 + delay].  The trace
    is newest first. *)
Definition pool_paced (delay : Q) (tr : list obs) : Prop :=
  forall pre post w item2 t2 item1 t1,
    tr = pre ++ Begin w item2 t2 :: post ->
    In (Finish w item1 t1) post ->
    t1 + delay <= t2.

(** Pacing of the result loop: whatever was dealt with at [t1], the next
    item is dealt with at [t1 + delay] or later. *)
Definition main_paced (delay : Q) (tr : list obs) : Prop :=
  forall pre post item2 t2 h2 item1 t1 h1,
    tr = pre ++ Handle item2 t2 h2 :: post ->
    In (Handle item1 t1 h1) post ->
    t1 + delay <= t2.

(** When the main thread may deal with the next item at the earliest. *)
Definition next_handle (s : state) : Q :=
  match main_pc s with
  | MWait => clock s
  | MSleep until => until
  end.

(** What the proof of [main_paced] carries along a run. *)
Definition pacing_inv (delay : Q) (s : state) : Prop :=
  (forall item t h, In (Handle item t h) (trace s) ->
                    t + delay <= next_handle s) /\
  main_paced delay (trace s).

(** The thread holds the lock at this point of the code. *)
Definition in_lock (p : wpc) : bool :=
  match p with
  | WEvict _ _ | WLocked2 _ => true
  | _ => false
  end.

(** The lock is held by exactly the thread that is inside a [with] block. *)
Definition lock_held_inside (s : state) : Prop :=
  forall w, in_lock (workers s w) = true <-> rpm_lock s = Some w.

End Dispatcher.

(** ** The caption maintenance utility ([clean_and_format_captions.py]) *)

Module Maintenance.

Import Worker.

Definition VIDEO_EXT : pystr := Eval cbv in lit ".mp4".
Definition JSON_SUFFIX : pystr := Eval cbv in lit "_analysis.json".

Definition comma : N := Eval cbv in N_of_ascii ",".

(** The class [[}\]]] of the pattern. *)
Definition is_closer (c : N) : bool := N.eqb c 125 || N.eqb c 93.

(** The class [\s] of a [str] pattern: the code points Python counts as
    white space. *)
Definition is_space (c : N) : bool :=
  ((9 <=? c) && (c <=? 13) || (28 <=? c) && (c <=? 32) ||
   N.eqb c 133 || N.eqb c 160 || N.eqb c 5760 ||
   (8192 <=? c) && (c <=? 8202) || N.eqb c 8232 || N.eqb c 8233 ||
   N.eqb c 8239 || N.eqb c 8287 || N.eqb c 12288)%N.

(** The group [(\s*[}\]])] matched at the head of [s]: the matched text and
    what follows it.  No white-space character is a closer, so the greedy
    star never has to give a character back. *)
Fixpoint match_group (s : pystr) : option (pystr * pystr) :=
  match s with
  | [] => None
  | c :: s' =>
      if is_space c then
        match match_group s' with
        | Some (g, rest) => Some (c :: g, rest)
        | None => None
        end
      else if is_closer c then Some ([c], s')
      else None
  end.

(** [re.sub(r',(\s*[}\]])', r'\1', s)]: matches are found left to right and
    do not overlap; the scan resumes after each match.  The fuel bounds the
    characters still to scan. *)
Fixpoint re_sub_fuel (fuel : nat) (s : pystr) : pystr :=
  match fuel with
  | O => s
  | S fuel' =>
      match s with
      | [] => []
      | c :: s' =>
          if N.eqb c comma then
            match match_group s' with
            | Some (g, rest) => g ++ re_sub_fuel fuel' rest
            | None => c :: re_sub_fuel fuel' s'
            end
          else c :: re_sub_fuel fuel' s'
      end
  end.

Definition fix_json_content (content : pystr) : pystr :=
  re_sub_fuel (List.length content) content.

(** The repair in the words of the specification: a comma goes exactly when
    optional white space and then a closing brace or bracket follow it. *)
Fixpoint closes_next (s : pystr) : bool :=
  match s with
  | [] => false
  | c :: s' => if is_space c then closes_next s' else is_closer c
  end.

Fixpoint drop_trailing_commas (s : pystr) : pystr :=
  match s with
  | [] => []
  | c :: s' =>
      if N.eqb c comma && closes_next s'
      then drop_trailing_commas s'
      else c :: drop_trailing_commas s'
  end.

(** *** [clean_orphans] *)

Inductive orphan_log : Type :=
| DeletedOrphan (filename : pystr)
| ErrorDeleting (filename : pystr).

Record orphan_state : Type := {
  o_captions : Fs.dir;
  deleted_count : nat;
  o_log : list orphan_log
}.

(** The body of the loop of lines 30-42.  [can_remove] tells whether
    [os.remove] succeeds on a file (it raises [OSError] otherwise). *)
Definition clean_one (can_remove : pystr -> bool) (input : list pystr)
  (filename : pystr) (st : orphan_state) : orphan_state :=
  if endswith JSON_SUFFIX filename then
    let base_name := remove_all JSON_SUFFIX filename in
    let video := base_name ++ VIDEO_EXT in
    if negb (mem video input) then
      if can_remove filename then
        {| o_captions := Fs.remove filename (o_captions st);
           deleted_count := S (deleted_count st);
           o_log := DeletedOrphan filename :: o_log st |}
      else
        {| o_captions := o_captions st;
           deleted_count := deleted_count st;
           o_log := ErrorDeleting filename :: o_log st |}
    else st
  else st.

(** The loop of lines 30-42. *)
Definition clean_loop (can_remove : pystr -> bool) (input names : list pystr)
  (st : orphan_state) : orphan_state :=
  fold_left (fun st filename => clean_one can_remove input filename st)
    names st.

(** [clean_orphans]: nothing happens unless both directories exist. *)
Definition clean_orphans (can_remove : pystr -> bool)
  (captions_dir : option Fs.dir) (input_dir : option (list pystr))
  : option orphan_state :=
  match captions_dir, input_dir with
  | Some captions, Some input =>
      Some (clean_loop can_remove input (Fs.listdir captions)
              {| o_captions := captions; deleted_count := 0; o_log := [] |})
  | _, _ => None
  end.

(** When the loop body removes [filename]: it bears the suffix, the input
    directory has no [.mp4] of its base name, and the removal succeeds. *)
Definition orphaned (can_remove : pystr -> bool) (input : list pystr)
  (filename : pystr) : bool :=
  endswith JSON_SUFFIX filename &&
  negb (mem (remove_all JSON_SUFFIX filename ++ VIDEO_EXT) input) &&
  can_remove filename.

(** The criterion in the words of the specification: some input media file
    (as the work selector recognises them) has the base name [base]. *)
Definition has_media {L : PyLib} (base : pystr) (input : list pystr) : bool :=
  existsb (fun f => Selector.is_video f &&
                    PyStr.eqb (fst (Selector.splitext f)) base) input.

(** The cleanup as the specification words it: an artifact is gone after
    the pass exactly when no input media file has its base name. *)
Definition deletes_iff_no_media {L : PyLib} (captions : Fs.dir)
  (input : list pystr) : Prop :=
  forall st,
    clean_orphans (fun _ => true) (Some captions) (Some input) = Some st ->
    forall filename,
      In filename (Fs.listdir captions) ->
      endswith JSON_SUFFIX filename = true ->
      (~ In filename (Fs.listdir (o_captions st)) <->
       has_media (remove_all JSON_SUFFIX filename) input = false).

(** *** [process_files] *)

Inductive format_log : Type :=
| FailedToFix (filename : pystr)
| UnexpectedError (filename : pystr).

Record format_state : Type := {
  f_captions : Fs.dir;
  processed_count : nat;
  fixed_count : nat;
  error_count : nat;
  f_log : list format_log
}.

Definition keys_to_remove : list pystr := [usage_key; file_key].

(** [if key in data: del data[key]] on whatever [json.loads] returned: a
    dict loses the key; deleting by a string from a list or a string, and
    the membership test on anything else, raise [TypeError]. *)
Definition remove_key (key : pystr) (data : json) : exc json :=
  match data with
  | JObj d => if Dict.has key d then Ok (JObj (Dict.del key d)) else Ok data
  | JArr l =>
      if existsb (fun x => match x with
                           | JStr s => PyStr.eqb key s
                           | _ => false
                           end) l
      then Raise TypeError else Ok data
  | JStr s => if contains key s then Raise TypeError else Ok data
  | _ => Raise TypeError
  end.

(** Lines 86-90. *)
Fixpoint remove_keys (keys : list pystr) (data : json) : exc json :=
  match keys with
  | [] => Ok data
  | key :: keys' =>
      match remove_key key data with
      | Ok data' => remove_keys keys' data'
      | Raise e => Raise e
      end
  end.

Definition count_error (filename : pystr) (l : format_log) (st : format_state)
  : format_state :=
  {| f_captions := f_captions st; processed_count := processed_count st;
     fixed_count := fixed_count st; error_count := S (error_count st);
     f_log := l :: f_log st |}.

Definition count_fixed (st : format_state) : format_state :=
  {| f_captions := f_captions st; processed_count := processed_count st;
     fixed_count := S (fixed_count st); error_count := error_count st;
     f_log := f_log st |}.

(** Lines 85-100: strip the metadata, write the file back, count it.  The
    file is opened for writing, which empties it, and [json.dump] writes the
    text piece by piece in utf-8: when the text holds a surrogate the dump
    raises [UnicodeEncodeError], the file keeps the pieces written before
    it, and the file is counted as an error and not as processed. *)
Definition strip_and_write {L : PyLib} (filename : pystr) (data : json)
  (st : format_state) : format_state :=
  match remove_keys keys_to_remove data with
  | Ok data' =>
      if utf8_encodable (json_dumps false data') then
        {| f_captions :=
             Fs.write filename (json_dumps false data') (f_captions st);
           processed_count := S (processed_count st);
           fixed_count := fixed_count st; error_count := error_count st;
           f_log := f_log st |}
      else
        {| f_captions :=
             Fs.write filename (json_dump_written data') (f_captions st);
           processed_count := processed_count st;
           fixed_count := fixed_count st;
           error_count := S (error_count st);
           f_log := UnexpectedError filename :: f_log st |}
  | Raise _ => count_error filename (UnexpectedError filename) st
  end.

(** Lines 65-100 for one file that bears the suffix. *)
Definition format_one {L : PyLib} (filename : pystr) (st : format_state)
  : format_state :=
  match Fs.read filename (f_captions st) with
  | None => count_error filename (UnexpectedError filename) st
  | Some content =>
      match json_loads content with
      | Ok data => strip_and_write filename data st
      | Raise JSONDecodeError =>
          let fixed_content := fix_json_content content in
          match json_loads fixed_content with
          | Ok data => strip_and_write filename data (count_fixed st)
          | Raise JSONDecodeError =>
              count_error filename (FailedToFix filename) st
          | Raise _ => count_error filename (UnexpectedError filename) st
          end
      | Raise _ => count_error filename (UnexpectedError filename) st
      end
  end.

(** The loop of lines 61-100. *)
Definition format_loop {L : PyLib} (names : list pystr) (st : format_state)
  : format_state :=
  fold_left
    (fun st filename =>
       if endswith JSON_SUFFIX filename then format_one filename st else st)
    names st.

(** [process_files]; the final state carries the three counters the summary
    prints. *)
Definition process_files {L : PyLib} (captions_dir : option Fs.dir)
  : option format_state :=
  match captions_dir with
  | None => None
  | Some captions =>
      Some (format_loop (Fs.listdir captions)
              {| f_captions := captions; processed_count := 0;
                 fixed_count := 0; error_count := 0; f_log := [] |})
  end.

(** Every error is logged once and counted once. *)
Definition counted (st : format_state) : Prop :=
  error_count st = List.length (f_log st).

End Maintenance.

(** ** A small instance of the library interface

    Enough of each library call to run the embedded code on examples:
    ASCII lower-casing, a decoder and a compact encoder for JSON with
    integer numbers and strings without escapes, and exact rounding. *)

Module MiniJson.

Local Open Scope N_scope.

Definition is_ws (c : N) : bool :=
  N.eqb c 32 || N.eqb c 9 || N.eqb c 10 || N.eqb c 13.

Fixpoint skip_ws (s : pystr) : pystr :=
  match s with
  | c :: s' => if is_ws c then skip_ws s' else s
  | [] => []
  end.

Definition is_digit (c : N) : bool := (48 <=? c) && (c <=? 57).

Fixpoint digits (s : pystr) (acc : Z) : Z * pystr :=
  match s with
  | c :: s' =>
      if is_digit c then digits s' (10 * acc + Z.of_N (c - 48))%Z
      else (acc, s)
  | [] => (acc, [])
  end.

(** An unsigned or negated run of digits. *)
Definition number (s : pystr) : option (json * pystr) :=
  match s with
  | 45 :: c :: s' =>
      if is_digit c
      then let '(z, rest) := digits (c :: s') 0%Z in Some (JInt (- z), rest)
      else None
  | c :: _ =>
      if is_digit c
      then let '(z, rest) := digits s 0%Z in Some (JInt z, rest)
      else None
  | [] => None
  end.

Definition hex_digit (c : N) : option N :=
  if (48 <=? c) && (c <=? 57) then Some (c - 48)
  else if (97 <=? c) && (c <=? 102) then Some (c - 87)
  else if (65 <=? c) && (c <=? 70) then Some (c - 55)
  else None.

Definition hex4 (a b c d : N) : option N :=
  match hex_digit a, hex_digit b, hex_digit c, hex_digit d with
  | Some a', Some b', Some c', Some d' =>
      Some (((a' * 16 + b') * 16 + c') * 16 + d')
  | _, _, _, _ => None
  end.

(** The characters up to the closing quote.  Of the escapes only [\uXXXX]
    is read; any other backslash and a control character are refused. *)
Fixpoint string_body (s : pystr) : option (pystr * pystr) :=
  match s with
  | [] => None
  | c :: s' =>
      if N.eqb c 34 then Some ([], s')
      else if N.eqb c 92 then
        match s' with
        | 117 :: h1 :: h2 :: h3 :: h4 :: rest =>
            match hex4 h1 h2 h3 h4, string_body rest with
            | Some n, Some (t, r) => Some (n :: t, r)
            | _, _ => None
            end
        | _ => None
        end
      else if c <? 32 then None
      else match string_body s' with
           | Some (t, rest) => Some (c :: t, rest)
           | None => None
           end
  end.

(** An escaped high surrogate followed by an escaped low one is one
    character; a surrogate on its own stays in the string. *)
Fixpoint join_surrogates (s : pystr) : pystr :=
  match s with
  | hi :: s' =>
      match s' with
      | lo :: s'' =>
          if (55296 <=? hi) && (hi <=? 56319) &&
             (56320 <=? lo) && (lo <=? 57343)
          then (65536 + (hi - 55296) * 1024 + (lo - 56320))
                 :: join_surrogates s''
          else hi :: join_surrogates s'
      | [] => [hi]
      end
  | [] => []
  end.

(** [value (, value)* ]] after the opening bracket and a first value. *)
Fixpoint elements (value : pystr -> option (json * pystr)) (n : nat)
  (acc : list json) (s : pystr) : option (list json * pystr) :=
  match n with
  | O => None
  | S n' =>
      match skip_ws s with
      | 93 :: rest => Some (rev acc, rest)
      | 44 :: rest =>
          match value (skip_ws rest) with
          | Some (v, rest') => elements value n' (v :: acc) rest'
          | None => None
          end
      | _ => None
      end
  end.

Definition member (value : pystr -> option (json * pystr)) (s : pystr)
  : option ((pystr * json) * pystr) :=
  match s with
  | 34 :: s' =>
      match string_body s' with
      | Some (k, rest) =>
          match skip_ws rest with
          | 58 :: rest' =>
              match value (skip_ws rest') with
              | Some (v, rest'') => Some ((join_surrogates k, v), rest'')
              | None => None
              end
          | _ => None
          end
      | None => None
      end
  | _ => None
  end.

(** ["k": value (, "k": value)* }] after the opening brace and a first
    member; a repeated key keeps its place and takes the later value. *)
Fixpoint members (value : pystr -> option (json * pystr)) (n : nat)
  (acc : dict) (s : pystr) : option (dict * pystr) :=
  match n with
  | O => None
  | S n' =>
      match skip_ws s with
      | 125 :: rest => Some (acc, rest)
      | 44 :: rest =>
          match member value (skip_ws rest) with
          | Some ((k, v), rest') => members value n' (Dict.set k v acc) rest'
          | None => None
          end
      | _ => None
      end
  end.

Fixpoint value (fuel : nat) (s : pystr) : option (json * pystr) :=
  match fuel with
  | O => None
  | S fuel' =>
      match s with
      | 123 :: rest =>
          let rest' := skip_ws rest in
          if startswith [125] rest' then Some (JObj [], skipn 1 rest')
          else
            match member (value fuel') rest' with
            | Some (kv, rest'') =>
                match members (value fuel') (List.length rest'') [kv] rest'' with
                | Some (d, r) => Some (JObj d, r)
                | None => None
                end
            | None => None
            end
      | 91 :: rest =>
          let rest' := skip_ws rest in
          if startswith [93] rest' then Some (JArr [], skipn 1 rest')
          else
            match value fuel' rest' with
            | Some (v, rest'') =>
                match elements (value fuel') (List.length rest'') [v] rest'' with
                | Some (l, r) => Some (JArr l, r)
                | None => None
                end
            | None => None
            end
      | 34 :: rest =>
          match string_body rest with
          | Some (t, r) => Some (JStr (join_surrogates t), r)
          | None => None
          end
      | 116 :: 114 :: 117 :: 101 :: r => Some (JBool true, r)
      | 102 :: 97 :: 108 :: 115 :: 101 :: r => Some (JBool false, r)
      | 110 :: 117 :: 108 :: 108 :: r => Some (JNull, r)
      | _ => number s
      end
  end.

Definition loads (s : pystr) : exc json :=
  match value (S (List.length s)) (skip_ws s) with
  | Some (v, rest) =>
      match skip_ws rest with
      | [] => Ok v
      | _ :: _ => Raise JSONDecodeError
      end
  | None => Raise JSONDecodeError
  end.

Definition decimal (z : Z) : pystr :=
  lit (DecimalString.NilZero.string_of_int (Z.to_int z)).

(** A one-line rendering: the indentation is left out and a float is shown
    as a fraction. *)
Fixpoint dumps (v : json) : pystr :=
  match v with
  | JNull => lit "null"
  | JBool true => lit "true"
  | JBool false => lit "false"
  | JInt z => decimal z
  | JFloat q => decimal (Qnum q) ++ lit "/" ++ decimal (Zpos (Qden q))
  | JStr s => 34 :: s ++ [34]
  | JArr l =>
      91 :: (fix items (l : list json) : pystr :=
               match l with
               | [] => []
               | [x] => dumps x
               | x :: l' => dumps x ++ lit ", " ++ items l'
               end) l ++ [93]
  | JObj d =>
      123 :: (fix items (d : list (pystr * json)) : pystr :=
                match d with
                | [] => []
                | [(k, x)] => 34 :: k ++ 34 :: lit ": " ++ dumps x
                | (k, x) :: d' =>
                    34 :: k ++ 34 :: lit ": " ++ dumps x ++ lit ", " ++ items d'
                end) d ++ [125]
  end.

(** The pieces [json.dump] hands to [f.write], one after the other: in a
    list the separator goes with the scalar that follows it, in a dict the
    separator, the key, the colon and a scalar value are pieces of their
    own. *)
Fixpoint chunks (v : json) : list pystr :=
  match v with
  | JArr l =>
      match l with
      | [] => [dumps v]
      | _ :: _ =>
          (fix items (buf : pystr) (l : list json) : list pystr :=
             match l with
             | [] => []
             | x :: l' =>
                 match x with
                 | JArr _ | JObj _ => buf :: chunks x
                 | _ => [buf ++ dumps x]
                 end ++ items (lit ", ") l'
             end) [91] l ++ [[93]]
      end
  | JObj d =>
      match d with
      | [] => [dumps v]
      | _ :: _ =>
          [123] ::
          (fix items (first : bool) (d : list (pystr * json)) : list pystr :=
             match d with
             | [] => []
             | (k, x) :: d' =>
                 (if first then [] else [lit ", "]) ++
                 (34 :: k ++ [34]) :: lit ": " :: chunks x ++ items false d'
             end) true d ++ [[125]]
      end
  | _ => [dumps v]
  end.

(** What a file opened in utf-8 keeps of the pieces: those before the first
    one that cannot be encoded. *)
Fixpoint written_pieces (pieces : list pystr) : pystr :=
  match pieces with
  | [] => []
  | piece :: rest =>
      if utf8_encodable piece then piece ++ written_pieces rest else []
  end.

Definition written (v : json) : pystr := written_pieces (chunks v).

(** Rounding to six decimals, ties to even. *)
Definition round6_exact (q : Q) : Q :=
  let x := (q * 1000000)%Q in
  let f := Qfloor x in
  let r := (x - inject_Z f)%Q in
  let n :=
    if Qle_bool r (1 # 2)
    then if Qle_bool (1 # 2) r then (if Z.even f then f else f + 1)%Z else f
    else (f + 1)%Z in
  (n # 1000000)%Q.

Definition lib : PyLib := {|
  str_lower := map ascii_lower_char;
  json_loads := loads;
  json_dumps := fun _ => dumps;
  json_dump_written := written;
  round6 := round6_exact
|}.

End MiniJson.

(** ** Concrete runs *)

Module Scenario.

Import Worker Dispatcher.

Local Open Scope Q_scope.

(** A service that answers every request with a one-entry caption. *)
Definition answering : pystr -> call_env :=
  fun _ =>
    {| api_call :=
         Ok {| status_code := 200;
               message_content := Some (CText (jlit "{'caption': 'snow'}"));
               usage := Some (1200, 80)%Z |};
       file_metadata := Ok [] |}.

Definition cfg (rpm : Z) (delay : Q) (threads : nat) : config :=
  {| max_rpm := rpm; request_delay := delay; concurrency := threads;
     model := lit "qwen-vl-plus"; world := answering |}.

Definition pool (w : nat) (t : Q) : event := {| who := Pool w; now := t |}.
Definition main (t : Q) : event := {| who := Main; now := t |}.

(** Thread [w] takes an item and carries it through admission and the call
    without waiting: seven steps at clock reading [t]. *)
Definition whole_item (w : nat) (t : Q) : list event :=
  repeat (pool w t) 7.

Definition a_mp4 : pystr := Eval cbv in lit "a.mp4".
Definition b_mp4 : pystr := Eval cbv in lit "b.mp4".
Definition c_mp4 : pystr := Eval cbv in lit "c.mp4".

(** One thread processes [a.mp4] and the main loop writes its artifact. *)
Definition one_item_run : list event := whole_item 0 0 ++ [main 0].

(** Two threads both pass the capacity check on the empty window before
    either records its admission. *)
Definition racing_run : list event :=
  [ pool 0 0; pool 1 0;           (* both take an item *)
    pool 0 0; pool 0 0;           (* thread 0: first block, window empty *)
    pool 1 0; pool 1 0;           (* thread 1: first block, window empty *)
    pool 0 0; pool 1 0;           (* nothing to wait for *)
    pool 0 0; pool 0 0;           (* thread 0 records 0 *)
    pool 1 1; pool 1 1 ].         (* thread 1 records 1 *)

(** Thread 0 is let through at 0; then both threads find the window full,
    sleep until 60 and wake; thread 1 records 60. *)
Definition waiting_run : list event :=
  whole_item 0 0 ++
  [ pool 1 1; pool 1 1; pool 1 1; pool 1 1;   (* thread 1 sleeps until 60 *)
    pool 0 2; pool 0 2; pool 0 2; pool 0 2;   (* thread 0 sleeps until 60 *)
    pool 1 60; pool 1 60; pool 1 60;          (* thread 1 wakes, records 60 *)
    pool 0 61; pool 0 61 ].                   (* thread 0 wakes, takes the lock *)

(** One thread is let through at 0 with [a.mp4], its call returns at 5, and
    it begins [b.mp4] at 5.1. *)
Definition back_to_back_run : list event :=
  repeat (pool 0 0) 6 ++ [pool 0 5; pool 0 5.1].

(** One thread processes two items; the main loop deals with the first at
    0, sleeps, and deals with the second at 0.5. *)
Definition two_item_run : list event :=
  whole_item 0 0 ++ whole_item 0 0 ++ [main 0; main 0.5; main 0.5].

End Scenario.

(** ** Parts of a response *)

Module Response.

Import Worker.

(** The text a part of the response contributes. *)
Definition part_text (item : dict) : pystr :=
  match Dict.get text_key item with
  | Some (JStr t) => t
  | _ => []
  end.

(** The part has no ['text'] entry, or one that is a string. *)
Definition text_is_string (item : dict) : bool :=
  match Dict.get text_key item with
  | Some (JStr _) | None => true
  | Some _ => false
  end.

End Response.

(** ** Bookkeeping of the pool *)

Module Pool.

Import Dispatcher.

Local Open Scope Q_scope.

(** The window is in chronological order and holds no timestamp later than
    the clock. *)
Definition window_in_order (s : state) : Prop :=
  StronglySorted Qle (request_timestamps s) /\
  Forall (fun t => t <= clock s) (request_timestamps s).

(** The item a pool thread is busy with, if any. *)
Definition item_of (p : wpc) : list pystr :=
  match p with
  | WIdle => []
  | WEnter1 item | WEvict item _ | WWait item _ | WSleep item _
  | WEnter2 item | WLocked2 item | WCall item => [item]
  end.

(** The items the first [n] pool threads are busy with. *)
Definition in_flight (n : nat) (s : state) : list pystr :=
  flat_map (fun w => item_of (workers s w)) (seq 0 n).

(** Every submitted item is in one place: dealt with by the main loop,
    completed and waiting for it, with a pool thread, or still queued. *)
Definition accounted (cfg : config) (s : state) : list pystr :=
  handled_items (trace s) ++ map fst (finished s) ++
  in_flight (concurrency cfg) s ++ work_queue s.

(** While a thread is in the first [with] block, no timestamp of the window
    is later than the clock reading it took. *)
Definition read_is_latest (s : state) : Prop :=
  forall w item current_time,
    workers s w = WEvict item current_time ->
    Forall (fun t => t <= current_time) (request_timestamps s).

(** The wait a thread has computed is between 0 and 60 seconds, and a
    sleeping thread wakes within 60 seconds. *)
Definition waits_bounded (s : state) : Prop :=
  (forall w item wait_time_rpm,
      workers s w = WWait item wait_time_rpm ->
      0 <= wait_time_rpm /\ wait_time_rpm <= 60) /\
  (forall w item until,
      workers s w = WSleep item until -> until <= clock s + 60).

End Pool.

(** ** The maintenance utility as a whole (lines 106-114) *)

Module Utility.

Import Maintenance.

(** [clean_orphans] then [process_files] on the same captions directory; a
    cleanup that returns early leaves the directory to the formatting pass
    as it is. *)
Definition run_utility {L : PyLib} (can_remove : pystr -> bool)
  (captions_dir : option Fs.dir) (input_dir : option (list pystr))
  : option format_state :=
  match clean_orphans can_remove captions_dir input_dir with
  | Some st => process_files (Some (o_captions st))
  | None => process_files captions_dir
  end.

End Utility.

(** ** The combination counter ([count_combinations.py]) *)

Module Combinations.

Local Open Scope nat_scope.

Definition JSON_SUFFIX : pystr := Eval cbv in lit "_analysis.json".
Definition weather_key : pystr := Eval cbv in lit "weather".
Definition winter_key : pystr := Eval cbv in lit "winter weather".
Definition hazard_key : pystr := Eval cbv in lit "hazardous event".
Definition present_key : pystr := Eval cbv in lit "present".

(** [data.get(key, default)] on whatever [json.load] returned: only a dict
    has the method, anything else raises [AttributeError].  Python's [None]
    is [JNull]. *)
Definition get_method (key : pystr) (default : json) (data : json) : exc json :=
  match data with
  | JObj d =>
      Ok (match Dict.get key d with Some v => v | None => default end)
  | _ => Raise OtherError
  end.

Definition is_none (v : json) : bool :=
  match v with JNull => true | _ => false end.

(** A list or a dict cannot be part of a key: hashing it raises
    [TypeError]. *)
Definition hashable (v : json) : bool :=
  match v with JArr _ | JObj _ => false | _ => true end.

(** The numbers among the hashable values: [True] is 1 and [False] is 0. *)
Definition number_of (v : json) : option Q :=
  match v with
  | JBool b => Some (if b then 1%Q else 0%Q)
  | JInt z => Some (inject_Z z)
  | JFloat q => Some q
  | _ => None
  end.

(** [a == b] on hashable values, as the dict compares its keys: numbers by
    value, strings by their text, and nothing else is equal. *)
Definition value_eq (a b : json) : bool :=
  match number_of a, number_of b with
  | Some x, Some y => Qeq_bool x y
  | None, None =>
      match a, b with
      | JStr s, JStr t => PyStr.eqb s t
      | JNull, JNull => true
      | _, _ => false
      end
  | _, _ => false
  end.

Definition key : Type := (json * json)%type.

Definition key_eq (k k' : key) : bool :=
  value_eq (fst k) (fst k') && value_eq (snd k) (snd k').

(** The [defaultdict(int)], in insertion order. *)
Definition table : Type := list (key * nat).

(** [counts[k] += 1]: an equal key keeps its place and its first spelling,
    a new key goes last. *)
Fixpoint bump (k : key) (counts : table) : table :=
  match counts with
  | [] => [(k, 1)]
  | (k', n) :: rest =>
      if key_eq k k' then (k', S n) :: rest else (k', n) :: bump k rest
  end.

(** [counts[k]] for a key of the table. *)
Fixpoint lookup (k : key) (counts : table) : nat :=
  match counts with
  | [] => 0
  | (k', n) :: rest => if key_eq k k' then n else lookup k rest
  end.

Definition keys : list key :=
  [(JBool true, JBool true); (JBool true, JBool false);
   (JBool false, JBool true); (JBool false, JBool false)].

Definition initial : table := map (fun k => (k, 0)) keys.

Inductive scan_log : Type :=
| ErrorDecoding (filename : pystr)
| ErrorProcessing (filename : pystr).

Record scan_state : Type := {
  counts : table;
  error_count : nat;
  s_log : list scan_log
}.

Definition count_error (l : scan_log) (st : scan_state) : scan_state :=
  {| counts := counts st; error_count := S (error_count st);
     s_log := l :: s_log st |}.

(** The two fields of one decoded file. *)
Definition fields (data : json) : exc (json * json) :=
  match get_method weather_key (JObj []) data with
  | Raise e => Raise e
  | Ok weather =>
      match get_method winter_key JNull weather with
      | Raise e => Raise e
      | Ok winter_weather =>
          match get_method hazard_key (JObj []) data with
          | Raise e => Raise e
          | Ok hazard =>
              match get_method present_key JNull hazard with
              | Raise e => Raise e
              | Ok hazardous_present => Ok (winter_weather, hazardous_present)
              end
          end
      end
  end.

(** The body of the loop of lines 29-55. *)
Definition count_one {L : PyLib} (directory : Fs.dir) (filename : pystr)
  (st : scan_state) : scan_state :=
  match Fs.read filename directory with
  | None => count_error (ErrorProcessing filename) st
  | Some content =>
      match json_loads content with
      | Raise JSONDecodeError => count_error (ErrorDecoding filename) st
      | Raise _ => count_error (ErrorProcessing filename) st
      | Ok data =>
          match fields data with
          | Raise _ => count_error (ErrorProcessing filename) st
          | Ok (winter_weather, hazardous_present) =>
              if negb (is_none winter_weather) &&
                 negb (is_none hazardous_present)
              then
                if hashable winter_weather && hashable hazardous_present
                then {| counts := bump (winter_weather, hazardous_present)
                                    (counts st);
                        error_count := error_count st;
                        s_log := s_log st |}
                else count_error (ErrorProcessing filename) st
              else st
          end
      end
  end.

(** The files the scan reads (line 23). *)
Definition scanned (directory : Fs.dir) : list pystr :=
  filter (endswith JSON_SUFFIX) (Fs.listdir directory).

(** [count_combinations] up to the table it prints: nothing happens when
    the directory is missing. *)
Definition count_combinations {L : PyLib} (directory : option Fs.dir)
  : option scan_state :=
  match directory with
  | None => None
  | Some d =>
      Some (fold_left (fun st filename => count_one d filename st)
              (scanned d)
              {| counts := initial; error_count := 0; s_log := [] |})
  end.

(** [bool(v)] on a hashable value. *)
Definition truthy (v : json) : bool :=
  match v with
  | JNull => false
  | JBool b => b
  | JInt z => negb (Z.eqb z 0)
  | JFloat q => negb (Qeq_bool q 0)
  | JStr s => match s with [] => false | _ => true end
  | JArr l => match l with [] => false | _ => true end
  | JObj d => match d with [] => false | _ => true end
  end.

(** The sort key [(not x[0], not x[1])] and the order of such pairs:
    [False] comes before [True]. *)
Definition sort_key (k : key) : bool * bool :=
  (negb (truthy (fst k)), negb (truthy (snd k))).

Definition bool_le (a b : bool) : bool := implb a b.

Definition pair_le (a b : bool * bool) : bool :=
  if Bool.eqb (fst a) (fst b) then bool_le (snd a) (snd b)
  else bool_le (fst a) (fst b).

(** [sorted] is stable: a key goes before the first one that does not sort
    before it. *)
Fixpoint insert_key (k : key) (l : list key) : list key :=
  match l with
  | [] => [k]
  | k' :: l' =>
      if pair_le (sort_key k) (sort_key k') then k :: l
      else k' :: insert_key k l'
  end.

Definition sorted_keys (counts : table) : list key :=
  fold_right insert_key [] (map fst counts).

(** The rows of the printed table and the total under it. *)
Definition rows (st : scan_state) : table :=
  map (fun k => (k, lookup k (counts st))) (sorted_keys (counts st)).

Definition total (st : scan_state) : nat :=
  fold_right Nat.add 0 (map snd (counts st)).

(** No two rows of a table have equal keys. *)
Definition distinct_keys (t : table) : Prop :=
  ForallOrdPairs (fun a b => key_eq (fst b) (fst a) = false) t.

(** A file whose two fields are the booleans [a] and [b]. *)
Definition boolean_file {L : PyLib} (directory : Fs.dir) (filename : pystr)
  (a b : bool) : Prop :=
  exists content d dw dh,
    Fs.read filename directory = Some content /\
    json_loads content = Ok (JObj d) /\
    Dict.get weather_key d = Some (JObj dw) /\
    Dict.get winter_key dw = Some (JBool a) /\
    Dict.get hazard_key d = Some (JObj dh) /\
    Dict.get present_key dh = Some (JBool b).

End Combinations.

(** ** Artifacts along a run *)

Module Artifacts.

Import Selector Worker Dispatcher.

Local Open Scope Q_scope.






End Artifacts.

(** ** Proof automation *)

(** Case analysis on a step of a pool thread or of the main thread. *)
Ltac split_step H :=
  repeat match type of H with
         | context [match ?x with _ => _ end] => destruct x eqn:?
         end;
  try discriminate H;
  injection H as <-.

(* ================================================================== *)
(** * Part II: properties *)
(* ================================================================== *)

Unset Implicit Arguments.

(** ** The instance meets the interface *)

Lemma mini_value_brace_object :
  forall fuel s v rest,
    MiniJson.value fuel (123%N :: s) = Some (v, rest) -> exists d, v = JObj d.
Proof.
  intros [|fuel] s v rest; simpl; [discriminate|].
  match goal with
  | |- context [if ?b then _ else _] => destruct b
  end.
  - intros [= <- _]. now exists [].
  - destruct (MiniJson.member _ _) as [[kv r1]|]; [|discriminate].
    destruct (MiniJson.members _ _ _ _) as [[d r2]|]; [|discriminate].
    intros [= <- _]. now exists d.
Qed.

Lemma mini_spec : PyLibSpec MiniJson.lib.
Proof.
  split.
  - intros s _. reflexivity.
  - intros s v. simpl. unfold MiniJson.loads.
    change (MiniJson.skip_ws (123%N :: s)) with (123%N :: s).
    destruct (MiniJson.value _ _) as [[v' rest]|] eqn:E; [|discriminate].
    destruct (MiniJson.skip_ws rest); [|discriminate].
    intros [= <-]. eapply mini_value_brace_object; eauto.
  - reflexivity.
Qed.

(** ** Strings *)

Section StringFacts.

Local Open Scope Z_scope.

Lemma eqb_eq : forall a b, PyStr.eqb a b = true <-> a = b.
Proof.
  induction a as [|c a IH]; destruct b as [|d b]; simpl; split;
    try discriminate; try reflexivity.
  - rewrite andb_true_iff, N.eqb_eq, IH. now intros [-> ->].
  - intros [= -> ->]. rewrite N.eqb_refl. now apply andb_true_iff, conj, IH.
Qed.

Lemma eqb_refl : forall a, PyStr.eqb a a = true.
Proof. intros a. now apply eqb_eq. Qed.

Lemma eqb_neq : forall a b, PyStr.eqb a b = false <-> a <> b.
Proof.
  intros a b. rewrite <- eqb_eq. destruct (PyStr.eqb a b); split; congruence.
Qed.

Lemma startswith_iff : forall p s,
  startswith p s = true <-> exists r, s = p ++ r.
Proof.
  induction p as [|c p IH]; intros s; simpl.
  - split; [intros _; now exists s | reflexivity].
  - destruct s as [|d s]; simpl.
    + split; [discriminate | intros [r Hr]; discriminate].
    + rewrite andb_true_iff, N.eqb_eq, IH. split.
      * intros [-> [r ->]]. now exists r.
      * intros [r [= -> ->]]. split; [reflexivity | now exists r].
Qed.

Lemma endswith_iff : forall p s,
  endswith p s = true <-> exists r, s = r ++ p.
Proof.
  intros p s. unfold endswith. rewrite startswith_iff. split.
  - intros [r Hr]. exists (rev r).
    rewrite <- (rev_involutive s), Hr, rev_app_distr, rev_involutive.
    reflexivity.
  - intros [r ->]. exists (rev r). now rewrite rev_app_distr.
Qed.

Lemma mem_iff : forall x l, mem x l = true <-> In x l.
Proof.
  intros x l. unfold mem. rewrite existsb_exists. split.
  - intros [y [Hy He]]. apply eqb_eq in He. now subst.
  - intros Hx. exists x. split; [assumption | apply eqb_refl].
Qed.


Lemma find_from_miss : forall c s i,
  0 <= i -> find_from c s i = -1 -> ~ In c s.
Proof.
  induction s as [|d s IH]; intros i Hi Hf; simpl in *; [tauto|].
  destruct (N.eqb c d) eqn:E; [lia|].
  intros [->|H]; [now rewrite N.eqb_refl in E|].
  now apply (IH (i + 1)); [lia | |].
Qed.

(** [rfind] returns the position of the last occurrence. *)
Lemma rfind_from_hit : forall c s i last j,
  rfind_from c s i last = j -> j <> last -> 0 <= i ->
  exists a b, s = a ++ c :: b /\ j = i + Z.of_nat (List.length a) /\ ~ In c b.
Proof.
  induction s as [|d s IH]; intros i last j Hf Hj Hi; simpl in Hf.
  - congruence.
  - destruct (Z.eq_dec j (if N.eqb c d then i else last)) as [E|E].
    + destruct (N.eqb c d) eqn:Ecd; [|congruence].
      apply N.eqb_eq in Ecd. subst d.
      destruct (in_dec N.eq_dec c s) as [Hin|Hnin].
      * exfalso. clear IH Hj.
        assert (G : forall s i last, In c s -> 0 <= i -> last < i ->
                      last < rfind_from c s i last).
        { clear. induction s as [|d s IH]; intros i last Hin Hi Hl;
            simpl in *; [tauto|].
          destruct (N.eqb c d) eqn:Ecd.
          - destruct (in_dec N.eq_dec c s) as [H|H].
            + specialize (IH (i + 1) i H). lia.
            + assert (K : forall s i last, ~ In c s ->
                            rfind_from c s i last = last).
              { clear. induction s as [|d s IH]; intros i last H; simpl;
                  [reflexivity|].
                destruct (N.eqb c d) eqn:E.
                - apply N.eqb_eq in E. subst. simpl in H. tauto.
                - apply IH. simpl in H. tauto. }
              rewrite K by assumption. lia.
          - destruct Hin as [->|Hin]; [now rewrite N.eqb_refl in Ecd|].
            specialize (IH (i + 1) last Hin). lia. }
        specialize (G s (i + 1) i Hin). lia.
      * exists [], s. simpl. repeat split; [lia | assumption].
    + destruct (IH (i + 1) _ j Hf E ltac:(lia)) as [a [b [-> [-> Hb]]]].
      exists (d :: a), b. simpl. repeat split; [lia | assumption].
Qed.

Lemma skipn_app_exact : forall (A : Type) (a b : list A),
  skipn (List.length a) (a ++ b) = b.
Proof. induction a; simpl; auto. Qed.

Lemma firstn_app_exact : forall (A : Type) (a b : list A),
  firstn (List.length a) (a ++ b) = a.
Proof. induction a; simpl; intros; f_equal; auto. Qed.


End StringFacts.

(** ** Cost estimator *)

Section CostFacts.

Context {L : PyLib}.

Import Cost.

Lemma tier_prices_low : forall n, (n <= 32000)%Z -> tier_prices n = (0.05, 0.40).
Proof.
  intros n Hn. unfold tier_prices.
  destruct (Z.leb_spec n 32000); [reflexivity | lia].
Qed.

Lemma tier_prices_mid : forall n,
  (32000 < n <= 128000)%Z -> tier_prices n = (0.075, 0.60).
Proof.
  intros n Hn. unfold tier_prices.
  destruct (Z.leb_spec n 32000); [lia|].
  destruct (Z.leb_spec n 128000); [reflexivity | lia].
Qed.

Lemma tier_prices_high : forall n,
  (128000 < n)%Z -> tier_prices n = (0.12, 0.96).
Proof.
  intros n Hn. unfold tier_prices.
  destruct (Z.leb_spec n 32000); [lia|].
  destruct (Z.leb_spec n 128000); [lia | reflexivity].
Qed.

(** C5.  For a model whose lower-cased identifier contains the tiered
    model's name and non-negative token counts, [calculate_cost] prices the
    request with the rates of the bracket its input-token count falls in,
    the upper bounds being inclusive: up to 32000 input tokens 0.05 / 0.40
    per million, above that and up to 128000 0.075 / 0.60, above that
    0.12 / 0.96.  In particular 32000 is priced in the lowest bracket, 32001
    and 128000 in the middle one and 128001 in the top one. *)
Theorem calculate_cost_tier_boundaries :
  forall (model : pystr) (input_tokens output_tokens : Z),
    contains tiered_name (str_lower model) = true ->
    (0 <= input_tokens)%Z ->
    (0 <= output_tokens)%Z ->
    ((input_tokens <= 32000)%Z ->
       calculate_cost input_tokens output_tokens model =
       priced (0.05, 0.40)%Q input_tokens output_tokens tiered_label) /\
    ((32000 < input_tokens <= 128000)%Z ->
       calculate_cost input_tokens output_tokens model =
       priced (0.075, 0.60)%Q input_tokens output_tokens tiered_label) /\
    ((128000 < input_tokens)%Z ->
       calculate_cost input_tokens output_tokens model =
       priced (0.12, 0.96)%Q input_tokens output_tokens tiered_label) /\
    calculate_cost 32000 output_tokens model =
      priced (0.05, 0.40)%Q 32000 output_tokens tiered_label /\
    calculate_cost 32001 output_tokens model =
      priced (0.075, 0.60)%Q 32001 output_tokens tiered_label /\
    calculate_cost 128000 output_tokens model =
      priced (0.075, 0.60)%Q 128000 output_tokens tiered_label /\
    calculate_cost 128001 output_tokens model =
      priced (0.12, 0.96)%Q 128001 output_tokens tiered_label.
Proof.
  intros model it ot Hm _ _. unfold calculate_cost. rewrite Hm.
  repeat split; try reflexivity.
  - intros H. now rewrite tier_prices_low.
  - intros H. now rewrite tier_prices_mid.
  - intros H. now rewrite tier_prices_high.
Qed.

End CostFacts.

Lemma calculate_cost_tier_boundaries_witness :
  Cost.calculate_cost (L := MiniJson.lib) 32000 500 (lit "Qwen3-VL-Flash")
  = Cost.priced (L := MiniJson.lib) (0.05, 0.40)%Q 32000 500 Cost.tiered_label.
Proof.
  pose proof (@calculate_cost_tier_boundaries MiniJson.lib
                (lit "Qwen3-VL-Flash") 32000 500
                eq_refl ltac:(lia) ltac:(lia)) as [H _].
  apply H. lia.
Defined.

(** ** Response normalizer *)

Section NormalizerFacts.

Context {L : PyLib} {LS : PyLibSpec L}.

Import Normalizer.

Local Open Scope Z_scope.




End NormalizerFacts.


(** ** Results and artifacts *)

Section ResultFacts.

Context {L : PyLib} {LS : PyLibSpec L}.

Import Normalizer Worker.


End ResultFacts.

(** ** The trailing-comma repair *)

Section RepairFacts.

Import Maintenance.

Lemma match_group_some : forall s g rest,
  match_group s = Some (g, rest) ->
  s = g ++ rest /\ closes_next s = true /\
  (List.length rest < List.length s)%nat /\
  Forall (fun c => N.eqb c comma = false) g.
Proof.
  induction s as [|c s IH]; intros g rest; simpl; [discriminate|].
  destruct (is_space c) eqn:Es.
  - destruct (match_group s) as [[g' rest']|]; [|discriminate].
    intros [= <- <-]. destruct (IH g' rest' eq_refl) as [Hs [Hc [Hl Hg]]].
    split; [simpl; now rewrite <- Hs|]. split; [assumption|].
    split; [lia|].
    constructor; [|assumption].
    {
      destruct (N.eqb c comma) eqn:E; [|reflexivity].
      apply N.eqb_eq in E. subst c. discriminate Es. }
  - destruct (is_closer c) eqn:Ec; [|discriminate].
    intros [= <- <-]. split; [reflexivity|]. split; [reflexivity|].
    split; [simpl; lia|].
    constructor; [|constructor].
    destruct (N.eqb c comma) eqn:E; [|reflexivity].
    apply N.eqb_eq in E. subst c. discriminate Ec.
Qed.

Lemma match_group_none : forall s,
  match_group s = None -> closes_next s = false.
Proof.
  induction s as [|c s IH]; simpl; [reflexivity|].
  destruct (is_space c).
  - destruct (match_group s) as [[g rest]|]; [discriminate | auto].
  - destruct (is_closer c); [discriminate | reflexivity].
Qed.

(** Text without commas goes through the repair unchanged. *)
Lemma drop_trailing_commas_skip : forall g rest,
  Forall (fun c => N.eqb c comma = false) g ->
  drop_trailing_commas (g ++ rest) = g ++ drop_trailing_commas rest.
Proof.
  induction 1 as [|c g Hc _ IH]; simpl; [reflexivity|].
  now rewrite Hc, IH.
Qed.

Lemma re_sub_fuel_spec : forall fuel s,
  (List.length s <= fuel)%nat -> re_sub_fuel fuel s = drop_trailing_commas s.
Proof.
  induction fuel as [|fuel IH]; intros s Hl.
  - destruct s; [reflexivity | simpl in Hl; lia].
  - destruct s as [|c s]; [reflexivity|]. simpl in *.
    destruct (N.eqb c comma); simpl.
    + destruct (match_group s) as [[g rest]|] eqn:E.
      * destruct (match_group_some _ _ _ E) as [Hs [Hc [Hn Hg]]].
        rewrite Hc, IH by lia.
        rewrite Hs at 1. now rewrite drop_trailing_commas_skip.
      * rewrite (match_group_none _ E), IH by lia. reflexivity.
    + rewrite IH by lia. reflexivity.
Qed.

(** [fix_json_content] removes exactly the commas that optional white space
    and a closing brace or bracket follow. *)
Lemma fix_json_content_spec : forall content,
  fix_json_content content = drop_trailing_commas content.
Proof. intros content. now apply re_sub_fuel_spec. Qed.

End RepairFacts.

(** ** Directories *)

Section FsFacts.

Lemma read_write_same : forall name text d,
  Fs.read name (Fs.write name text d) = Some text.
Proof.
  induction d as [|[n c] d IH]; simpl.
  - now rewrite eqb_refl.
  - destruct (PyStr.eqb name n) eqn:E; simpl; rewrite E; auto.
Qed.

Lemma read_write_other : forall name other text d,
  other <> name ->
  Fs.read other (Fs.write name text d) = Fs.read other d.
Proof.
  intros name other text d Hne. apply eqb_neq in Hne.
  induction d as [|[n c] d IH]; simpl.
  - now rewrite Hne.
  - destruct (PyStr.eqb name n) eqn:E; simpl.
    + apply eqb_eq in E. subst n. now rewrite Hne.
    + now rewrite IH.
Qed.

(** Writing a file that exists leaves the listing as it is. *)
Lemma listdir_write_present : forall name text d,
  In name (Fs.listdir d) -> Fs.listdir (Fs.write name text d) = Fs.listdir d.
Proof.
  induction d as [|[n c] d IH]; simpl; [tauto|].
  intros H. destruct (PyStr.eqb name n) eqn:E; simpl; [reflexivity|].
  f_equal. apply IH. destruct H as [H|H]; [|assumption].
  subst. now rewrite eqb_refl in E.
Qed.

Lemma listdir_write : forall name text d,
  In name (Fs.listdir (Fs.write name text d)) /\
  forall other, In other (Fs.listdir d) ->
                In other (Fs.listdir (Fs.write name text d)).
Proof.
  induction d as [|[n c] d [IH1 IH2]]; simpl.
  - split; [now left | tauto].
  - destruct (PyStr.eqb name n) eqn:E; simpl.
    + apply eqb_eq in E. subst. split; [now left | tauto].
    + split; [now right|]. intros other [H|H]; [now left | right; auto].
Qed.

Lemma read_some_listed : forall name d text,
  Fs.read name d = Some text -> In name (Fs.listdir d).
Proof.
  induction d as [|[n c] d IH]; simpl; [discriminate|].
  intros text. destruct (PyStr.eqb name n) eqn:E.
  - apply eqb_eq in E. now left.
  - intros H. right. eauto.
Qed.

End FsFacts.

(** ** Dictionaries *)

Section DictFacts.

Lemma del_absent : forall k d, Dict.has k d = false -> Dict.del k d = d.
Proof.
  induction d as [|[k' v] d IH]; simpl; [reflexivity|].
  intros H. apply orb_false_iff in H. destruct H as [H1 H2].
  rewrite H1. simpl. now rewrite IH.
Qed.





End DictFacts.

(** ** Formatting pass of the maintenance utility *)

Section FormatFacts.

Context {L : PyLib}.

Import Worker Maintenance.

Lemma format_loop_cons : forall g names st,
  format_loop (g :: names) st =
  format_loop names
    (if endswith JSON_SUFFIX g then format_one g st else st).
Proof. reflexivity. Qed.

Lemma remove_key_object : forall k d,
  remove_key k (JObj d) = Ok (JObj (Dict.del k d)).
Proof.
  intros k d. simpl. destruct (Dict.has k d) eqn:E; [reflexivity|].
  now rewrite del_absent.
Qed.

Lemma remove_keys_object : forall d,
  remove_keys keys_to_remove (JObj d) =
  Ok (JObj (Dict.del file_key (Dict.del usage_key d))).
Proof.
  intros d. unfold keys_to_remove, remove_keys.
  now rewrite !remove_key_object.
Qed.

Lemma strip_and_write_other : forall g data st f,
  f <> g ->
  Fs.read f (f_captions (strip_and_write g data st)) = Fs.read f (f_captions st).
Proof.
  intros g data st f Hne. unfold strip_and_write.
  destruct (remove_keys _ _) as [data'|]; [|reflexivity].
  destruct (utf8_encodable _); simpl; now apply read_write_other.
Qed.

(** Processing one file leaves every other file as it was. *)
Lemma format_one_other : forall g st f,
  f <> g ->
  Fs.read f (f_captions (format_one g st)) = Fs.read f (f_captions st).
Proof.
  intros g st f Hne. unfold format_one.
  destruct (Fs.read g (f_captions st)) as [content|]; [|reflexivity].
  destruct (json_loads content) as [data|[| |]];
    try reflexivity; [now apply strip_and_write_other|].
  destruct (json_loads (fix_json_content content)) as [data|[| |]];
    try reflexivity.
  now rewrite strip_and_write_other.
Qed.

Lemma format_loop_other : forall names st f,
  ~ In f names ->
  Fs.read f (f_captions (format_loop names st)) = Fs.read f (f_captions st).
Proof.
  induction names as [|g names IH]; intros st f Hn; simpl; [reflexivity|].
  unfold format_loop in *. simpl. rewrite IH by (simpl in Hn; tauto).
  destruct (endswith JSON_SUFFIX g); [|reflexivity].
  apply format_one_other. simpl in Hn. intros ->. tauto.
Qed.

Lemma format_one_counted : forall g st, counted st -> counted (format_one g st).
Proof.
  unfold counted. intros g st H.
  assert (Hs : forall data st', error_count st' = List.length (f_log st') ->
            error_count (strip_and_write g data st') =
            List.length (f_log (strip_and_write g data st'))).
  { intros data st' H'. unfold strip_and_write.
    destruct (remove_keys _ _) as [data'|]; [|simpl; congruence].
    destruct (utf8_encodable _); simpl; congruence. }
  unfold format_one.
  destruct (Fs.read g (f_captions st)) as [content|]; [|simpl; congruence].
  destruct (json_loads content) as [data|[| |]];
    try (simpl; congruence); [now apply Hs|].
  destruct (json_loads (fix_json_content content)) as [data|[| |]];
    try (simpl; congruence).
  now apply Hs.
Qed.

Lemma format_one_log : forall g st x,
  In x (f_log st) -> In x (f_log (format_one g st)).
Proof.
  intros g st x H.
  assert (Hs : forall data st', In x (f_log st') ->
                 In x (f_log (strip_and_write g data st'))).
  { intros data st' H'. unfold strip_and_write.
    destruct (remove_keys _ _) as [data'|]; [|simpl; auto].
    destruct (utf8_encodable _); simpl; auto. }
  unfold format_one.
  destruct (Fs.read g (f_captions st)) as [content|]; [|simpl; auto].
  destruct (json_loads content) as [data|[| |]]; try (simpl; auto).
  destruct (json_loads (fix_json_content content)) as [data|[| |]];
    try (simpl; auto).
Qed.

Lemma format_loop_counted : forall names st,
  counted st -> counted (format_loop names st).
Proof.
  induction names as [|g names IH]; intros st H; [assumption|].
  unfold format_loop in *. simpl. apply IH.
  destruct (endswith JSON_SUFFIX g); [now apply format_one_counted | assumption].
Qed.

Lemma format_loop_log : forall names st x,
  In x (f_log st) -> In x (f_log (format_loop names st)).
Proof.
  induction names as [|g names IH]; intros st x H; [assumption|].
  unfold format_loop in *. simpl. apply IH.
  destruct (endswith JSON_SUFFIX g); [now apply format_one_log | assumption].
Qed.

(** What the pass does with a file that does not decode. *)
Lemma format_one_undecodable : forall filename st content,
  Fs.read filename (f_captions st) = Some content ->
  json_loads content = Raise JSONDecodeError ->
  format_one filename st =
  match json_loads (drop_trailing_commas content) with
  | Ok data => strip_and_write filename data (count_fixed st)
  | Raise JSONDecodeError => count_error filename (FailedToFix filename) st
  | Raise _ => count_error filename (UnexpectedError filename) st
  end.
Proof.
  intros filename st content Hr Hl. unfold format_one.
  now rewrite Hr, Hl, fix_json_content_spec.
Qed.

(** C7.  When a file's content does not decode, the utility decodes again
    the text obtained by removing each comma that optional white space and
    a closing brace or bracket follow, every other character kept; what
    happens to the file is decided by that second decoding.  If it fails
    too, the file keeps its content to the end of the pass, the failure is
    in the log, and the error counter the summary prints counts every
    logged failure. *)
Theorem unrepairable_file_untouched :
  (forall content, fix_json_content content = drop_trailing_commas content) /\
  (forall filename st content,
      Fs.read filename (f_captions st) = Some content ->
      json_loads content = Raise JSONDecodeError ->
      format_one filename st =
      match json_loads (drop_trailing_commas content) with
      | Ok data => strip_and_write filename data (count_fixed st)
      | Raise JSONDecodeError => count_error filename (FailedToFix filename) st
      | Raise _ => count_error filename (UnexpectedError filename) st
      end) /\
  (forall captions st filename content,
      process_files (Some captions) = Some st ->
      Fs.read filename captions = Some content ->
      endswith JSON_SUFFIX filename = true ->
      json_loads content = Raise JSONDecodeError ->
      json_loads (drop_trailing_commas content) = Raise JSONDecodeError ->
      Fs.read filename (f_captions st) = Some content /\
      In (FailedToFix filename) (f_log st) /\
      error_count st = List.length (f_log st) /\
      (1 <= error_count st)%nat).
Proof.
  split; [exact fix_json_content_spec|].
  split; [exact format_one_undecodable|].
  intros captions st filename content Hp Hr He Hl1 Hl2.
  injection Hp as <-.
  set (st0 := {| f_captions := captions; processed_count := 0;
                 fixed_count := 0; error_count := 0; f_log := [] |}).
  assert (Hin : In filename (Fs.listdir captions))
    by (eapply read_some_listed; eauto).
  assert (Hc0 : counted st0) by reflexivity.
  assert (Hr0 : Fs.read filename (f_captions st0) = Some content) by exact Hr.
  clearbody st0. clear Hr.
  assert (G : Fs.read filename
                (f_captions (format_loop (Fs.listdir captions) st0))
              = Some content /\
              In (FailedToFix filename)
                (f_log (format_loop (Fs.listdir captions) st0))).
  { revert st0 Hc0 Hr0 Hin.
    induction (Fs.listdir captions) as [|g names IH]; intros st0 Hc0 Hr0 Hin;
      [destruct Hin|].
    rewrite format_loop_cons.
    destruct (in_dec (list_eq_dec N.eq_dec) filename names) as [Hn|Hn].
    - apply IH; [| |assumption].
      + destruct (endswith JSON_SUFFIX g); [now apply format_one_counted|assumption].
      + destruct (endswith JSON_SUFFIX g) eqn:Eg; [|assumption].
        destruct (list_eq_dec N.eq_dec filename g) as [->|Hne].
        * now rewrite (format_one_undecodable _ _ _ Hr0 Hl1), Hl2.
        * now rewrite format_one_other.
    - destruct Hin as [->|Hin]; [|contradiction].
      rewrite He, (format_one_undecodable _ _ _ Hr0 Hl1), Hl2.
      split.
      + now rewrite format_loop_other.
      + apply format_loop_log. now left. }
  destruct G as [G1 G2]. split; [assumption|]. split; [assumption|].
  pose proof (format_loop_counted (Fs.listdir captions) st0 Hc0) as Hc.
  split; [exact Hc|]. rewrite Hc.
  destruct (f_log _); [destruct G2 | simpl; lia].
Qed.

End FormatFacts.

Lemma unrepairable_file_untouched_witness :
  let name := lit "clip_analysis.json" in
  let content := jlit "{'caption': 'snow', }, " in
  exists st,
    Maintenance.process_files (L := MiniJson.lib) (Some [(name, content)])
    = Some st /\
    Fs.read name (Maintenance.f_captions st) = Some content /\
    In (Maintenance.FailedToFix name) (Maintenance.f_log st) /\
    Maintenance.error_count st = List.length (Maintenance.f_log st) /\
    (1 <= Maintenance.error_count st)%nat.
Proof.
  intros name content. eexists. split; [reflexivity|].
  exact (proj2 (proj2 (@unrepairable_file_untouched MiniJson.lib))
           [(name, content)] _ name content
           eq_refl eq_refl eq_refl eq_refl eq_refl).
Defined.

Section StripFacts.

Context {L : PyLib}.

Import Worker Maintenance.


(** When the text to write holds a surrogate the dump raises half way: the
    file keeps what was written before, and the file is counted as an error
    and not as processed. *)
Lemma format_one_unencodable : forall filename st content d,
  Fs.read filename (f_captions st) = Some content ->
  json_loads content = Ok (JObj d) ->
  utf8_encodable
    (json_dumps false (JObj (Dict.del file_key (Dict.del usage_key d))))
  = false ->
  Fs.read filename (f_captions (format_one filename st)) =
  Some (json_dump_written (JObj (Dict.del file_key (Dict.del usage_key d)))) /\
  processed_count (format_one filename st) = processed_count st /\
  error_count (format_one filename st) = S (error_count st).
Proof.
  intros filename st content d Hr Hl Hu. unfold format_one.
  rewrite Hr, Hl. unfold strip_and_write. rewrite remove_keys_object, Hu.
  simpl. split; [apply read_write_same | split; reflexivity].
Qed.


(** A file whose content decodes to a number is reported as an error and
    keeps its content: the membership test on the number raises. *)
Lemma format_one_number : forall filename st content z,
  Fs.read filename (f_captions st) = Some content ->
  json_loads content = Ok (JInt z) ->
  format_one filename st =
  count_error filename (UnexpectedError filename) st.
Proof.
  intros filename st content z Hr Hl. unfold format_one.
  now rewrite Hr, Hl.
Qed.


End StripFacts.

(** C9.  The claim fails on an artifact the utility decodes.  The file
    [clip_analysis.json] holds an object whose [note] is the escape of a
    lone surrogate, as the dispatcher itself writes one.  The pass decodes
    it and strips the reserved key, but the dump into the file, which was
    opened for writing in utf-8, raises at the note: the file is left with
    the beginning of the text only, which no longer decodes, the entries of
    the object are lost, and the file is counted as an error and not as
    processed. *)
Theorem lone_surrogate_truncates_artifact :
  let name := lit "clip_analysis.json" in
  let content :=
    jlit "{'usage_metadata': {}, 'caption': 'snow', 'note': '\ud800'}" in
  @json_loads MiniJson.lib content
  = Ok (JObj [(lit "usage_metadata", JObj []);
              (lit "caption", JStr (lit "snow"));
              (lit "note", JStr [55296%N])]) /\
  exists st,
    Maintenance.process_files (L := MiniJson.lib) (Some [(name, content)])
    = Some st /\
    Fs.read name (Maintenance.f_captions st)
    = Some (jlit "{'caption': 'snow', 'note': ") /\
    @json_loads MiniJson.lib (jlit "{'caption': 'snow', 'note': ")
    = Raise JSONDecodeError /\
    Maintenance.processed_count st = 0%nat /\
    Maintenance.error_count st = 1%nat.
Proof.
  intros name content. split; [vm_compute; reflexivity|].
  eexists. split; [reflexivity|]. vm_compute.
  split; [reflexivity|]. split; [reflexivity|]. split; reflexivity.
Qed.


(** ** Orphan cleanup *)

Section OrphanFacts.

Import Maintenance.

Lemma eqb_sym : forall a b, PyStr.eqb a b = PyStr.eqb b a.
Proof.
  intros a b. destruct (PyStr.eqb a b) eqn:E.
  - apply eqb_eq in E. subst. now rewrite eqb_refl.
  - symmetry. apply eqb_neq. apply eqb_neq in E. congruence.
Qed.

Lemma filter_filter : forall (A : Type) (p q : A -> bool) l,
  filter p (filter q l) = filter (fun x => q x && p x) l.
Proof.
  induction l as [|x l IH]; simpl; [reflexivity|].
  destruct (q x); simpl; [destruct (p x)|]; now rewrite IH.
Qed.

Lemma clean_one_cases : forall can_remove input filename st,
  (orphaned can_remove input filename = true /\
   o_captions (clean_one can_remove input filename st)
     = Fs.remove filename (o_captions st) /\
   deleted_count (clean_one can_remove input filename st)
     = S (deleted_count st)) \/
  (orphaned can_remove input filename = false /\
   o_captions (clean_one can_remove input filename st) = o_captions st /\
   deleted_count (clean_one can_remove input filename st) = deleted_count st).
Proof.
  intros can_remove input filename st. unfold clean_one, orphaned.
  destruct (endswith JSON_SUFFIX filename); simpl; [|now right].
  destruct (mem _ input); simpl; [now right|].
  destruct (can_remove filename); simpl; [now left | now right].
Qed.

Lemma clean_loop_spec : forall can_remove input names st,
  o_captions (clean_loop can_remove input names st) =
  filter (fun e => negb (mem (fst e) (filter (orphaned can_remove input) names)))
    (o_captions st) /\
  deleted_count (clean_loop can_remove input names st) =
  (deleted_count st +
   List.length (filter (orphaned can_remove input) names))%nat.
Proof.
  intros can_remove input. induction names as [|g names IH]; intros st.
  - simpl. split; [|lia]. induction (o_captions st) as [|e d IHd];
      simpl; [reflexivity | now f_equal].
  - unfold clean_loop in *. simpl fold_left.
    destruct (IH (clean_one can_remove input g st)) as [IH1 IH2].
    rewrite IH1, IH2.
    destruct (clean_one_cases can_remove input g st)
      as [[Ho [Hc Hd]] | [Ho [Hc Hd]]]; simpl filter; rewrite Ho, Hc, Hd.
    + split; [|simpl; lia]. unfold Fs.remove. rewrite filter_filter.
      apply filter_ext. intros e. simpl. rewrite (eqb_sym (fst e) g).
      now destruct (PyStr.eqb g (fst e)).
    + split; [reflexivity | lia].
Qed.

(** C8 as amended.  When both directories exist, the cleanup keeps, in
    their order and with their content, exactly the entries of the captions
    directory that it does not remove, and it removes a file exactly when
    the file bears the suffix, the input directory has no entry named after
    the file's base name (the name with every occurrence of the suffix
    dropped) followed by [.mp4], and the removal succeeds.  The counter
    counts the removed files. *)
Theorem orphans_removed_iff_no_mp4 :
  forall can_remove captions input st,
    clean_orphans can_remove (Some captions) (Some input) = Some st ->
    o_captions st =
      filter (fun e => negb (orphaned can_remove input (fst e))) captions /\
    deleted_count st =
      List.length (filter (orphaned can_remove input) (Fs.listdir captions)) /\
    (forall filename text,
        In (filename, text) captions ->
        (~ In (filename, text) (o_captions st) <->
         endswith JSON_SUFFIX filename = true /\
         ~ In (remove_all JSON_SUFFIX filename ++ VIDEO_EXT) input /\
         can_remove filename = true)).
Proof.
  intros can_remove captions input st H. injection H as <-.
  destruct (clean_loop_spec can_remove input (Fs.listdir captions)
              {| o_captions := captions; deleted_count := 0; o_log := [] |})
    as [H1 H2]. simpl in H1, H2.
  assert (E : o_captions
                (clean_loop can_remove input (Fs.listdir captions)
                   {| o_captions := captions; deleted_count := 0;
                      o_log := [] |})
              = filter (fun e => negb (orphaned can_remove input (fst e)))
                  captions).
  { rewrite H1. apply filter_ext_in. intros e He. f_equal.
    destruct (orphaned can_remove input (fst e)) eqn:Eo.
    - apply mem_iff, filter_In. split; [|assumption].
      unfold Fs.listdir. now apply in_map.
    - destruct (mem _ _) eqn:Em; [|reflexivity].
      apply mem_iff, filter_In in Em. destruct Em as [_ Em]. congruence. }
  split; [exact E|]. split; [exact H2|].
  intros filename text Hin. rewrite E, filter_In. simpl.
  unfold orphaned. rewrite <- mem_iff.
  destruct (endswith JSON_SUFFIX filename);
    destruct (mem _ input); destruct (can_remove filename); simpl;
    split; intros K; try tauto; try (exfalso; apply K; tauto);
    try (destruct K as [? [? ?]]; congruence);
    try (destruct K as [? [K ?]]; exfalso; apply K; reflexivity).
Qed.

End OrphanFacts.

Lemma orphans_removed_iff_no_mp4_witness :
  let captions :=
    [(lit "a_analysis.json", lit "{}"); (lit "b_analysis.json", lit "{}");
     (lit "notes.txt", lit "keep")] in
  exists st,
    Maintenance.clean_orphans (fun _ => true) (Some captions)
      (Some [lit "b.mp4"]) = Some st /\
    Maintenance.o_captions st =
      [(lit "b_analysis.json", lit "{}"); (lit "notes.txt", lit "keep")].
Proof.
  intros captions. eexists. split; [reflexivity|].
  rewrite (proj1 (orphans_removed_iff_no_mp4 (fun _ => true) captions
                    [lit "b.mp4"] _ eq_refl)).
  reflexivity.
Defined.

(** C8 as stated fails: with [a.mov] in the input directory, a media file
    of base name [a], the artifact [a_analysis.json] is removed all the
    same, because only [a.mp4] is looked for. *)
Lemma orphan_with_mov_is_removed :
  ~ Maintenance.deletes_iff_no_media (L := MiniJson.lib)
      [(lit "a_analysis.json", lit "{}")] [lit "a.mov"].
Proof.
  intros H.
  specialize (H _ eq_refl (lit "a_analysis.json") (or_introl eq_refl) eq_refl).
  destruct H as [H _].
  assert (K : Maintenance.has_media (L := MiniJson.lib)
                (remove_all Maintenance.JSON_SUFFIX (lit "a_analysis.json"))
                [lit "a.mov"] = false).
  { apply H. intros []. }
  discriminate K.
Qed.

(** ** Work selector *)

Section SplitextFacts.

Import Selector.

Local Open Scope Z_scope.

Lemma rfind_from_absent : forall c s i last,
  ~ In c s -> rfind_from c s i last = last.
Proof.
  induction s as [|d s IH]; intros i last H; simpl; [reflexivity|].
  destruct (N.eqb c d) eqn:E.
  - apply N.eqb_eq in E. subst. simpl in H. tauto.
  - apply IH. simpl in H. tauto.
Qed.

Lemma rfind_from_last : forall c a b i last,
  ~ In c b ->
  rfind_from c (a ++ c :: b) i last = i + Z.of_nat (List.length a).
Proof.
  induction a as [|d a IH]; intros b i last H; simpl.
  - rewrite N.eqb_refl, rfind_from_absent by assumption. lia.
  - rewrite IH by assumption. lia.
Qed.

Lemma rfind_absent : forall c s, ~ In c s -> rfind c s = -1.
Proof. intros. now apply rfind_from_absent. Qed.

Lemma rfind_last : forall c a b,
  ~ In c b -> rfind c (a ++ c :: b) = Z.of_nat (List.length a).
Proof. intros. unfold rfind. now rewrite rfind_from_last. Qed.

Lemma clamp_index_inside : forall len i, 0 <= i <= len -> clamp_index len i = i.
Proof.
  intros len i H. unfold clamp_index. destruct (Z.ltb_spec i 0); lia.
Qed.

Lemma slice_to_prefix : forall (A : Type) (a b : list A),
  slice_to (a ++ b) (Z.of_nat (List.length a)) = a.
Proof.
  intros A a b. unfold slice_to.
  rewrite clamp_index_inside by (rewrite length_app; lia).
  rewrite Nat2Z.id. apply firstn_app_exact.
Qed.

Lemma slice_prefix : forall (A : Type) (a b : list A),
  slice (a ++ b) 0 (Z.of_nat (List.length a)) = a.
Proof.
  intros A a b. unfold slice.
  rewrite !clamp_index_inside by (rewrite length_app; lia).
  rewrite Z.sub_0_r, Nat2Z.id. simpl. apply firstn_app_exact.
Qed.

(** Appending [.json] to a name that has a character other than a dot and
    no separator gives a name whose stem is the name itself. *)
Lemma splitext_json : forall n,
  has_nondot n = true -> ~ In sep n ->
  splitext (n ++ json_ext) = (n, json_ext).
Proof.
  intros n Hn Hs. unfold splitext.
  assert (Hsep : rfind sep (n ++ json_ext) = -1).
  { apply rfind_absent. rewrite in_app_iff. intros [H|H]; [tauto|].
    simpl in H. unfold sep in H.
    repeat (destruct H as [H|H]; [discriminate|]). exact H. }
  assert (Hdot : rfind extsep (n ++ json_ext) = Z.of_nat (List.length n)).
  { change json_ext with (extsep :: lit "json"). apply rfind_last.
    simpl. unfold extsep. intros H.
    repeat (destruct H as [H|H]; [discriminate|]). exact H. }
  rewrite Hsep, Hdot. simpl Z.add.
  destruct (Z.ltb_spec (-1) (Z.of_nat (List.length n))); [|lia].
  rewrite slice_prefix, Hn, slice_to_prefix. f_equal.
  unfold slice_from.
  rewrite clamp_index_inside by (rewrite length_app; lia).
  rewrite Nat2Z.id. apply skipn_app_exact.
Qed.

Lemma has_nondot_firstn : forall k s,
  has_nondot (firstn k s) = true -> has_nondot s = true.
Proof.
  unfold has_nondot. intros k s H. apply existsb_exists in H.
  destruct H as [c [Hc Hp]]. apply existsb_exists. exists c.
  split; [|assumption]. rewrite <- (firstn_skipn k s).
  apply in_or_app. now left.
Qed.

(** The stem of a name without separator that has a character other than
    a dot has such a character too, and no separator. *)
Lemma splitext_stem : forall v,
  has_nondot v = true -> ~ In sep v ->
  has_nondot (fst (splitext v)) = true /\ ~ In sep (fst (splitext v)).
Proof.
  intros v Hv Hs. unfold splitext.
  rewrite (rfind_absent sep v Hs).
  destruct (-1 <? rfind extsep v); [|now split].
  simpl Z.add.
  destruct (has_nondot (slice v 0 (rfind extsep v))) eqn:E; [|now split].
  simpl. unfold slice in E. unfold slice_to.
  assert (H0 : clamp_index (Z.of_nat (List.length v)) 0 = 0).
  { apply clamp_index_inside. lia. }
  rewrite H0, Z.sub_0_r in E. simpl in E. split; [exact E|].
  intros H. apply Hs.
  rewrite <- (firstn_skipn
                (Z.to_nat (clamp_index (Z.of_nat (List.length v))
                             (rfind extsep v))) v).
  apply in_or_app. left. exact H.
Qed.

End SplitextFacts.

Section SelectorFacts.

Context {L : PyLib} {LS : PyLibSpec L}.

Import Selector.

Lemma all_dots : forall v,
  has_nondot v = false -> Forall (fun c => c = extsep) v.
Proof.
  induction v as [|c v IH]; simpl; intros H; constructor.
  - apply orb_false_iff in H. destruct H as [H _].
    apply negb_false_iff in H. now apply N.eqb_eq.
  - apply IH. apply orb_false_iff in H. tauto.
Qed.

Lemma dots_lower : forall v,
  Forall (fun c => c = extsep) v -> str_lower v = v.
Proof.
  intros v H. rewrite lower_ascii.
  - induction H as [|c v Hc _ IH]; simpl; [reflexivity|].
    rewrite IH. now subst c.
  - induction H as [|c v Hc _ IH]; simpl; [reflexivity|].
    rewrite IH. now subst c.
Qed.

(** A selected name has a character other than a dot. *)
Lemma is_video_nondot : forall v, is_video v = true -> has_nondot v = true.
Proof.
  intros v Hv. destruct (has_nondot v) eqn:E; [reflexivity|]. exfalso.
  pose proof (all_dots v E) as Hd.
  unfold is_video in Hv. rewrite (dots_lower v Hd) in Hv.
  apply existsb_exists in Hv. destruct Hv as [e [He Hend]].
  apply endswith_iff in Hend. destruct Hend as [r ->].
  rewrite Forall_app in Hd. destruct Hd as [_ Hd].
  simpl in He.
  destruct He as [<-|[<-|[<-|[]]]];
    repeat (inversion Hd as [|? ? ? Hd']; subst; clear Hd; rename Hd' into Hd);
    discriminate.
Qed.

(** The artifact written for a selected item is recognised as its own. *)
Lemma artifact_key : forall v,
  is_video v = true -> ~ In sep v ->
  fst (splitext (fst (splitext v) ++ json_ext)) = fst (splitext v).
Proof.
  intros v Hv Hs.
  destruct (splitext_stem v (is_video_nondot v Hv) Hs) as [H1 H2].
  now rewrite splitext_json.
Qed.

Lemma in_processed : forall name out,
  In name (Fs.listdir out) -> endswith json_ext name = true ->
  In (fst (splitext name)) (processed_videos out).
Proof.
  intros name out Hin He. unfold processed_videos.
  apply (in_map (fun f => fst (splitext f))). now apply filter_In.
Qed.

Lemma in_slice_to : forall (A : Type) (x : A) l n,
  In x (slice_to l n) -> In x l.
Proof.
  intros A x l n H. unfold slice_to in H.
  rewrite <- (firstn_skipn
                (Z.to_nat (clamp_index (Z.of_nat (List.length l)) n)) l).
  apply in_or_app. now left.
Qed.

(** The selector returns the eligible items, in the order [rnd] gives when
    shuffling is on, cut to [max_items]. *)
Lemma get_video_files_eligible : forall rnd names out max_items shuffle,
  (forall l, Permutation (rnd l) l) ->
  exists l,
    Permutation l (eligible names (Fs.entries (Fs.makedirs out))) /\
    fst (get_video_files rnd (Some names) out max_items shuffle)
    = slice_to l max_items.
Proof.
  intros rnd names out max_items shuffle Hr. unfold get_video_files.
  fold (eligible names (Fs.entries (Fs.makedirs out))).
  destruct shuffle; simpl.
  - eexists. split; [apply Hr | reflexivity].
  - eexists. split; [apply Permutation_refl | reflexivity].
Qed.

Lemma in_eligible : forall v names out,
  In v (eligible names out) <->
  In v names /\ is_video v = true /\
  ~ In (fst (splitext v)) (processed_videos out).
Proof.
  intros v names out. unfold eligible. rewrite !filter_In, negb_true_iff.
  rewrite <- (mem_iff (fst (splitext v)) (processed_videos out)).
  destruct (mem _ _); intuition congruence.
Qed.

(** An item whose artifact is in the output directory is not eligible. *)
Lemma artifact_excludes : forall v names out,
  ~ In sep v ->
  In (fst (splitext v) ++ json_ext) (Fs.listdir out) ->
  ~ In v (eligible names out).
Proof.
  intros v names out Hs Ha Hin. apply in_eligible in Hin.
  destruct Hin as [_ [Hv Hn]]. apply Hn.
  rewrite <- (artifact_key v Hv Hs). apply in_processed; [assumption|].
  apply endswith_iff. eauto.
Qed.

End SelectorFacts.

(** ** Runs of the dispatcher *)

Section RunFacts.

Context {L : PyLib}.

Import Selector Worker Dispatcher.

Lemma run_invariant : forall (cfg : config) (P : state -> Prop),
  (forall e s s', P s -> step cfg e s = Some s' -> P s') ->
  forall sched s0 s, P s0 -> run cfg sched s0 = Some s -> P s.
Proof.
  intros cfg P Hstep. induction sched as [|e sched IH]; intros s0 s H0 Hr;
    simpl in Hr.
  - now injection Hr as <-.
  - destruct (step cfg e s0) as [s1|] eqn:E; [|discriminate].
    apply (IH s1 s); [exact (Hstep e s0 s1 H0 E) | exact Hr].
Qed.

Lemma run_app : forall cfg sched1 sched2 s0,
  run cfg (sched1 ++ sched2) s0 =
  match run cfg sched1 s0 with
  | Some s1 => run cfg sched2 s1
  | None => None
  end.
Proof.
  intros cfg. induction sched1 as [|e sched1 IH]; intros sched2 s0; simpl;
    [reflexivity|].
  destruct (step cfg e s0); [apply IH | reflexivity].
Qed.

(** A step is a pool thread's or the main thread's, at a clock reading that
    is not in the past. *)
Lemma step_cases : forall cfg e s s',
  step cfg e s = Some s' ->
  Qle_bool (clock s) (now e) = true /\
  ((exists w, who e = Pool w /\ (w < concurrency cfg)%nat /\
              worker_step cfg w (set_clock (now e) s) = Some s') \/
   (who e = Main /\ main_step cfg (set_clock (now e) s) = Some s')).
Proof.
  intros cfg e s s' H. unfold step in H.
  destruct (Qle_bool (clock s) (now e)); [|discriminate].
  split; [reflexivity|]. destruct (who e) as [w|].
  - destruct (Nat.ltb_spec w (concurrency cfg)); [|discriminate].
    left. eauto.
  - right. eauto.
Qed.

End RunFacts.

Section OutputFacts.

Context {L : PyLib}.

Import Selector Worker Dispatcher.

Lemma handle_result_path : forall video_file r p d,
  handle_result video_file r = Written p d ->
  p = fst (splitext video_file) ++ json_ext.
Proof.
  intros video_file r p d. unfold handle_result.
  destruct r as [[[[|c text] metadata]|]|e]; try discriminate.
  destruct (Normalizer.normalize (c :: text)) as [[]|]; try discriminate.
  now intros [= <- _].
Qed.

Lemma persist_listdir : forall h out x,
  In x (Fs.listdir out) -> In x (Fs.listdir (persist h out)).
Proof.
  intros [p d| |e] out x H; simpl; [|assumption..].
  now apply listdir_write.
Qed.

Lemma worker_step_output : forall cfg w s s',
  worker_step cfg w s = Some s' ->
  output s' = output s /\
  forall v t h, In (Handle v t h) (trace s') -> In (Handle v t h) (trace s).
Proof.
  intros cfg w s s' H. unfold worker_step, leave_check in H.
  split_step H; simpl; split; try reflexivity; intros v t h K;
    try assumption; destruct K as [K|K]; try discriminate; assumption.
Qed.

Lemma main_step_outputs : forall cfg out0 s s',
  outputs_kept out0 s -> main_step cfg s = Some s' -> outputs_kept out0 s'.
Proof.
  intros cfg out0 s s' [H1 H2] H. unfold main_step in H. split_step H; simpl.
  - split.
    + intros v t path d [K|K].
      * injection K as -> _ K. split.
        -- eapply handle_result_path; eauto.
        -- simpl. rewrite K. simpl. apply (proj1 (listdir_write _ _ _)).
      * destruct (H1 _ _ _ _ K) as [-> Hin]. split; [reflexivity|].
        now apply persist_listdir.
    + intros x Hx. apply persist_listdir. auto.
  - split; assumption.
Qed.

Lemma step_outputs : forall cfg out0 e s s',
  outputs_kept out0 s -> step cfg e s = Some s' -> outputs_kept out0 s'.
Proof.
  intros cfg out0 e s s' HP Hs. apply step_cases in Hs.
  destruct Hs as [_ [[w [_ [_ Hw]]] | [_ Hm]]].
  - destruct (worker_step_output _ _ _ _ Hw) as [Ho Ht]. simpl in Ho.
    destruct HP as [H1 H2]. split.
    + intros v t p d K. rewrite Ho. apply (H1 v t p d). exact (Ht _ _ _ K).
    + intros x Hx. rewrite Ho. auto.
  - eapply main_step_outputs; [|exact Hm]. exact HP.
Qed.

Lemma run_outputs : forall cfg sched video_files out0 start s,
  run cfg sched (init video_files out0 start) = Some s ->
  outputs_kept out0 s.
Proof.
  intros cfg sched video_files out0 start s H.
  eapply (run_invariant cfg (outputs_kept out0)); [|
    |exact H].
  - intros e s1 s2. apply step_outputs.
  - split; [intros v t p d []|auto].
Qed.

End OutputFacts.

(** ** Idempotency across runs *)

Section IdempotencyFacts.

Context {L : PyLib} {LS : PyLibSpec L}.

Import Selector Worker Dispatcher.

Lemma processed_grows : forall out out' k,
  (forall x, In x (Fs.listdir out) -> In x (Fs.listdir out')) ->
  In k (processed_videos out) -> In k (processed_videos out').
Proof.
  intros out out' k Hsub Hk. unfold processed_videos in *.
  apply in_map_iff in Hk. destruct Hk as [f [<- Hf]].
  apply filter_In in Hf. destruct Hf as [Hf He].
  apply (in_map (fun f => fst (splitext f))). apply filter_In. auto.
Qed.

(** C4 as amended.  After any run of the dispatcher on the items the
    selector returned, a second call of the selector on the same input names
    and the output directory the run left returns the items that are still
    eligible (input videos whose derived key no [.json] entry of the output
    directory has), in listing order or, when shuffling is on, in the order
    [random.shuffle] gives, cut to [max_items].  So no selected item has its
    artifact in the output directory, every item the first run wrote an
    artifact for is left out, and the second run selects nothing when the
    first run wrote an artifact for every item that was eligible before
    it. *)
Theorem second_run_skips_written :
  forall cfg rnd1 rnd2 names out0 max_items shuffle start sched s,
    (forall l, Permutation (rnd2 l) l) ->
    Forall (fun v => ~ In sep v) names ->
    run cfg sched
      (init (fst (get_video_files rnd1 (Some names) (Some out0)
                    max_items shuffle)) out0 start) = Some s ->
    let second :=
      fst (get_video_files rnd2 (Some names) (Some (output s))
             max_items shuffle) in
    (exists l, Permutation l (eligible names (output s)) /\
               second = slice_to l max_items) /\
    (forall v, In v second ->
               In v names /\ is_video v = true /\
               ~ In (fst (splitext v) ++ json_ext) (Fs.listdir (output s))) /\
    (forall v t p d, In (Handle v t (Written p d)) (trace s) ->
                     ~ In v second) /\
    ((forall v, In v (eligible names out0) ->
                exists t p d, In (Handle v t (Written p d)) (trace s)) ->
     second = []) /\
    second
    = slice_to (if shuffle then rnd2 (eligible names (output s))
                else eligible names (output s)) max_items.
Proof.
  intros cfg rnd1 rnd2 names out0 max_items shuffle start sched s
    Hrnd Hnames Hrun second.
  cut ((exists l, Permutation l (eligible names (output s)) /\
                  second = slice_to l max_items) /\
       (forall v, In v second ->
                  In v names /\ is_video v = true /\
                  ~ In (fst (splitext v) ++ json_ext)
                      (Fs.listdir (output s))) /\
       (forall v t p d, In (Handle v t (Written p d)) (trace s) ->
                        ~ In v second) /\
       ((forall v, In v (eligible names out0) ->
                   exists t p d, In (Handle v t (Written p d)) (trace s)) ->
        second = [])).
  { intros [H1 [H2 [H3 H4]]].
    split; [exact H1|]. split; [exact H2|]. split; [exact H3|].
    split; [exact H4 | reflexivity]. }
  destruct (run_outputs _ _ _ _ _ _ Hrun) as [Hw Hkeep].
  destruct (get_video_files_eligible rnd2 names (Some (output s)) max_items
              shuffle Hrnd) as [l [Hl Hsel]].
  simpl in Hl. subst second.
  assert (Hin : forall v,
             In v (fst (get_video_files rnd2 (Some names) (Some (output s))
                          max_items shuffle)) ->
             In v (eligible names (output s))).
  { intros v Hv.
    pose proof (eq_ind _ (fun x => In v x) Hv _ Hsel) as Hv'. simpl in Hv'.
    apply in_slice_to in Hv'. eapply Permutation_in; eauto. }
  assert (Hsep : forall v, In v names -> ~ In sep v).
  { now apply Forall_forall. }
  split; [eauto|]. split; [|split].
  - intros v Hv. pose proof (Hin v Hv) as He.
    pose proof He as He'. apply in_eligible in He'.
    destruct He' as [H1 [H2 _]]. split; [assumption|]. split; [assumption|].
    intros Ha. exact (artifact_excludes v names (output s) (Hsep v H1) Ha He).
  - intros v t p d Hh Hv. pose proof (Hin v Hv) as He.
    pose proof He as He'. apply in_eligible in He'. destruct He' as [H1 _].
    destruct (Hw _ _ _ _ Hh) as [-> Ha].
    exact (artifact_excludes v names (output s) (Hsep v H1) Ha He).
  - intros Hall.
    assert (Hnil : eligible names (output s) = []).
    { destruct (eligible names (output s)) as [|v rest] eqn:E; [reflexivity|].
      exfalso.
      assert (He : In v (eligible names (output s)))
        by (rewrite E; now left).
      pose proof He as He'. apply in_eligible in He'.
      destruct He' as [H1 [H2 H3]].
      destruct (in_dec (list_eq_dec N.eq_dec) (fst (splitext v))
                  (processed_videos out0)) as [Hp|Hp].
      - apply H3. eapply processed_grows; eauto.
      - assert (He0 : In v (eligible names out0))
          by (apply in_eligible; auto).
        destruct (Hall v He0) as [t [p [d Hh]]].
        destruct (Hw _ _ _ _ Hh) as [-> Ha].
        exact (artifact_excludes v names (output s) (Hsep v H1) Ha He). }
    rewrite Hnil in Hl. apply Permutation_sym, Permutation_nil in Hl.
    rewrite Hl in Hsel.
    refine (eq_trans Hsel _). unfold slice_to. now rewrite firstn_nil.
Qed.

End IdempotencyFacts.

Lemma second_run_skips_written_witness :
  exists s,
    Dispatcher.run (L := MiniJson.lib) (Scenario.cfg 60 0.5 1)
      Scenario.one_item_run
      (Dispatcher.init
         (fst (Selector.get_video_files (L := MiniJson.lib) (fun l => l)
                 (Some [Scenario.a_mp4; Scenario.b_mp4]) (Some []) 1 false))
         [] 0) = Some s /\
    ~ In Scenario.a_mp4
        (fst (Selector.get_video_files (L := MiniJson.lib) (@rev pystr)
                (Some [Scenario.a_mp4; Scenario.b_mp4])
                (Some (Dispatcher.output s)) 1 false)).
Proof.
  destruct (Dispatcher.run (L := MiniJson.lib) (Scenario.cfg 60 0.5 1)
              Scenario.one_item_run
              (Dispatcher.init
                 (fst (Selector.get_video_files (L := MiniJson.lib)
                         (fun l => l)
                         (Some [Scenario.a_mp4; Scenario.b_mp4]) (Some [])
                         1 false)) [] 0)) as [s|] eqn:E;
    [|vm_compute in E; discriminate E].
  exists s. split; [reflexivity|].
  assert (Hnames : Forall (fun v => ~ In Selector.sep v)
                     [Scenario.a_mp4; Scenario.b_mp4]).
  { repeat constructor; unfold Selector.sep; intros H;
      repeat (destruct H as [H|H]; [discriminate|]); exact H. }
  pose proof (@second_run_skips_written MiniJson.lib mini_spec
                (Scenario.cfg 60 0.5 1) (fun l => l) (@rev pystr)
                [Scenario.a_mp4; Scenario.b_mp4] [] 1 false 0
                Scenario.one_item_run s
                (fun l => Permutation_sym (Permutation_rev l)) Hnames E)
    as [_ [_ [H _]]].
  vm_compute in E. injection E as <-.
  eapply H. left. reflexivity.
Defined.

(** C4 as stated fails: with two input videos and [max_items] 1 the first
    run deals with [a.mp4] only, and the second run selects [b.mp4]. *)
Lemma second_run_selects_the_rest :
  ~ Dispatcher.second_run_selects_nothing (L := MiniJson.lib)
      (Scenario.cfg 60 0.5 1) (fun l => l)
      [Scenario.a_mp4; Scenario.b_mp4] [] 1 false 0 Scenario.one_item_run.
Proof.
  intros H. unfold Dispatcher.second_run_selects_nothing in H.
  destruct (Dispatcher.run (L := MiniJson.lib) (Scenario.cfg 60 0.5 1)
              Scenario.one_item_run
              (Dispatcher.init
                 (fst (Selector.get_video_files (L := MiniJson.lib)
                         (fun l => l)
                         (Some [Scenario.a_mp4; Scenario.b_mp4]) (Some [])
                         1 false)) [] 0)) as [s|] eqn:E;
    [|vm_compute in E; discriminate E].
  specialize (H s E). vm_compute in E. injection E as <-.
  specialize (H eq_refl). vm_compute in H. discriminate H.
Qed.

(** ** Admission control *)

Section AdmissionFacts.

Context {L : PyLib}.

Import Worker Dispatcher.

Lemma is_free_none : forall l, is_free l = true -> l = None.
Proof. intros [w|]; [discriminate | reflexivity]. Qed.

(** The lock and the [with] blocks agree all along a run. *)
Lemma step_lock : forall cfg e s s',
  lock_held_inside s -> step cfg e s = Some s' -> lock_held_inside s'.
Proof.
  intros cfg e s s' Hinv Hs. apply step_cases in Hs.
  destruct Hs as [_ [[w [_ [_ Hw]]] | [_ Hm]]].
  - unfold worker_step, leave_check in Hw. simpl in Hw.
    split_step Hw; intros w0; simpl; unfold upd;
      pose proof (Hinv w0) as H0; pose proof (Hinv w) as H1;
      repeat match goal with
             | K : is_free _ = true |- _ => apply is_free_none in K
             end;
      destruct (Nat.eqb_spec w0 w) as [->|Hne]; simpl;
      repeat match goal with
             | K : workers s w = _ |- _ => rewrite K in *; clear K
             | K : rpm_lock s = _ |- _ => rewrite K in *; clear K
             end;
      simpl in *;
      try tauto;
      try (split; [tauto | intros [= ->]; tauto]);
      try (split; intros K; [reflexivity | tauto]);
      try (split; [intros K; apply H0 in K; discriminate | discriminate]);
      try (split; [discriminate | intros K; apply H1 in K; discriminate]);
      try (split; [intros K; apply H0 in K; congruence | discriminate]);
      try (split; [intros K; apply H0 in K; discriminate | congruence]);
      try (split; discriminate);
      try (split; [intros K; apply H0 in K;
                   rewrite (proj1 H1 eq_refl) in K; congruence
                  | discriminate]).
  - unfold main_step in Hm. split_step Hm; intros w0; simpl; apply Hinv.
Qed.

Lemma run_lock : forall cfg sched video_files out0 start s,
  run cfg sched (init video_files out0 start) = Some s -> lock_held_inside s.
Proof.
  intros cfg sched video_files out0 start s H.
  eapply (run_invariant cfg lock_held_inside); [| |exact H].
  - intros e s1 s2. apply step_lock.
  - intros w. simpl. split; discriminate.
Qed.

(** The window is popped and appended to only by the thread that holds
    the lock. *)
Lemma window_changes_under_lock : forall cfg e s s',
  lock_held_inside s -> step cfg e s = Some s' ->
  request_timestamps s' <> request_timestamps s ->
  exists w, who e = Pool w /\ rpm_lock s = Some w /\
            in_lock (workers s w) = true.
Proof.
  intros cfg e s s' Hinv Hs Hne. apply step_cases in Hs.
  destruct Hs as [_ [[w [Hwho [_ Hw]]] | [_ Hm]]].
  - exists w. split; [assumption|].
    assert (Hin : in_lock (workers s w) = true).
    { unfold worker_step, leave_check in Hw. simpl in Hw.
      split_step Hw; simpl in Hne; try congruence; reflexivity. }
    split; [now apply Hinv | assumption].
  - exfalso. apply Hne. unfold main_step in Hm. split_step Hm; reflexivity.
Qed.

(** The loop of lines 303-304 drops a prefix of the window, every dropped
    timestamp is more than 60 seconds old, and the first one kept is not. *)
Lemma evict_spec : forall current_time ts,
  exists old,
    ts = old ++ evict current_time ts /\
    Forall (fun t => (60 < current_time - t)%Q) old /\
    match evict current_time ts with
    | oldest :: _ => (current_time - oldest <= 60)%Q
    | [] => True
    end.
Proof.
  intros ct. induction ts as [|t ts [old [H1 [H2 H3]]]]; simpl.
  - exists []. repeat split. constructor.
  - unfold Qlt_bool. destruct (Qle_bool (ct - t) 60) eqn:E; simpl.
    + exists []. repeat split; [constructor|]. now apply Qle_bool_iff.
    + exists (t :: old). split; [simpl; now f_equal|]. split; [|assumption].
      constructor; [|assumption].
      apply Qnot_le_lt. intros K. apply Qle_bool_iff in K. congruence.
Qed.

End AdmissionFacts.

Import Dispatcher.

(** C1, at the failing input.  Budget 1, two pool threads, two items: both
    threads pass the capacity check on the empty window before either
    records its admission, and the admissions recorded at 0 and at 1 fall in
    one 60-second window. *)
Theorem rate_budget_exceeded_by_race :
  exists s,
    run (L := MiniJson.lib) (Scenario.cfg 1 0.5 2) Scenario.racing_run
      (init [Scenario.a_mp4; Scenario.b_mp4] [] 0) = Some s /\
    admissions (trace s) = [1%Q; 0%Q] /\
    granted_in (admissions (trace s)) 0 = 2%nat /\
    (max_rpm (Scenario.cfg 1 0.5 2) < 2)%Z.
Proof.
  destruct (run (L := MiniJson.lib) (Scenario.cfg 1 0.5 2) Scenario.racing_run
              (init [Scenario.a_mp4; Scenario.b_mp4] [] 0)) as [s|] eqn:E;
    [|vm_compute in E; discriminate E].
  exists s. split; [reflexivity|].
  vm_compute in E. injection E as <-.
  repeat split.
Qed.

(** C2, at the failing input.  Budget 1, two pool threads, three items.
    Thread 0 is about to append at 61 while the window, with the eviction
    applied again at 61, still holds one admission: it appends all the same,
    there being no second check.  And in the race above, once thread 0 has
    seen room in the window the lock is free, and thread 1 takes it before
    thread 0 records anything. *)
Theorem admission_without_recheck :
  (exists s1 s2,
      run (L := MiniJson.lib) (Scenario.cfg 1 0.5 2) Scenario.waiting_run
        (init [Scenario.a_mp4; Scenario.b_mp4; Scenario.c_mp4] [] 0)
      = Some s1 /\
      workers s1 0%nat = WLocked2 Scenario.c_mp4 /\
      request_timestamps s1 = [0%Q; 60%Q] /\
      evict 61 (request_timestamps s1) = [60%Q] /\
      (max_rpm (Scenario.cfg 1 0.5 2)
       <= Z.of_nat (List.length (evict 61 (request_timestamps s1))))%Z /\
      step (L := MiniJson.lib) (Scenario.cfg 1 0.5 2) (Scenario.pool 0 61) s1
      = Some s2 /\
      request_timestamps s2 = [0%Q; 60%Q; 61%Q]) /\
  (exists s3 s4,
      run (L := MiniJson.lib) (Scenario.cfg 1 0.5 2)
        (firstn 4 Scenario.racing_run)
        (init [Scenario.a_mp4; Scenario.b_mp4] [] 0) = Some s3 /\
      workers s3 0%nat = WWait Scenario.a_mp4 0 /\
      request_timestamps s3 = [] /\
      rpm_lock s3 = None /\
      step (L := MiniJson.lib) (Scenario.cfg 1 0.5 2) (Scenario.pool 1 0) s3
      = Some s4 /\
      rpm_lock s4 = Some 1%nat).
Proof.
  split.
  - destruct (run (L := MiniJson.lib) (Scenario.cfg 1 0.5 2)
                Scenario.waiting_run
                (init [Scenario.a_mp4; Scenario.b_mp4; Scenario.c_mp4] [] 0))
      as [s1|] eqn:E; [|vm_compute in E; discriminate E].
    destruct (step (L := MiniJson.lib) (Scenario.cfg 1 0.5 2)
                (Scenario.pool 0 61) s1) as [s2|] eqn:E2;
      [|vm_compute in E; injection E as <-; vm_compute in E2; discriminate E2].
    exists s1, s2. split; [reflexivity|].
    vm_compute in E. injection E as <-.
    vm_compute in E2. injection E2 as <-.
    repeat split. vm_compute. discriminate.
  - destruct (run (L := MiniJson.lib) (Scenario.cfg 1 0.5 2)
                (firstn 4 Scenario.racing_run)
                (init [Scenario.a_mp4; Scenario.b_mp4] [] 0))
      as [s3|] eqn:E; [|vm_compute in E; discriminate E].
    destruct (step (L := MiniJson.lib) (Scenario.cfg 1 0.5 2)
                (Scenario.pool 1 0) s3) as [s4|] eqn:E2;
      [|vm_compute in E; injection E as <-; vm_compute in E2; discriminate E2].
    exists s3, s4. split; [reflexivity|].
    vm_compute in E. injection E as <-.
    vm_compute in E2. injection E2 as <-.
    repeat split.
Qed.

(** ** Pacing *)

Section PacingFacts.

Context {L : PyLib}.

Local Open Scope Q_scope.

Lemma main_paced_nil : forall delay, main_paced delay [].
Proof. intros delay [|o pre] post; intros; discriminate. Qed.

Lemma main_paced_other : forall delay o tr,
  (forall item t h, o <> Handle item t h) ->
  main_paced delay tr -> main_paced delay (o :: tr).
Proof.
  intros delay o tr Ho Hp [|o' pre] post item2 t2 h2 item1 t1 h1 E Hin.
  - injection E as E _. exfalso. exact (Ho _ _ _ E).
  - injection E as _ E. exact (Hp _ _ _ _ _ _ _ _ E Hin).
Qed.

Lemma main_paced_handle : forall delay item t h tr,
  (forall item1 t1 h1, In (Handle item1 t1 h1) tr -> t1 + delay <= t) ->
  main_paced delay tr -> main_paced delay (Handle item t h :: tr).
Proof.
  intros delay item t h tr Hall Hp [|o' pre] post item2 t2 h2 item1 t1 h1 E Hin.
  - injection E as <- <- <- <-. eauto.
  - injection E as _ E. exact (Hp _ _ _ _ _ _ _ _ E Hin).
Qed.

(** A pool thread's step leaves the main thread where it is and records
    nothing on its behalf. *)
Lemma worker_step_trace : forall cfg w s s',
  worker_step cfg w s = Some s' ->
  main_pc s' = main_pc s /\ clock s' = clock s /\
  (trace s' = trace s \/
   exists o, trace s' = o :: trace s /\ forall item t h, o <> Handle item t h).
Proof.
  intros cfg w s s' H. unfold worker_step, leave_check in H.
  split_step H; simpl; repeat split; auto;
    right; eexists; (split; [reflexivity | discriminate]).
Qed.

Lemma step_pacing : forall cfg e s s',
  0 <= request_delay cfg ->
  pacing_inv (request_delay cfg) s -> step cfg e s = Some s' ->
  pacing_inv (request_delay cfg) s'.
Proof.
  intros cfg e s s' Hd [H1 H2] Hs. apply step_cases in Hs.
  destruct Hs as [Hclk [[w [_ [_ Hw]]] | [_ Hm]]];
    apply Qle_bool_iff in Hclk.
  - destruct (worker_step_trace _ _ _ _ Hw) as [Hpc [Hc Ht]].
    simpl in Hpc, Hc.
    assert (Hn : next_handle s <= next_handle s').
    { unfold next_handle. rewrite Hpc, Hc.
      destruct (main_pc s); [assumption | apply Qle_refl]. }
    destruct Ht as [Ht | [o [Ht Ho]]]; simpl in Ht; unfold pacing_inv;
      rewrite Ht.
    + split; [|assumption]. intros item t h K.
      specialize (H1 _ _ _ K). lra.
    + split; [|now apply main_paced_other].
      intros item t h [K|K]; [exfalso; exact (Ho _ _ _ K)|].
      specialize (H1 _ _ _ K). lra.
  - unfold main_step in Hm. simpl in Hm.
    destruct (main_pc s) as [|until] eqn:Epc.
    + destruct (finished s) as [|[video_file r] rest]; [discriminate|].
      injection Hm as <-. unfold pacing_inv, next_handle. simpl.
      unfold next_handle in H1. rewrite Epc in H1.
      assert (Hall : forall item1 t1 h1,
                 In (Handle item1 t1 h1) (trace s) ->
                 t1 + request_delay cfg <= now e).
      { intros item1 t1 h1 K. specialize (H1 _ _ _ K). lra. }
      split; [|now apply main_paced_handle].
      intros item t h [K|K].
      * injection K as _ <- _. apply Qle_refl.
      * specialize (Hall _ _ _ K). lra.
    + destruct (Qle_bool until (now e)) eqn:Eu; [|discriminate].
      injection Hm as <-. apply Qle_bool_iff in Eu.
      unfold pacing_inv, next_handle. simpl.
      unfold next_handle in H1. rewrite Epc in H1.
      split; [|assumption]. intros item t h K.
      specialize (H1 _ _ _ K). lra.
Qed.

(** What the delay does pace.  With a delay that is not negative, whatever
    the main loop did with a completed item (artifact written, failure
    reported, error caught), it deals with the next completed item no sooner
    than the delay after: the sleep is the main thread's, at the end of each
    turn of the result loop. *)
Theorem main_loop_paced :
  forall cfg sched video_files out0 start s,
    0 <= request_delay cfg ->
    run cfg sched (init video_files out0 start) = Some s ->
    main_paced (request_delay cfg) (trace s) /\
    (forall item t h, In (Handle item t h) (trace s) ->
                      t + request_delay cfg <= next_handle s).
Proof.
  intros cfg sched video_files out0 start s Hd H.
  assert (G : pacing_inv (request_delay cfg) s).
  { eapply (run_invariant cfg (pacing_inv (request_delay cfg))); [| |exact H].
    - intros e s1 s2. now apply step_pacing.
    - split; [intros item t h []|apply main_paced_nil]. }
  destruct G as [G1 G2]. split; assumption.
Qed.

End PacingFacts.

Lemma main_loop_paced_witness :
  exists s,
    run (L := MiniJson.lib) (Scenario.cfg 60 0.5 1) Scenario.two_item_run
      (init [Scenario.a_mp4; Scenario.b_mp4] [] 0) = Some s /\
    handled_items (trace s) = [Scenario.b_mp4; Scenario.a_mp4] /\
    main_paced 0.5 (trace s).
Proof.
  destruct (run (L := MiniJson.lib) (Scenario.cfg 60 0.5 1)
              Scenario.two_item_run
              (init [Scenario.a_mp4; Scenario.b_mp4] [] 0)) as [s|] eqn:E;
    [|vm_compute in E; discriminate E].
  exists s. split; [reflexivity|].
  assert (Hd : (0 <= request_delay (Scenario.cfg 60 0.5 1))%Q)
    by (simpl; lra).
  pose proof (proj1 (@main_loop_paced MiniJson.lib (Scenario.cfg 60 0.5 1)
                       Scenario.two_item_run
                       [Scenario.a_mp4; Scenario.b_mp4] [] 0 s Hd E)) as H.
  split; [|exact H].
  vm_compute in E. injection E as <-. reflexivity.
Defined.

(** C6.  The delay paces no request.  Every call is submitted before the
    result loop starts and the sleep of line 366 is the main thread's, so
    with a delay of half a second a pool thread that finished [a.mp4] at 5
    begins [b.mp4] at 5.1: the run is not paced as the claim has it. *)
Lemma pool_thread_does_not_pause :
  exists s,
    run (L := MiniJson.lib) (Scenario.cfg 60 0.5 1) Scenario.back_to_back_run
      (init [Scenario.a_mp4; Scenario.b_mp4] [] 0) = Some s /\
    ~ pool_paced (request_delay (Scenario.cfg 60 0.5 1)) (trace s).
Proof.
  destruct (run (L := MiniJson.lib) (Scenario.cfg 60 0.5 1)
              Scenario.back_to_back_run
              (init [Scenario.a_mp4; Scenario.b_mp4] [] 0)) as [s|] eqn:E;
    [|vm_compute in E; discriminate E].
  exists s. split; [reflexivity|].
  vm_compute in E. injection E as <-.
  intros H.
  specialize (H [] [Finish 0 Scenario.a_mp4 5; Granted 0 0;
                    Begin 0 Scenario.a_mp4 0]
                0%nat Scenario.b_mp4 5.1%Q Scenario.a_mp4 5%Q
                eq_refl (or_introl eq_refl)).
  simpl in H. lra.
Qed.

(** ** The first [with] block, run to its end *)

Section FirstBlockFacts.

Context {L : PyLib}.

Lemma evict_length : forall current_time ts,
  (List.length (evict current_time ts) <= List.length ts)%nat.
Proof.
  intros ct. induction ts as [|t ts IH]; simpl; [lia|].
  destruct (Qlt_bool 60 (ct - t)); simpl; lia.
Qed.

Lemma run_cons : forall cfg e sched s,
  run cfg (e :: sched) s =
  match step cfg e s with
  | Some s' => run cfg sched s'
  | None => None
  end.
Proof. reflexivity. Qed.

Lemma evict_step_pop : forall cfg w item current_time t oldest rest s,
  (w < concurrency cfg)%nat ->
  workers s w = WEvict item current_time ->
  request_timestamps s = oldest :: rest ->
  Qlt_bool 60 (current_time - oldest) = true ->
  (clock s <= t)%Q ->
  step cfg (Scenario.pool w t) s = Some (set_window rest (set_clock t s)).
Proof.
  intros cfg w item ct t oldest rest s Hw Hpc Hts Ho Hclk.
  apply Qle_bool_iff in Hclk. apply Nat.ltb_lt in Hw.
  unfold step. simpl. rewrite Hclk, Hw. unfold worker_step. simpl.
  now rewrite Hpc, Hts, Ho.
Qed.

Lemma evict_step_leave : forall cfg w item current_time t s,
  (w < concurrency cfg)%nat ->
  workers s w = WEvict item current_time ->
  evict current_time (request_timestamps s) = request_timestamps s ->
  (clock s <= t)%Q ->
  step cfg (Scenario.pool w t) s
  = Some (leave_check cfg w item current_time (set_clock t s)).
Proof.
  intros cfg w item ct t s Hw Hpc He Hclk.
  apply Qle_bool_iff in Hclk. apply Nat.ltb_lt in Hw.
  unfold step. simpl. rewrite Hclk, Hw. unfold worker_step. simpl.
  rewrite Hpc. destruct (request_timestamps s) as [|oldest rest] eqn:Ets;
    [reflexivity|].
  simpl in He. destruct (Qlt_bool 60 (ct - oldest)); [|reflexivity].
  exfalso. pose proof (evict_length ct rest) as Hl. rewrite He in Hl.
  simpl in Hl. lia.
Qed.

(** A thread that has taken the lock and read the clock pops, one step at a
    time, every timestamp at the front that is more than 60 seconds old, and
    then leaves the block with the wait computed from the first timestamp
    that is left. *)
Lemma first_block_evicts : forall cfg w item current_time t ts s,
  (w < concurrency cfg)%nat ->
  workers s w = WEvict item current_time ->
  request_timestamps s = ts ->
  (clock s <= t)%Q ->
  run cfg
    (repeat (Scenario.pool w t)
       (S (List.length ts - List.length (evict current_time ts)))) s
  = Some (leave_check cfg w item current_time
            (set_window (evict current_time ts) (set_clock t s))).
Proof.
  intros cfg w item ct t ts. induction ts as [|t0 rest IH];
    intros s Hw Hpc Hts Hclk.
  - simpl repeat. rewrite run_cons, (evict_step_leave cfg w item ct t s);
      auto; [|now rewrite Hts].
    simpl. destruct s; simpl in *; now subst.
  - simpl evict. destruct (Qlt_bool 60 (ct - t0)) eqn:E.
    + pose proof (evict_length ct rest) as Hl.
      change (List.length (t0 :: rest)) with (S (List.length rest)).
      rewrite Nat.sub_succ_l by exact Hl.
      set (k := (List.length rest - List.length (evict ct rest))%nat) in *.
      change (repeat (Scenario.pool w t) (S (S k)))
        with (Scenario.pool w t :: repeat (Scenario.pool w t) (S k)).
      rewrite run_cons, (evict_step_pop cfg w item ct t t0 rest s); auto.
      rewrite IH;
        [destruct s; reflexivity | assumption | exact Hpc | reflexivity
        | apply Qle_refl].
    + rewrite Nat.sub_diag. simpl repeat.
      rewrite run_cons, (evict_step_leave cfg w item ct t s); auto.
      * simpl. destruct s; simpl in *; now subst.
      * rewrite Hts. simpl. now rewrite E.
Qed.

End FirstBlockFacts.

(** ** The examples of the specification *)

Example normalize_fenced_object :
  Normalizer.normalize (L := MiniJson.lib)
    (Normalizer.fence_json ++ 10%N :: jlit "{'a':1}" ++ 10%N :: Normalizer.fence)
  = Ok (JObj [(lit "a", JInt 1)]).
Proof. reflexivity. Qed.

Example normalize_no_braces :
  Normalizer.normalize (L := MiniJson.lib) (lit "no braces here")
  = Ok (JObj [(lit "caption", JStr (lit "no braces here"));
              (lit "error", JStr (lit "JSON parse failed"))]).
Proof. reflexivity. Qed.

Example normalize_fenced_garbage :
  Normalizer.normalize (L := MiniJson.lib) (lit "```{not json}```")
  = Ok (Normalizer.envelope (lit "{not json}")).
Proof. reflexivity. Qed.

Example fix_json_content_example :
  Maintenance.fix_json_content (jlit "{'a': [1, 2, ], 'b': 3 ,}")
  = jlit "{'a': [1, 2 ], 'b': 3 }".
Proof. reflexivity. Qed.

Example splitext_examples :
  Selector.splitext (lit "clip.final.MP4") = (lit "clip.final", lit ".MP4") /\
  Selector.splitext (lit ".mp4") = (lit ".mp4", []) /\
  Selector.splitext (lit ".mp4.json") = (lit ".mp4", lit ".json").
Proof. repeat split. Qed.

(* ================================================================== *)
(** * Part III: further properties of the code *)
(* ================================================================== *)

(** ** The selector's cut and its completeness *)

Section SelectorMore.

Context {L : PyLib} {LS : PyLibSpec L}.

Import Selector.

Local Open Scope Z_scope.

Lemma slice_to_length : forall (A : Type) (l : list A) n,
  Z.of_nat (List.length (slice_to l n))
  = clamp_index (Z.of_nat (List.length l)) n.
Proof.
  intros A l n. unfold slice_to. rewrite length_firstn.
  unfold clamp_index. destruct (Z.ltb_spec n 0); lia.
Qed.

(** The number of selected items: with a cap that is not negative, the
    smaller of the cap and the number of eligible items; with a negative cap
    the slice drops that many items from the end instead. *)
Theorem selection_length :
  forall rnd names out max_items shuffle,
    (forall l, Permutation (rnd l) l) ->
    let n :=
      Z.of_nat (List.length (eligible names (Fs.entries (Fs.makedirs out)))) in
    let selected :=
      fst (get_video_files rnd (Some names) out max_items shuffle) in
    (0 <= max_items ->
     Z.of_nat (List.length selected) = Z.min n max_items) /\
    (max_items < 0 ->
     Z.of_nat (List.length selected) = Z.max 0 (n + max_items)).
Proof.
  intros rnd names out max_items shuffle Hr n selected.
  destruct (get_video_files_eligible rnd names out max_items shuffle Hr)
    as [l [Hl Hsel]].
  assert (Hlen : Z.of_nat (List.length selected)
                 = clamp_index n max_items).
  { unfold selected. rewrite (f_equal (@List.length pystr) Hsel).
    rewrite slice_to_length. unfold n.
    now rewrite (Permutation_length Hl). }
  rewrite Hlen. unfold clamp_index.
  split; intros H; destruct (Z.ltb_spec max_items 0); lia.
Qed.

Lemma slice_to_all : forall (A : Type) (l : list A) n,
  Z.of_nat (List.length l) <= n -> slice_to l n = l.
Proof.
  intros A l n H. unfold slice_to. apply firstn_all2.
  unfold clamp_index. destruct (Z.ltb_spec n 0); lia.
Qed.

(** When the cap does not cut, an input name is selected exactly when it has
    a video extension and no [.json] entry of the output directory has its
    stem.  After the call the output directory exists: it was created, empty,
    if it was missing, and it keeps its entries otherwise. *)
Theorem selection_complete :
  forall rnd names out max_items shuffle,
    (forall l, Permutation (rnd l) l) ->
    Z.of_nat (List.length (eligible names (Fs.entries (Fs.makedirs out))))
      <= max_items ->
    snd (get_video_files rnd (Some names) out max_items shuffle)
    = Some (Fs.entries out) /\
    (out = None ->
     snd (get_video_files rnd (Some names) out max_items shuffle) = Some []) /\
    forall v,
      (In v (fst (get_video_files rnd (Some names) out max_items shuffle)) <->
       In v names /\ is_video v = true /\
       forall f, In f (Fs.listdir (Fs.entries (Fs.makedirs out))) ->
                 endswith json_ext f = true ->
                 fst (splitext f) <> fst (splitext v)).
Proof.
  intros rnd names out max_items shuffle Hr Hmax.
  split; [now destruct out|]. split; [now intros ->|]. intros v.
  destruct (get_video_files_eligible rnd names out max_items shuffle Hr)
    as [l [Hl Hsel]].
  assert (Hin : In v (fst (get_video_files rnd (Some names) out max_items
                             shuffle)) <->
                In v (eligible names (Fs.entries (Fs.makedirs out)))).
  { assert (Hall : slice_to l max_items = l).
    { apply slice_to_all. now rewrite (Permutation_length Hl). }
    rewrite Hall in Hsel. split; intros H.
    - apply (Permutation_in v Hl).
      exact (eq_ind _ (fun x => In v x) H _ Hsel).
    - apply (eq_ind_r (fun x => In v x)
               (Permutation_in v (Permutation_sym Hl) H) Hsel). }
  rewrite Hin, in_eligible. unfold processed_videos.
  split; intros [H1 [H2 H3]]; (split; [assumption|]); (split; [assumption|]).
  - intros f Hf He Heq. apply H3. rewrite <- Heq.
    apply (in_map (fun f => fst (splitext f))). now apply filter_In.
  - intros H. apply in_map_iff in H. destruct H as [f [Heq Hf]].
    apply filter_In in Hf. destruct Hf as [Hf He]. exact (H3 f Hf He Heq).
Qed.

End SelectorMore.

Lemma selection_length_witness :
  Z.of_nat
    (List.length
       (fst (Selector.get_video_files (L := MiniJson.lib) (@rev pystr)
               (Some [lit "a.mp4"; lit "notes.txt"; lit "b.MOV"; lit "c.avi"])
               (Some [(lit "c.json", [])]) (-1) true)))
  = 1%Z.
Proof.
  exact (proj2 (@selection_length MiniJson.lib (@rev pystr)
                  [lit "a.mp4"; lit "notes.txt"; lit "b.MOV"; lit "c.avi"]
                  (Some [(lit "c.json", [])]) (-1) true
                  (fun l => Permutation_sym (Permutation_rev l)))
           ltac:(lia)).
Defined.

Lemma selection_complete_witness :
  In (lit "b.MOV")
    (fst (Selector.get_video_files (L := MiniJson.lib) (@rev pystr)
            (Some [lit "a.mp4"; lit "notes.txt"; lit "b.MOV"; lit "c.avi"])
            (Some [(lit "c.json", [])]) 100 true)).
Proof.
  apply (proj2 (proj2 (proj2 (@selection_complete MiniJson.lib (@rev pystr)
                  [lit "a.mp4"; lit "notes.txt"; lit "b.MOV"; lit "c.avi"]
                  (Some [(lit "c.json", [])]) 100 true
                  (fun l => Permutation_sym (Permutation_rev l))
                  ltac:(vm_compute; discriminate))) (lit "b.MOV"))).
  split; [simpl; tauto|]. split; [reflexivity|].
  intros f [<-|[]] _. vm_compute. discriminate.
Defined.

(** ** Artifacts: paths, fences, embedded objects, reserved keys *)

Section ArtifactMore.

Context {L : PyLib}.

Import Selector Normalizer Worker.

Lemma listdir_write_absent : forall name text d,
  ~ In name (Fs.listdir d) ->
  Fs.listdir (Fs.write name text d) = Fs.listdir d ++ [name].
Proof.
  induction d as [|[n c] d IH]; simpl; intros H; [reflexivity|].
  destruct (PyStr.eqb name n) eqn:E.
  - apply eqb_eq in E. subst. tauto.
  - simpl. f_equal. apply IH. tauto.
Qed.

Lemma write_nodup : forall name text d,
  NoDup (Fs.listdir d) -> NoDup (Fs.listdir (Fs.write name text d)).
Proof.
  intros name text d H.
  destruct (in_dec (list_eq_dec N.eq_dec) name (Fs.listdir d)) as [Hin|Hn].
  - now rewrite listdir_write_present.
  - rewrite listdir_write_absent by assumption.
    apply NoDup_app; [assumption | repeat constructor; intros [] |].
    intros x Hx [<-|[]]. contradiction.
Qed.

(** Two items with the same stem ([a.mp4] and [a.mov]) are written to the
    same path: the one dealt with later replaces the artifact of the other,
    the directory keeps one entry for them, and no other file changes. *)
Theorem same_stem_overwrites :
  forall v1 v2 r1 r2 p1 d1 p2 d2 out,
    fst (splitext v1) = fst (splitext v2) ->
    handle_result v1 r1 = Written p1 d1 ->
    handle_result v2 r2 = Written p2 d2 ->
    NoDup (Fs.listdir out) ->
    let out' := persist (Written p2 d2) (persist (Written p1 d1) out) in
    p1 = p2 /\
    Fs.read p1 out' = Some (json_dumps true d2) /\
    NoDup (Fs.listdir out') /\
    (forall f, f <> p1 -> Fs.read f out' = Fs.read f out).
Proof.
  intros v1 v2 r1 r2 p1 d1 p2 d2 out Hstem H1 H2 Hnd out'.
  pose proof (handle_result_path _ _ _ _ H1) as E1.
  pose proof (handle_result_path _ _ _ _ H2) as E2.
  assert (Hp : p1 = p2) by congruence.
  clear E1 E2. subst out' p2. simpl. split; [reflexivity|].
  split; [apply read_write_same|].
  split; [now apply write_nodup, write_nodup|].
  intros f Hf. now rewrite !read_write_other.
Qed.

Local Open Scope Z_scope.

Lemma slice_middle : forall (A : Type) (a b c : list A),
  slice (a ++ b ++ c) (Z.of_nat (List.length a))
    (Z.of_nat (List.length a) + Z.of_nat (List.length b)) = b.
Proof.
  intros A a b c. unfold slice.
  rewrite !clamp_index_inside by (rewrite !length_app; lia).
  replace (Z.to_nat (Z.of_nat (List.length a) + Z.of_nat (List.length b)
                     - Z.of_nat (List.length a)))
    with (List.length b) by lia.
  rewrite Nat2Z.id, skipn_app_exact. apply firstn_app_exact.
Qed.

Lemma startswith_app : forall p s, startswith p (p ++ s) = true.
Proof. intros p s. apply startswith_iff. now exists s. Qed.

(** [(a ++ b ++ c)[len(a) : -len(c)]] is [b] when [c] is not empty. *)
Lemma slice_between : forall (A : Type) (a b c : list A),
  c <> [] ->
  slice (a ++ b ++ c) (Z.of_nat (List.length a))
    (- Z.of_nat (List.length c)) = b.
Proof.
  intros A a b c Hc.
  assert (Hl : (0 < List.length c)%nat)
    by (destruct c; [congruence | simpl; lia]).
  rewrite <- (slice_middle A a b c) at 2. unfold slice.
  do 2 f_equal. f_equal. unfold clamp_index. rewrite !length_app.
  destruct (Z.ltb_spec (- Z.of_nat (List.length c)) 0);
    destruct (Z.ltb_spec (Z.of_nat (List.length a)
                          + Z.of_nat (List.length b)) 0); lia.
Qed.

(** [(a ++ b)[len(a) : -3]] is [b] without its last three characters. *)
Lemma slice_tail_cut : forall (A : Type) (a b : list A),
  slice (a ++ b) (Z.of_nat (List.length a)) (-3)
  = firstn (List.length b - 3) b.
Proof.
  intros A a b. unfold slice.
  rewrite (clamp_index_inside _ (Z.of_nat (List.length a)))
    by (rewrite length_app; lia).
  rewrite Nat2Z.id, skipn_app_exact. f_equal.
  unfold clamp_index. rewrite length_app.
  destruct (Z.ltb_spec (-3) 0); lia.
Qed.

(** Fence stripping.  A text that does not start with three backquotes is
    left as it is; a text wrapped in [```json] and [```], or in [```] and
    [```], gives back what is between.  The last three characters go
    whether or not they are a fence. *)
Theorem strip_fence_unwraps :
  forall body : pystr,
    (startswith fence body = false -> strip_fence body = body) /\
    strip_fence (fence_json ++ body ++ fence) = body /\
    (startswith (lit "json") (body ++ fence) = false ->
     strip_fence (fence ++ body ++ fence) = body) /\
    strip_fence (fence_json ++ body)
    = firstn (List.length body - 3) body.
Proof.
  intros body. split; [|split; [|split]].
  - intros H. unfold strip_fence. rewrite H.
    destruct (startswith fence_json body) eqn:E; [|reflexivity].
    apply startswith_iff in E. destruct E as [r ->]. discriminate H.
  - unfold strip_fence. rewrite startswith_app.
    apply (slice_between _ fence_json body fence). discriminate.
  - intros H. unfold strip_fence.
    assert (E1 : startswith fence_json (fence ++ body ++ fence) = false).
    { change fence_json with (fence ++ lit "json").
      destruct (startswith ((fence ++ lit "json")) (fence ++ body ++ fence))
        eqn:E; [|reflexivity].
      apply startswith_iff in E. destruct E as [r Hr].
      rewrite <- app_assoc in Hr. apply app_inv_head in Hr.
      rewrite <- H. symmetry. apply startswith_iff. eauto. }
    rewrite E1, startswith_app.
    apply (slice_between _ fence body fence). discriminate.
  - unfold strip_fence. rewrite startswith_app.
    apply (slice_tail_cut _ fence_json body).
Qed.

End ArtifactMore.

Lemma same_stem_overwrites_witness :
  let snow := Ok (Some (jlit "{'caption': 'snow'}", [])) in
  let rain := Ok (Some (jlit "{'caption': 'rain'}", [])) in
  Fs.read (lit "a.json")
    (Worker.persist (L := MiniJson.lib)
       (Worker.handle_result (L := MiniJson.lib) (lit "a.mov") rain)
       (Worker.persist (L := MiniJson.lib)
          (Worker.handle_result (L := MiniJson.lib) (lit "a.mp4") snow) []))
  = Some (MiniJson.dumps
            (JObj [(lit "caption", JStr (lit "rain"));
                   (Worker.usage_key, JObj []); (Worker.file_key, JObj [])])).
Proof.
  intros snow rain.
  exact (proj1 (proj2
    (@same_stem_overwrites MiniJson.lib (lit "a.mp4") (lit "a.mov") snow rain
       (lit "a.json")
       (JObj [(lit "caption", JStr (lit "snow"));
              (Worker.usage_key, JObj []); (Worker.file_key, JObj [])])
       (lit "a.json")
       (JObj [(lit "caption", JStr (lit "rain"));
              (Worker.usage_key, JObj []); (Worker.file_key, JObj [])])
       [] eq_refl eq_refl eq_refl (NoDup_nil _)))).
Defined.

Lemma strip_fence_unwraps_witness :
  Normalizer.strip_fence (jlit "{'a': 1}") = jlit "{'a': 1}".
Proof.
  exact (proj1 (@strip_fence_unwraps (jlit "{'a': 1}")) eq_refl).
Defined.

Section EmbeddedObject.

Context {L : PyLib}.

Import Normalizer Worker.

Local Open Scope Z_scope.

Lemma find_from_first : forall c a b i,
  ~ In c a -> find_from c (a ++ c :: b) i = i + Z.of_nat (List.length a).
Proof.
  induction a as [|d a IH]; intros b i H; simpl.
  - rewrite N.eqb_refl. lia.
  - destruct (N.eqb c d) eqn:E.
    + apply N.eqb_eq in E. subst. simpl in H. tauto.
    + rewrite IH by (simpl in H; tauto). lia.
Qed.

(** Prose around an object is ignored: when the stripped text is some text
    without an opening brace, then a brace-delimited part, then some text
    without a closing brace, exactly the brace-delimited part is decoded; its
    value is the result, and the envelope with the whole text is when it does
    not decode. *)
Theorem caption_data_ignores_prose :
  forall pre mid post : pystr,
    ~ In lbrace pre ->
    ~ In rbrace post ->
    let object_text := lbrace :: mid ++ [rbrace] in
    let text := pre ++ object_text ++ post in
    caption_data text =
    match json_loads object_text with
    | Ok v => Ok v
    | Raise _ => Ok (envelope text)
    end.
Proof.
  intros pre mid post Hpre Hpost object_text text.
  assert (Hf : find lbrace text = Z.of_nat (List.length pre)).
  { unfold find, text, object_text. simpl app.
    rewrite find_from_first by assumption. lia. }
  assert (Hr : rfind rbrace text
               = Z.of_nat (List.length pre)
                 + Z.of_nat (List.length object_text) - 1).
  { unfold text, object_text.
    replace (pre ++ (lbrace :: mid ++ [rbrace]) ++ post)
      with ((pre ++ lbrace :: mid) ++ rbrace :: post)
      by (rewrite <- !app_assoc; simpl; now rewrite <- !app_assoc).
    rewrite rfind_last by assumption.
    rewrite !length_app. simpl. rewrite length_app. simpl. lia. }
  unfold caption_data, find_json. rewrite Hf, Hr.
  replace (Z.of_nat (List.length pre) + Z.of_nat (List.length object_text)
           - 1 + 1)
    with (Z.of_nat (List.length pre) + Z.of_nat (List.length object_text))
    by lia.
  unfold text at 1. rewrite slice_middle.
  destruct (Z.eqb_spec (Z.of_nat (List.length pre)) (-1)); [lia|].
  destruct (Z.eqb_spec (Z.of_nat (List.length pre)
                        + Z.of_nat (List.length object_text) - 1) (-1)).
  - unfold object_text in e. simpl in e. lia.
  - simpl. destruct (json_loads object_text); reflexivity.
Qed.

(** The artifact of an item carries the two metadata blocks of the request
    under the reserved keys, whatever the decoded object had there, and every
    other entry of the decoded object with its value. *)
Theorem artifact_reserved_keys :
  forall video_file c text metadata caption,
    normalize (c :: text) = Ok (JObj caption) ->
    exists output_data,
      handle_result video_file (Ok (Some (c :: text, metadata)))
      = Written (fst (Selector.splitext video_file) ++ Selector.json_ext)
          (JObj output_data) /\
      Dict.get usage_key output_data = Some (get_or_empty usage_key metadata) /\
      Dict.get file_key output_data = Some (get_or_empty file_key metadata) /\
      (forall k, k <> usage_key -> k <> file_key ->
                 Dict.get k output_data = Dict.get k caption).
Proof.
  intros video_file c text metadata caption Hn.
  eexists. split.
  - unfold handle_result. rewrite Hn. reflexivity.
  - unfold Dict.merge. simpl fold_left.
    assert (Hs : forall k v d, Dict.get k (Dict.set k v d) = Some v).
    { intros k v d. induction d as [|[k' v'] d IH]; simpl.
      - now rewrite eqb_refl.
      - destruct (PyStr.eqb k k') eqn:E; simpl; rewrite ?eqb_refl, ?E; auto. }
    assert (Ho : forall k k' v d, k <> k' ->
                   Dict.get k (Dict.set k' v d) = Dict.get k d).
    { intros k k' v d Hne. apply eqb_neq in Hne.
      induction d as [|[k0 v0] d IH]; simpl.
      - now rewrite Hne.
      - destruct (PyStr.eqb k' k0) eqn:E; simpl.
        + apply eqb_eq in E. subst k0. now rewrite Hne.
        + now rewrite IH. }
    split; [|split].
    + rewrite Ho by discriminate. apply Hs.
    + apply Hs.
    + intros k H1 H2. now rewrite !Ho.
Qed.

Lemma del_set_same : forall k v d,
  Dict.del k (Dict.set k v d) = Dict.del k d.
Proof.
  intros k v d. induction d as [|[k' v'] d IH]; simpl.
  - now rewrite eqb_refl.
  - destruct (PyStr.eqb k k') eqn:E; simpl; rewrite ?eqb_refl, ?E; simpl;
      [reflexivity | now f_equal].
Qed.

Lemma del_set_other : forall k k' v d,
  k <> k' -> Dict.del k (Dict.set k' v d) = Dict.set k' v (Dict.del k d).
Proof.
  intros k k' v d Hne. apply eqb_neq in Hne.
  induction d as [|[k0 v0] d IH]; simpl.
  - now rewrite Hne.
  - destruct (PyStr.eqb k' k0) eqn:E; simpl.
    + apply eqb_eq in E. subst k0. rewrite Hne. simpl.
      now rewrite eqb_refl.
    + destruct (PyStr.eqb k k0) eqn:E0; simpl.
      * exact IH.
      * rewrite E. now f_equal.
Qed.

(** The formatting pass undoes the dispatcher's merge: from the data of an
    artifact it removes the two metadata blocks and leaves the decoded
    object, less any entry that had a reserved key. *)
Theorem strip_undoes_merge :
  forall video_file c text metadata caption output_path output_data,
    normalize (c :: text) = Ok (JObj caption) ->
    handle_result video_file (Ok (Some (c :: text, metadata)))
    = Written output_path output_data ->
    Maintenance.remove_keys Maintenance.keys_to_remove output_data
    = Ok (JObj (Dict.del file_key (Dict.del usage_key caption))).
Proof.
  intros video_file c text metadata caption output_path output_data Hn Hh.
  unfold handle_result in Hh. rewrite Hn in Hh. injection Hh as _ <-.
  rewrite remove_keys_object. do 2 f_equal.
  unfold Dict.merge. simpl fold_left.
  rewrite (del_set_other usage_key file_key) by discriminate.
  now rewrite !del_set_same.
Qed.

End EmbeddedObject.

Lemma caption_data_ignores_prose_witness :
  Normalizer.caption_data (L := MiniJson.lib)
    (jlit "Here it is: {'caption': 'snow'} Hope this helps.")
  = Ok (JObj [(lit "caption", JStr (lit "snow"))]).
Proof.
  exact (@caption_data_ignores_prose MiniJson.lib
           (lit "Here it is: ") (jlit "'caption': 'snow'")
           (lit " Hope this helps.")
           ltac:(vm_compute; intuition discriminate)
           ltac:(vm_compute; intuition discriminate)).
Defined.

Lemma artifact_reserved_keys_witness :
  exists output_data,
    Worker.handle_result (L := MiniJson.lib) (lit "a.mp4")
      (Ok (Some (jlit "{'usage_metadata': 7, 'caption': 'snow'}",
                 [(Worker.usage_key, JObj [(lit "total_tokens", JInt 9)])])))
    = Worker.Written (lit "a.json") (JObj output_data) /\
    Dict.get Worker.usage_key output_data
    = Some (JObj [(lit "total_tokens", JInt 9)]).
Proof.
  destruct (@artifact_reserved_keys MiniJson.lib (lit "a.mp4")
              123%N (List.tl (jlit "{'usage_metadata': 7, 'caption': 'snow'}"))
              [(Worker.usage_key, JObj [(lit "total_tokens", JInt 9)])]
              [(Worker.usage_key, JInt 7); (lit "caption", JStr (lit "snow"))]
              eq_refl) as [out [H1 [H2 _]]].
  exists out. split; [exact H1 | exact H2].
Defined.

Lemma strip_undoes_merge_witness :
  Maintenance.remove_keys Maintenance.keys_to_remove
    (JObj [(Worker.usage_key, JObj []); (lit "caption", JStr (lit "snow"));
           (Worker.file_key, JObj [])])
  = Ok (JObj [(lit "caption", JStr (lit "snow"))]).
Proof.
  exact (@strip_undoes_merge MiniJson.lib (lit "a.mp4") 123%N
           (List.tl (jlit "{'usage_metadata': 7, 'caption': 'snow'}")) []
           [(Worker.usage_key, JInt 7); (lit "caption", JStr (lit "snow"))]
           (lit "a.json")
           (JObj [(Worker.usage_key, JObj []);
                  (lit "caption", JStr (lit "snow"));
                  (Worker.file_key, JObj [])])
           eq_refl eq_refl).
Defined.

(** ** Pricing of the other models, and monotonicity of the tiered cost *)

Section CostMore.

Context {L : PyLib}.

Import Cost.

(** A model outside the tiered family is priced by a row of the table, with
    that row's key as label: the first key, in table order, that its
    lower-cased identifier contains, and the row of [qwen-vl-plus] when it
    contains none.  The zero prices of a failed lookup are never used. *)
Theorem flat_pricing_row :
  forall model input_tokens output_tokens,
    contains tiered_name (str_lower model) = false ->
    exists before key prices after,
      pricing = before ++ (key, prices) :: after /\
      calculate_cost input_tokens output_tokens model
      = priced prices input_tokens output_tokens key /\
      ((contains key (str_lower model) = true /\
        forall k p, In (k, p) before -> contains k (str_lower model) = false)
       \/
       (key = lit "qwen-vl-plus" /\
        forall k p, In (k, p) pricing -> contains k (str_lower model) = false)).
Proof.
  intros model it ot Ht. unfold calculate_cost. rewrite Ht.
  set (lowered := str_lower model).
  destruct (contains (lit "qwen-vl-max") lowered) eqn:E1.
  { exists [], (lit "qwen-vl-max"), (2.8, 8.4)%Q, (List.tl pricing).
    split; [reflexivity|]. split.
    - unfold pricing. simpl map. unfold first_key. fold lowered.
      rewrite E1. reflexivity.
    - left. split; [assumption | intros k p []]. }
  destruct (contains (lit "qwen-vl-plus") lowered) eqn:E2.
  { exists (firstn 1 pricing), (lit "qwen-vl-plus"), (1.12, 2.8)%Q,
      (skipn 2 pricing).
    split; [reflexivity|]. split.
    - unfold pricing. simpl map. unfold first_key. fold lowered.
      rewrite E1, E2. reflexivity.
    - left. split; [assumption|].
      intros k p [H|[]]. injection H as <- _. assumption. }
  destruct (contains (lit "qwen3-vl-plus") lowered) eqn:E3.
  { exists (firstn 2 pricing), (lit "qwen3-vl-plus"), (1.12, 2.8)%Q,
      (skipn 3 pricing).
    split; [reflexivity|]. split.
    - unfold pricing. simpl map. unfold first_key. fold lowered.
      rewrite E1, E2, E3. reflexivity.
    - left. split; [assumption|].
      intros k p [H|[H|[]]]; injection H as <- _; assumption. }
  destruct (contains (lit "qwen-vl-turbo") lowered) eqn:E4.
  { exists (firstn 3 pricing), (lit "qwen-vl-turbo"), (0.28, 0.84)%Q, [].
    split; [reflexivity|]. split.
    - unfold pricing. simpl map. unfold first_key. fold lowered.
      rewrite E1, E2, E3, E4. reflexivity.
    - left. split; [assumption|].
      intros k p [H|[H|[H|[]]]]; injection H as <- _; assumption. }
  exists (firstn 1 pricing), (lit "qwen-vl-plus"), (1.12, 2.8)%Q,
    (skipn 2 pricing).
  split; [reflexivity|]. split.
  - unfold pricing. simpl map. unfold first_key. fold lowered.
    rewrite E1, E2, E3, E4. reflexivity.
  - right. split; [reflexivity|].
    intros k p [H|[H|[H|[H|[]]]]]; injection H as <- _; assumption.
Qed.

Local Open Scope Q_scope.

Lemma per_million_monotone : forall n1 n2 p1 p2,
  (0 <= n1 <= n2)%Z -> 0 <= p1 -> p1 <= p2 ->
  per_million n1 p1 <= per_million n2 p2.
Proof.
  intros n1 n2 p1 p2 [H0 Hn] Hp0 Hp. unfold per_million.
  assert (Q0 : 0 <= inject_Z n1) by (rewrite Zle_Qle in H0; exact H0).
  assert (Q1 : inject_Z n1 <= inject_Z n2)
    by (rewrite Zle_Qle in Hn; exact Hn).
  assert (Hc : 0 <= / 1000000) by (unfold Qle; simpl; lia).
  apply Qmult_le_compat_nonneg.
  - unfold Qdiv. split.
    + now apply Qmult_le_0_compat.
    + now apply Qmult_le_compat_r.
  - split; assumption.
Qed.

Lemma tier_prices_monotone : forall n1 n2,
  (n1 <= n2)%Z ->
  0 <= fst (tier_prices n1) /\ fst (tier_prices n1) <= fst (tier_prices n2) /\
  0 <= snd (tier_prices n1) /\ snd (tier_prices n1) <= snd (tier_prices n2).
Proof.
  intros n1 n2 H. unfold tier_prices.
  destruct (Z.leb_spec n1 32000); destruct (Z.leb_spec n2 32000);
    destruct (Z.leb_spec n1 128000); destruct (Z.leb_spec n2 128000);
    try lia; simpl; repeat split; lra.
Qed.

(** For the tiered model the estimated total never goes down when the
    token counts go up, rounding being monotone: the price per token only
    rises from one bracket to the next. *)
Theorem tiered_cost_monotone :
  forall model input1 output1 input2 output2,
    (forall x y, x <= y -> round6 x <= round6 y) ->
    contains tiered_name (str_lower model) = true ->
    (0 <= input1 <= input2)%Z ->
    (0 <= output1 <= output2)%Z ->
    total_cost_usd (calculate_cost input1 output1 model)
    <= total_cost_usd (calculate_cost input2 output2 model).
Proof.
  intros model i1 o1 i2 o2 Hround Hm Hi Ho.
  unfold calculate_cost. rewrite Hm. simpl. apply Hround.
  destruct (tier_prices_monotone i1 i2 (proj2 Hi)) as [A [B [C D]]].
  apply Qplus_le_compat; now apply per_million_monotone.
Qed.

End CostMore.

Lemma round6_exact_monotone : forall x y : Q,
  (x <= y)%Q -> (MiniJson.round6_exact x <= MiniJson.round6_exact y)%Q.
Proof.
  intros x y Hxy. unfold MiniJson.round6_exact.
  set (a := (x * 1000000)%Q). set (b := (y * 1000000)%Q).
  assert (Hab : (a <= b)%Q) by (unfold a, b; lra).
  pose proof (Qfloor_resp_le a b Hab) as Hf.
  pose proof (Qfloor_le a) as Ha1. pose proof (Qlt_floor a) as Ha2.
  pose proof (Qfloor_le b) as Hb1. pose proof (Qlt_floor b) as Hb2.
  set (fa := Qfloor a) in *. set (fb := Qfloor b) in *.
  assert (G : forall n m : Z, (n <= m)%Z -> (n # 1000000 <= m # 1000000)%Q).
  { intros n m H. unfold Qle. simpl. lia. }
  apply G.
  destruct (Z.eq_dec fa fb) as [E|E].
  - rewrite <- E in *.
    destruct (Qle_bool (a - inject_Z fa) (1 # 2)) eqn:A1;
      destruct (Qle_bool (1 # 2) (a - inject_Z fa)) eqn:A2;
      destruct (Qle_bool (b - inject_Z fa) (1 # 2)) eqn:B1;
      destruct (Qle_bool (1 # 2) (b - inject_Z fa)) eqn:B2;
      try (destruct (Z.even fa)); try lia; exfalso;
      repeat match goal with
             | K : Qle_bool _ _ = true |- _ => apply Qle_bool_iff in K
             | K : Qle_bool ?u ?v = false |- _ =>
                 assert (~ (u <= v)%Q)
                   by (intros K'; apply Qle_bool_iff in K'; congruence);
                 clear K
             end; lra.
  - assert (Hlt : (fa + 1 <= fb)%Z) by lia.
    destruct (Qle_bool (a - inject_Z fa) (1 # 2));
      destruct (Qle_bool (1 # 2) (a - inject_Z fa));
      destruct (Qle_bool (b - inject_Z fb) (1 # 2));
      destruct (Qle_bool (1 # 2) (b - inject_Z fb));
      try (destruct (Z.even fa)); try (destruct (Z.even fb)); lia.
Qed.

Lemma flat_pricing_row_witness :
  Cost.calculate_cost (L := MiniJson.lib) 1000 50 (lit "Qwen-VL-Max-0809")
  = Cost.priced (L := MiniJson.lib) (2.8, 8.4)%Q 1000 50 (lit "qwen-vl-max").
Proof.
  destruct (@flat_pricing_row MiniJson.lib (lit "Qwen-VL-Max-0809") 1000 50
              eq_refl) as [before [key [prices [after [Hp [Hc Hk]]]]]].
  rewrite Hc. destruct Hk as [[Hk Hb]|[-> Hn]].
  - destruct before as [|[k0 p0] before].
    + injection Hp as <- <- _. reflexivity.
    + exfalso. injection Hp as Hk0 _ _.
      assert (In (k0, p0) ((k0, p0) :: before)) as Hin by (now left).
      specialize (Hb _ _ Hin). rewrite <- Hk0 in Hb. vm_compute in Hb.
      discriminate Hb.
  - exfalso. specialize (Hn (lit "qwen-vl-max") (2.8, 8.4)%Q (or_introl eq_refl)).
    vm_compute in Hn. discriminate Hn.
Defined.

Lemma tiered_cost_monotone_witness :
  (Cost.total_cost_usd
     (Cost.calculate_cost (L := MiniJson.lib) 32000 500 (lit "qwen3-vl-flash"))
   <= Cost.total_cost_usd
        (Cost.calculate_cost (L := MiniJson.lib) 32001 500
           (lit "qwen3-vl-flash")))%Q.
Proof.
  exact (@tiered_cost_monotone MiniJson.lib (lit "qwen3-vl-flash")
           32000 500 32001 500 round6_exact_monotone eq_refl
           ltac:(lia) ltac:(lia)).
Defined.

(** ** One request: what comes back *)

Section RequestMore.

Context {L : PyLib}.

Import Worker Response.

Lemma has_get : forall k d, Dict.has k d = false <-> Dict.get k d = None.
Proof.
  intros k d. induction d as [|[k' v] d IH]; simpl; [tauto|].
  destruct (PyStr.eqb k k'); simpl; [split; discriminate | exact IH].
Qed.

Lemma join_text_strings : forall parts acc,
  forallb text_is_string parts = true ->
  join_text parts acc = Ok (acc ++ List.concat (map part_text parts)).
Proof.
  induction parts as [|item parts IH]; intros acc H; simpl.
  - now rewrite app_nil_r.
  - simpl in H. apply andb_true_iff in H. destruct H as [Hi Hp].
    unfold text_is_string in Hi. unfold part_text.
    destruct (Dict.has text_key item) eqn:Eh.
    + destruct (Dict.get text_key item) as [[]|] eqn:Eg; try discriminate.
      * rewrite IH by assumption. now rewrite app_assoc.
      * apply has_get in Eg. congruence.
    + apply has_get in Eh. rewrite Eh. simpl. now apply IH.
Qed.

Lemma join_text_not_string : forall parts acc,
  forallb text_is_string parts = false ->
  join_text parts acc = Raise TypeError.
Proof.
  induction parts as [|item parts IH]; intros acc H; simpl; [discriminate|].
  simpl in H. unfold text_is_string in H.
  destruct (Dict.has text_key item) eqn:Eh.
  - destruct (Dict.get text_key item) as [[]|] eqn:Eg; try reflexivity.
    now apply IH.
  - apply has_get in Eh. rewrite Eh in H. simpl in H. now apply IH.
Qed.

(** A response in parts yields the texts of its parts joined in order, parts
    without text skipped; one part whose text is not a string and the whole
    extraction raises, so that the request yields nothing. *)
Theorem extract_text_joins_parts :
  forall (r : response) parts,
    message_content r = Some (CParts parts) ->
    (forallb text_is_string parts = true ->
     extract_text r = Ok (List.concat (map part_text parts))) /\
    (forallb text_is_string parts = false ->
     extract_text r = Raise TypeError /\
     forall model env, api_call env = Ok r -> process_video model env = None).
Proof.
  intros r parts Hc. unfold extract_text. rewrite Hc. split; intros H.
  - now rewrite join_text_strings.
  - rewrite join_text_not_string by assumption. split; [reflexivity|].
    intros model env Ha. unfold process_video, extract_text.
    rewrite Ha, Hc, join_text_not_string by assumption.
    now destruct (negb _).
Qed.

(** The request yields nothing exactly when the exchange raised, the status
    is not 200, the text could not be extracted, or the file data could not
    be read. *)
Theorem process_video_none_iff :
  forall model env,
    process_video model env = None <->
    (exists e, api_call env = Raise e) \/
    (exists r, api_call env = Ok r /\
               (status_code r <> 200%Z \/
                (exists e, extract_text r = Raise e) \/
                (exists e, file_metadata env = Raise e))).
Proof.
  intros model env. unfold process_video.
  destruct (api_call env) as [r|e] eqn:Ea.
  - destruct (Z.eqb_spec (status_code r) 200) as [Hs|Hs]; simpl.
    + destruct (extract_text r) as [text|e] eqn:Ee.
      * destruct (file_metadata env) as [fm|e] eqn:Ef.
        -- split; [destruct (usage r) as [[i o]|]; discriminate|].
           intros [[e' H]|[r' [H [H1|[[e' H1]|[e' H1]]]]]];
             try discriminate; injection H as <-; congruence.
        -- split; [|destruct (usage r) as [[i o]|]; reflexivity].
           intros _. right. exists r. split; eauto.
      * split; [|reflexivity]. intros _. right. exists r. split; eauto.
    + split; [|reflexivity]. intros _. right. exists r. split; eauto.
  - split; [|reflexivity]. intros _. left. eauto.
Qed.

(** Whenever the request yields a result, its metadata has both blocks, so
    the main loop never falls back to an empty block, and the usage block
    holds the two token counts and their sum. *)
Theorem process_video_metadata :
  forall model env text metadata,
    process_video model env = Some (text, metadata) ->
    exists usage_block file_block input_tokens output_tokens,
      get_or_empty usage_key metadata = JObj usage_block /\
      Dict.get usage_key metadata = Some (JObj usage_block) /\
      Dict.get file_key metadata = Some (JObj file_block) /\
      file_metadata env = Ok file_block /\
      Dict.get (lit "prompt_tokens") usage_block = Some (JInt input_tokens) /\
      Dict.get (lit "completion_tokens") usage_block
      = Some (JInt output_tokens) /\
      Dict.get (lit "total_tokens") usage_block
      = Some (JInt (input_tokens + output_tokens)).
Proof.
  intros model env text metadata. unfold process_video.
  destruct (api_call env) as [r|e]; [|discriminate].
  destruct (negb _); [discriminate|].
  destruct (extract_text r) as [t|e]; [|discriminate].
  destruct (usage r) as [[i o]|];
    destruct (file_metadata env) as [fm|e]; try discriminate;
    intros [= <- <-].
  - exists (usage_metadata i o model), fm, i, o. repeat split.
  - exists (usage_metadata 0 0 model), fm, 0%Z, 0%Z. repeat split.
Qed.

End RequestMore.

Lemma extract_text_joins_parts_witness :
  Worker.extract_text
    {| Worker.status_code := 200;
       Worker.message_content :=
         Some (Worker.CParts [ [(lit "text", JStr (lit "sn"))];
                               [(lit "image", JStr (lit "x"))];
                               [(lit "text", JStr (lit "ow"))] ]);
       Worker.usage := None |}
  = Ok (lit "snow").
Proof.
  exact (proj1 (@extract_text_joins_parts MiniJson.lib
                  {| Worker.status_code := 200;
                     Worker.message_content :=
                       Some (Worker.CParts
                               [ [(lit "text", JStr (lit "sn"))];
                                 [(lit "image", JStr (lit "x"))];
                                 [(lit "text", JStr (lit "ow"))] ]);
                     Worker.usage := None |}
                  [ [(lit "text", JStr (lit "sn"))];
                    [(lit "image", JStr (lit "x"))];
                    [(lit "text", JStr (lit "ow"))] ] eq_refl) eq_refl).
Defined.

Lemma process_video_none_iff_witness :
  Worker.process_video (L := MiniJson.lib) (lit "qwen-vl-plus")
    {| Worker.api_call :=
         Ok {| Worker.status_code := 429;
               Worker.message_content := Some (Worker.CText (lit "{}"));
               Worker.usage := None |};
       Worker.file_metadata := Ok [] |}
  = None.
Proof.
  apply (proj2 (@process_video_none_iff MiniJson.lib _ _)).
  right. eexists. split; [reflexivity|]. left. discriminate.
Defined.

Lemma process_video_metadata_witness :
  exists usage_block,
    Dict.get Worker.usage_key
      (snd (match Worker.process_video (L := MiniJson.lib) (lit "qwen-vl-plus")
                    (Scenario.answering Scenario.a_mp4) with
            | Some r => r
            | None => ([], [])
            end)) = Some (JObj usage_block) /\
    Dict.get (lit "total_tokens") usage_block = Some (JInt 1280).
Proof.
  destruct (@process_video_metadata MiniJson.lib (lit "qwen-vl-plus")
              (Scenario.answering Scenario.a_mp4) _ _ eq_refl)
    as [u [f [i [o [_ [H1 [_ [_ [H2 [H3 H4]]]]]]]]]].
  exists u. split; [exact H1|].
  vm_compute in H1. injection H1 as <-. reflexivity.
Defined.

(** ** The lock and the window along a run *)

Section WindowMore.

Context {L : PyLib}.

Import Pool.

Local Open Scope Q_scope.

(** Along every run at most one pool thread is inside a [with rpm_lock]
    block, that thread holds the lock, and a step changes the window only
    when it is taken by the thread that holds the lock. *)
Theorem lock_is_exclusive :
  forall cfg sched video_files out0 start s,
    run cfg sched (init video_files out0 start) = Some s ->
    (forall w1 w2,
        in_lock (workers s w1) = true -> in_lock (workers s w2) = true ->
        w1 = w2 /\ rpm_lock s = Some w1) /\
    (forall e s',
        step cfg e s = Some s' ->
        request_timestamps s' <> request_timestamps s ->
        exists w, who e = Pool w /\ rpm_lock s = Some w).
Proof.
  intros cfg sched video_files out0 start s Hrun.
  pose proof (run_lock _ _ _ _ _ _ Hrun) as Hinv. split.
  - intros w1 w2 H1 H2. apply Hinv in H1. apply Hinv in H2.
    split; [congruence | assumption].
  - intros e s' Hs Hne.
    destruct (window_changes_under_lock _ _ _ _ Hinv Hs Hne)
      as [w [H1 [H2 _]]]. eauto.
Qed.

Lemma sorted_snoc : forall ts t,
  StronglySorted Qle ts -> Forall (fun x => x <= t) ts ->
  StronglySorted Qle (ts ++ [t]).
Proof.
  induction ts as [|x ts IH]; intros t Hs Hf; simpl.
  - repeat constructor.
  - inversion Hs as [|? ? Hs' Hx]; subst. inversion Hf as [|? ? Hxt Hf'];
      subst. constructor; [now apply IH|].
    apply Forall_app. split; [assumption | now repeat constructor].
Qed.

Lemma forall_le_trans : forall ts a b,
  a <= b -> Forall (fun t => t <= a) ts -> Forall (fun t => t <= b) ts.
Proof.
  intros ts a b Hab H. eapply Forall_impl; [|exact H].
  intros t Ht. simpl in Ht. lra.
Qed.

Lemma step_window_in_order : forall cfg e s s',
  window_in_order s -> step cfg e s = Some s' -> window_in_order s'.
Proof.
  intros cfg e s s' [Hs Hf] Hst. apply step_cases in Hst.
  destruct Hst as [Hclk [[w [_ [_ Hw]]] | [_ Hm]]];
    apply Qle_bool_iff in Hclk;
    pose proof (forall_le_trans _ _ _ Hclk Hf) as Hf'.
  - unfold worker_step, leave_check in Hw. simpl in Hw.
    split_step Hw; unfold window_in_order; simpl;
      repeat match goal with
             | K : request_timestamps s = _ |- _ => rewrite K in *; clear K
             end;
      try (split; assumption);
      try (inversion Hs; subst; inversion Hf'; subst; split; assumption);
      try (split;
           [now apply sorted_snoc
           | apply Forall_app; split;
             [assumption | repeat constructor; apply Qle_refl]]).
  - unfold main_step in Hm. simpl in Hm.
    split_step Hm; unfold window_in_order; simpl; split; assumption.
Qed.

Lemma run_window_in_order : forall cfg sched video_files out0 start s,
  run cfg sched (init video_files out0 start) = Some s -> window_in_order s.
Proof.
  intros cfg sched video_files out0 start s H.
  apply (run_invariant cfg window_in_order) with (sched := sched)
    (s0 := init video_files out0 start); [| |exact H].
  - intros e s1 s2. apply step_window_in_order.
  - split; constructor.
Qed.

(** Along every run the window stays in chronological order and holds no
    timestamp later than the clock. *)
Theorem window_stays_in_order :
  forall cfg sched video_files out0 start s,
    run cfg sched (init video_files out0 start) = Some s ->
    StronglySorted Qle (request_timestamps s) /\
    Forall (fun t => t <= clock s) (request_timestamps s).
Proof.
  intros cfg sched video_files out0 start s H.
  exact (run_window_in_order _ _ _ _ _ _ H).
Qed.

Lemma evict_sorted : forall current_time ts,
  StronglySorted Qle ts ->
  Forall (fun t => current_time - t <= 60) (evict current_time ts).
Proof.
  intros ct. induction ts as [|t ts IH]; intros Hs; simpl; [constructor|].
  inversion Hs as [|? ? Hs' Ht]; subst.
  unfold Qlt_bool. destruct (Qle_bool (ct - t) 60) eqn:E; simpl.
  - apply Qle_bool_iff in E. constructor; [assumption|].
    eapply Forall_impl; [|exact Ht]. intros x Hx. simpl in Hx. lra.
  - now apply IH.
Qed.

(** Because the window is in order, the eviction from the front is
    complete: at any point of a run, evicting at [current_time] keeps
    exactly the timestamps that are at most 60 seconds old. *)
Theorem eviction_is_complete :
  forall cfg sched video_files out0 start s current_time,
    run cfg sched (init video_files out0 start) = Some s ->
    forall t,
      In t (evict current_time (request_timestamps s)) <->
      In t (request_timestamps s) /\ current_time - t <= 60.
Proof.
  intros cfg sched video_files out0 start s ct Hrun t.
  destruct (run_window_in_order _ _ _ _ _ _ Hrun) as [Hs _].
  destruct (evict_spec ct (request_timestamps s)) as [old [H1 [H2 _]]].
  pose proof (evict_sorted ct _ Hs) as H3.
  rewrite Forall_forall in H2, H3. split.
  - intros Hin. split; [|now apply H3].
    rewrite H1. apply in_or_app. now right.
  - intros [Hin Ht]. rewrite H1 in Hin. apply in_app_or in Hin.
    destruct Hin as [Hin|Hin]; [|assumption].
    specialize (H2 _ Hin). simpl in H2. lra.
Qed.

End WindowMore.

Lemma lock_is_exclusive_witness :
  exists s,
    run (L := MiniJson.lib) (Scenario.cfg 1 0.5 2) Scenario.waiting_run
      (init [Scenario.a_mp4; Scenario.b_mp4; Scenario.c_mp4] [] 0) = Some s /\
    forall w, in_lock (workers s w) = true -> 0%nat = w.
Proof.
  destruct (run (L := MiniJson.lib) (Scenario.cfg 1 0.5 2)
              Scenario.waiting_run
              (init [Scenario.a_mp4; Scenario.b_mp4; Scenario.c_mp4] [] 0))
    as [s|] eqn:E; [|vm_compute in E; discriminate E].
  exists s. split; [reflexivity|].
  pose proof (proj1 (@lock_is_exclusive MiniJson.lib _ _ _ _ _ s E)) as H.
  intros w Hw. apply (H 0%nat w); [|exact Hw].
  vm_compute in E. injection E as <-. reflexivity.
Defined.

Lemma window_stays_in_order_witness :
  exists s,
    run (L := MiniJson.lib) (Scenario.cfg 1 0.5 2) Scenario.waiting_run
      (init [Scenario.a_mp4; Scenario.b_mp4; Scenario.c_mp4] [] 0) = Some s /\
    StronglySorted Qle (request_timestamps s).
Proof.
  destruct (run (L := MiniJson.lib) (Scenario.cfg 1 0.5 2)
              Scenario.waiting_run
              (init [Scenario.a_mp4; Scenario.b_mp4; Scenario.c_mp4] [] 0))
    as [s|] eqn:E; [|vm_compute in E; discriminate E].
  exists s. split; [reflexivity|].
  exact (proj1 (@window_stays_in_order MiniJson.lib _ _ _ _ _ s E)).
Defined.

Lemma eviction_is_complete_witness :
  exists s,
    run (L := MiniJson.lib) (Scenario.cfg 1 0.5 2) Scenario.waiting_run
      (init [Scenario.a_mp4; Scenario.b_mp4; Scenario.c_mp4] [] 0) = Some s /\
    (In 60%Q (evict 61 (request_timestamps s)) <->
     In 60%Q (request_timestamps s) /\ (61 - 60 <= 60)%Q).
Proof.
  destruct (run (L := MiniJson.lib) (Scenario.cfg 1 0.5 2)
              Scenario.waiting_run
              (init [Scenario.a_mp4; Scenario.b_mp4; Scenario.c_mp4] [] 0))
    as [s|] eqn:E; [|vm_compute in E; discriminate E].
  exists s. split; [reflexivity|].
  exact (@eviction_is_complete MiniJson.lib _ _ _ _ _ s 61%Q E 60%Q).
Defined.

(** ** How long a thread waits for admission *)

Section WaitMore.

Context {L : PyLib}.

Import Pool.

Local Open Scope Q_scope.

Lemma step_read_is_latest : forall cfg e s s',
  window_in_order s -> lock_held_inside s -> read_is_latest s ->
  step cfg e s = Some s' -> read_is_latest s'.
Proof.
  intros cfg e s s' [Hs Hf] Hlock Hread Hst. apply step_cases in Hst.
  destruct Hst as [Hclk [[w [_ [_ Hw]]] | [_ Hm]]];
    apply Qle_bool_iff in Hclk;
    pose proof (forall_le_trans _ _ _ Hclk Hf) as Hf'.
  - unfold worker_step, leave_check in Hw. simpl in Hw.
    split_step Hw; intros w0 item0 ct0 Hpc; simpl in *; unfold upd in Hpc;
      try (destruct (Nat.eqb_spec w0 w) as [->|Hne];
           [try discriminate Hpc | ]);
      try (exact (Hread _ _ _ Hpc));
      try (injection Hpc as <- <-; exact Hf').
    + (* a pop by the thread itself *)
      pose proof (Hread _ _ _ Hpc) as H.
      match goal with
      | K : request_timestamps s = _ |- _ => rewrite K in H
      end.
      now inversion H.
    + (* a pop seen by another thread *)
      pose proof (Hread _ _ _ Hpc) as H.
      match goal with
      | K : request_timestamps s = _ |- _ => rewrite K in H
      end.
      now inversion H.
    + (* an append while another thread would be in the first block *)
      exfalso.
      assert (H1 : in_lock (workers s w0) = true) by (now rewrite Hpc).
      assert (H2 : in_lock (workers s w) = true).
      { match goal with
        | K : workers s w = _ |- _ => now rewrite K
        end. }
      apply Hlock in H1. apply Hlock in H2. congruence.
  - unfold main_step in Hm. simpl in Hm.
    split_step Hm; intros w0 item0 ct0 Hpc; simpl in *;
      exact (Hread _ _ _ Hpc).
Qed.

Lemma py_max_zero_bounds : forall x,
  x <= 60 -> 0 <= py_max 0 x /\ py_max 0 x <= 60.
Proof.
  intros x Hx. unfold py_max, Qlt_bool.
  destruct (Qle_bool x 0) eqn:E; simpl.
  - split; lra.
  - assert (~ x <= 0) by (intros K; apply Qle_bool_iff in K; congruence).
    split; lra.
Qed.

Lemma py_max_zero_r : forall x, 0 <= x -> py_max x 0 <= x.
Proof.
  intros x Hx. unfold py_max, Qlt_bool.
  destruct (Qle_bool 0 x) eqn:E; simpl; [lra|].
  exfalso. apply Qle_bool_iff in Hx. congruence.
Qed.

Lemma step_waits_bounded : forall cfg e s s',
  read_is_latest s -> waits_bounded s ->
  step cfg e s = Some s' -> waits_bounded s'.
Proof.
  intros cfg e s s' Hread [Hwait Hsleep] Hst. apply step_cases in Hst.
  destruct Hst as [Hclk [[w [_ [_ Hw]]] | [_ Hm]]];
    apply Qle_bool_iff in Hclk.
  - assert (Hsleep' : forall w0 item until,
               workers s w0 = WSleep item until -> until <= now e + 60).
    { intros w0 item until K. specialize (Hsleep _ _ _ K). lra. }
    unfold worker_step, leave_check in Hw. simpl in Hw.
    split_step Hw; split; intros w0 item0 x Hpc; simpl in *;
      unfold upd in Hpc;
      try (destruct (Nat.eqb_spec w0 w) as [->|Hne];
           [try discriminate Hpc | ]);
      try (exact (Hwait _ _ _ Hpc));
      try (exact (Hsleep' _ _ _ Hpc));
      try (injection Hpc as _ <-; split; lra).
    + (* the wait computed from the oldest timestamp left *)
      injection Hpc as _ <-.
      match goal with
      | K : workers s w = WEvict _ ?ct |- _ =>
          pose proof (Hread _ _ _ K) as H
      end.
      match goal with
      | K : request_timestamps s = _ |- _ => rewrite K in H
      end.
      inversion H as [|? ? Hq _]; subst. apply py_max_zero_bounds. lra.
    + (* going to sleep for the wait *)
      injection Hpc as _ <-.
      match goal with
      | K : workers s w = WWait _ ?wt |- _ =>
          destruct (Hwait _ _ _ K) as [H0 H60];
          pose proof (py_max_zero_r wt H0)
      end.
      lra.
  - assert (Hsleep' : forall w0 item until,
               workers s w0 = WSleep item until -> until <= now e + 60).
    { intros w0 item until K. specialize (Hsleep _ _ _ K). lra. }
    unfold main_step in Hm. simpl in Hm.
    split_step Hm; split; intros w0 item0 x Hpc; simpl in *;
      try (exact (Hwait _ _ _ Hpc)); exact (Hsleep' _ _ _ Hpc).
Qed.

(** Along every run a thread waits between 0 and 60 seconds for admission:
    the wait computed in the first block is never negative and never more
    than 60, and a sleeping thread is to wake within 60 seconds. *)
Theorem admission_wait_bounded :
  forall cfg sched video_files out0 start s,
    run cfg sched (init video_files out0 start) = Some s ->
    (forall w item wait_time_rpm,
        workers s w = WWait item wait_time_rpm ->
        0 <= wait_time_rpm /\ wait_time_rpm <= 60) /\
    (forall w item until,
        workers s w = WSleep item until -> until <= clock s + 60).
Proof.
  intros cfg sched video_files out0 start s H.
  assert (G : window_in_order s /\ lock_held_inside s /\
              read_is_latest s /\ waits_bounded s).
  { apply (run_invariant cfg
             (fun s => window_in_order s /\ lock_held_inside s /\
                       read_is_latest s /\ waits_bounded s))
      with (sched := sched) (s0 := init video_files out0 start);
      [| |exact H].
    - intros e s1 s2 [H1 [H2 [H3 H4]]] Hs.
      split; [eapply step_window_in_order; eauto|].
      split; [eapply step_lock; eauto|].
      split; [eapply step_read_is_latest; eauto|].
      eapply step_waits_bounded; eauto.
    - split; [split; constructor|].
      split; [intros w; simpl; split; discriminate|].
      split; [intros w item ct K; discriminate K|].
      split; intros w item x K; discriminate K. }
  destruct G as [_ [_ [_ G]]]. exact G.
Qed.

End WaitMore.

Lemma admission_wait_bounded_witness :
  exists s,
    run (L := MiniJson.lib) (Scenario.cfg 1 0.5 2)
      (firstn 11 Scenario.waiting_run)
      (init [Scenario.a_mp4; Scenario.b_mp4; Scenario.c_mp4] [] 0) = Some s /\
    workers s 1%nat = WSleep Scenario.b_mp4 60 /\
    (60 <= clock s + 60)%Q.
Proof.
  destruct (run (L := MiniJson.lib) (Scenario.cfg 1 0.5 2)
              (firstn 11 Scenario.waiting_run)
              (init [Scenario.a_mp4; Scenario.b_mp4; Scenario.c_mp4] [] 0))
    as [s|] eqn:E; [|vm_compute in E; discriminate E].
  exists s. split; [reflexivity|].
  pose proof (proj2 (@admission_wait_bounded MiniJson.lib _ _ _ _ _ s E)
                1%nat Scenario.b_mp4 60%Q) as H.
  assert (Hpc : workers s 1%nat = WSleep Scenario.b_mp4 60).
  { vm_compute in E. injection E as <-. reflexivity. }
  split; [exact Hpc | exact (H Hpc)].
Defined.

(** ** No item is lost or dealt with twice *)

Section ConservationMore.

Context {L : PyLib}.

Import Pool.

Lemma flat_map_agree : forall (A B : Type) (f g : A -> list B) l,
  (forall x, In x l -> f x = g x) -> flat_map f l = flat_map g l.
Proof.
  induction l as [|x l IH]; intros H; simpl; [reflexivity|].
  rewrite (H x (or_introl eq_refl)), IH; [reflexivity|].
  intros y Hy. apply H. now right.
Qed.

Lemma flat_map_upd_from : forall (f : nat -> wpc) w p n a,
  (a <= w < a + n)%nat ->
  Permutation
    (flat_map (fun x => item_of (upd f w p x)) (seq a n) ++ item_of (f w))
    (item_of p ++ flat_map (fun x => item_of (f x)) (seq a n)).
Proof.
  intros f w p. induction n as [|n IH]; intros a Ha; [lia|].
  simpl seq. simpl flat_map. unfold upd at 1.
  destruct (Nat.eqb_spec a w) as [->|Hne].
  - assert (E : flat_map (fun x => item_of (upd f w p x)) (seq (S w) n)
                = flat_map (fun x => item_of (f x)) (seq (S w) n)).
    { apply flat_map_agree. intros x Hx. apply in_seq in Hx. unfold upd.
      destruct (Nat.eqb_spec x w); [lia | reflexivity]. }
    rewrite E, <- app_assoc. apply Permutation_app_head.
    apply Permutation_app_comm.
  - rewrite <- app_assoc.
    eapply Permutation_trans;
      [apply Permutation_app_head, (IH (S a)); lia|].
    rewrite !app_assoc. apply Permutation_app_tail.
    apply Permutation_app_comm.
Qed.

Lemma in_flight_stay : forall (f : nat -> wpc) w p n,
  (w < n)%nat -> item_of p = item_of (f w) ->
  Permutation (flat_map (fun x => item_of (upd f w p x)) (seq 0 n))
    (flat_map (fun x => item_of (f x)) (seq 0 n)).
Proof.
  intros f w p n Hw E.
  pose proof (flat_map_upd_from f w p n 0 ltac:(lia)) as H.
  rewrite E in H.
  apply Permutation_app_inv_r with (l := item_of (f w)).
  eapply Permutation_trans; [exact H|]. apply Permutation_app_comm.
Qed.

Lemma in_flight_take : forall (f : nat -> wpc) w p n item,
  (w < n)%nat -> item_of (f w) = [] -> item_of p = [item] ->
  Permutation (flat_map (fun x => item_of (upd f w p x)) (seq 0 n))
    (item :: flat_map (fun x => item_of (f x)) (seq 0 n)).
Proof.
  intros f w p n item Hw E1 E2.
  pose proof (flat_map_upd_from f w p n 0 ltac:(lia)) as H.
  now rewrite E1, E2, app_nil_r in H.
Qed.

Lemma in_flight_finish : forall (f : nat -> wpc) w p n item,
  (w < n)%nat -> item_of (f w) = [item] -> item_of p = [] ->
  Permutation (item :: flat_map (fun x => item_of (upd f w p x)) (seq 0 n))
    (flat_map (fun x => item_of (f x)) (seq 0 n)).
Proof.
  intros f w p n item Hw E1 E2.
  pose proof (flat_map_upd_from f w p n 0 ltac:(lia)) as H.
  rewrite E1, E2 in H. simpl in H.
  eapply Permutation_trans; [|exact H].
  apply Permutation_cons_append.
Qed.

Lemma acc_stay : forall (H F X' X q : list pystr),
  Permutation X' X -> Permutation (H ++ F ++ X' ++ q) (H ++ F ++ X ++ q).
Proof.
  intros. now apply Permutation_app_head, Permutation_app_head,
    Permutation_app_tail.
Qed.

Lemma acc_take : forall (H F X' X q : list pystr) item,
  Permutation X' (item :: X) ->
  Permutation (H ++ F ++ X' ++ q) (H ++ F ++ X ++ item :: q).
Proof.
  intros H F X' X q item P. do 2 apply Permutation_app_head.
  eapply Permutation_trans; [apply Permutation_app_tail, P|].
  simpl. apply Permutation_middle.
Qed.

Lemma acc_finish : forall (H F X' X q : list pystr) item,
  Permutation (item :: X') X ->
  Permutation (H ++ (F ++ [item]) ++ X' ++ q) (H ++ F ++ X ++ q).
Proof.
  intros H F X' X q item P. apply Permutation_app_head.
  rewrite <- app_assoc. apply Permutation_app_head. simpl.
  now apply (Permutation_app_tail q) in P.
Qed.

Lemma step_accounted : forall cfg e s s',
  step cfg e s = Some s' ->
  Permutation (accounted cfg s') (accounted cfg s).
Proof.
  intros cfg e s s' Hst. apply step_cases in Hst.
  destruct Hst as [_ [[w [_ [Hlt Hw]]] | [_ Hm]]].
  - unfold worker_step, leave_check in Hw. simpl in Hw.
    split_step Hw; unfold accounted, in_flight; simpl;
      rewrite ?map_app; simpl;
      repeat match goal with
             | K : work_queue s = _ |- _ => rewrite K; clear K
             end;
      first
        [ apply Permutation_refl
        | apply acc_stay, in_flight_stay; [exact Hlt|];
          match goal with
          | K : workers s w = _ |- _ => rewrite K; reflexivity
          end
        | apply acc_take, in_flight_take; [exact Hlt| |reflexivity];
          match goal with
          | K : workers s w = _ |- _ => rewrite K; reflexivity
          end
        | apply acc_finish, in_flight_finish; [exact Hlt| |reflexivity];
          match goal with
          | K : workers s w = _ |- _ => rewrite K; reflexivity
          end ].
  - unfold main_step in Hm. simpl in Hm.
    split_step Hm; unfold accounted, in_flight; simpl;
      [|apply Permutation_refl].
    match goal with
    | K : finished s = _ |- _ => rewrite K
    end.
    simpl. apply Permutation_middle.
Qed.

(** Along every run each submitted item is in exactly one place: dealt
    with by the main loop, completed and waiting for it, with a pool thread,
    or still queued.  So the main loop deals with no item that was not
    submitted and with none more often than it was submitted, and once the
    queue, the pool and the completed futures are empty it has dealt with
    every item. *)
Theorem items_conserved :
  forall cfg sched video_files out0 start s,
    run cfg sched (init video_files out0 start) = Some s ->
    Permutation (accounted cfg s) video_files /\
    (forall item, In item (handled_items (trace s)) -> In item video_files) /\
    (NoDup video_files -> NoDup (handled_items (trace s))) /\
    (work_queue s = [] -> in_flight (concurrency cfg) s = [] ->
     finished s = [] ->
     Permutation (handled_items (trace s)) video_files).
Proof.
  intros cfg sched video_files out0 start s H.
  assert (G : Permutation (accounted cfg s) video_files).
  { apply (run_invariant cfg
             (fun s => Permutation (accounted cfg s) video_files))
      with (sched := sched) (s0 := init video_files out0 start);
      [| |exact H].
    - intros e s1 s2 HP Hs.
      eapply Permutation_trans; [eapply step_accounted; eauto | exact HP].
    - unfold accounted, in_flight. simpl.
      assert (E : forall n a,
                 flat_map (fun _ : nat => item_of WIdle) (seq a n) = []).
      { induction n; intros a; simpl; auto. }
      now rewrite E. }
  split; [exact G|]. split; [|split].
  - intros item Hin. apply (Permutation_in item G).
    unfold accounted. apply in_or_app. now left.
  - intros Hnd. apply (Permutation_NoDup (Permutation_sym G)) in Hnd.
    unfold accounted in Hnd. now apply NoDup_app_remove_r in Hnd.
  - intros Hq Hf Hd. unfold accounted in G.
    now rewrite Hq, Hf, Hd, !app_nil_r in G.
Qed.

End ConservationMore.

Lemma items_conserved_witness :
  exists s,
    run (L := MiniJson.lib) (Scenario.cfg 60 0.5 1) Scenario.two_item_run
      (init [Scenario.a_mp4; Scenario.b_mp4] [] 0) = Some s /\
    Permutation (handled_items (trace s)) [Scenario.a_mp4; Scenario.b_mp4].
Proof.
  destruct (run (L := MiniJson.lib) (Scenario.cfg 60 0.5 1)
              Scenario.two_item_run
              (init [Scenario.a_mp4; Scenario.b_mp4] [] 0)) as [s|] eqn:E;
    [|vm_compute in E; discriminate E].
  exists s. split; [reflexivity|].
  pose proof (proj2 (proj2 (proj2
    (@items_conserved MiniJson.lib _ _ _ _ _ s E)))) as H.
  vm_compute in E. injection E as <-.
  apply H; reflexivity.
Defined.

(** ** The repair touches nothing but commas *)

Section RepairMore.

Import Maintenance.

Lemma closes_next_no_closer : forall s,
  (forall c, In c s -> is_closer c = false) -> closes_next s = false.
Proof.
  induction s as [|c s IH]; intros H; simpl; [reflexivity|].
  destruct (is_space c); [apply IH; intros; apply H; now right|].
  apply H. now left.
Qed.

(** [fix_json_content] only ever removes commas: the other characters stay,
    in order; the text does not grow; and a text without comma, or without
    closing brace and bracket, comes back as it is. *)
Theorem repair_only_removes_commas :
  forall content,
    filter (fun c => negb (N.eqb c comma)) (fix_json_content content)
    = filter (fun c => negb (N.eqb c comma)) content /\
    (List.length (fix_json_content content) <= List.length content)%nat /\
    (~ In comma content -> fix_json_content content = content) /\
    ((forall c, In c content -> is_closer c = false) ->
     fix_json_content content = content).
Proof.
  intros content. rewrite fix_json_content_spec.
  split; [|split; [|split]].
  - induction content as [|c s IH]; simpl; [reflexivity|].
    destruct (N.eqb c comma) eqn:E; simpl.
    + destruct (closes_next s); simpl; [exact IH|]. rewrite E. exact IH.
    + rewrite E. simpl. now f_equal.
  - induction content as [|c s IH]; simpl; [lia|].
    destruct (N.eqb c comma && closes_next s); simpl; lia.
  - induction content as [|c s IH]; intros H; simpl; [reflexivity|].
    destruct (N.eqb c comma) eqn:E.
    + apply N.eqb_eq in E. subst. exfalso. apply H. now left.
    + simpl. f_equal. apply IH. intros K. apply H. now right.
  - induction content as [|c s IH]; intros H; simpl; [reflexivity|].
    rewrite closes_next_no_closer by (intros; apply H; now right).
    rewrite andb_false_r. f_equal. apply IH. intros; apply H; now right.
Qed.

End RepairMore.

Lemma repair_only_removes_commas_witness :
  Maintenance.fix_json_content (jlit "'a', 'b', 'c'") = jlit "'a', 'b', 'c'".
Proof.
  apply (proj2 (proj2 (proj2
    (repair_only_removes_commas (jlit "'a', 'b', 'c'"))))).
  intros c H. vm_compute in H.
  repeat (destruct H as [<-|H]; [reflexivity|]). destruct H.
Defined.

(** ** Accounting of the formatting pass *)

Section FormatMore.

Context {L : PyLib}.

Import Worker Maintenance.

(** What one file adds to the counters, and that the listing stays. *)
Lemma format_one_counts : forall g st,
  Fs.listdir (f_captions (format_one g st)) = Fs.listdir (f_captions st) /\
  (processed_count (format_one g st) + error_count (format_one g st)
   = S (processed_count st + error_count st))%nat /\
  (fixed_count st <= fixed_count (format_one g st)
   <= S (fixed_count st))%nat.
Proof.
  intros g st.
  assert (Hs : forall data st',
             Fs.listdir (f_captions st') = Fs.listdir (f_captions st) ->
             In g (Fs.listdir (f_captions st)) ->
             Fs.listdir (f_captions (strip_and_write g data st'))
             = Fs.listdir (f_captions st) /\
             (processed_count (strip_and_write g data st')
              + error_count (strip_and_write g data st')
              = S (processed_count st' + error_count st'))%nat /\
             fixed_count (strip_and_write g data st') = fixed_count st').
  { intros data st' Hl Hin. unfold strip_and_write.
    destruct (remove_keys _ _) as [data'|]; simpl;
      [|split; [assumption | split; [lia | reflexivity]]].
    destruct (utf8_encodable _); simpl;
      (rewrite listdir_write_present by (now rewrite Hl));
      (split; [assumption | split; [lia | reflexivity]]). }
  unfold format_one.
  destruct (Fs.read g (f_captions st)) as [content|] eqn:Er;
    [|simpl; split; [reflexivity | split; lia]].
  apply read_some_listed in Er.
  destruct (json_loads content) as [data|[| |]];
    try (simpl; split; [reflexivity | split; lia]).
  - destruct (Hs data st eq_refl Er) as [H1 [H2 H3]].
    split; [assumption | split; [assumption | lia]].
  - destruct (json_loads (fix_json_content content)) as [data|[| |]];
      try (simpl; split; [reflexivity | split; lia]).
    destruct (Hs data (count_fixed st) eq_refl Er) as [H1 [H2 H3]].
    simpl in H2, H3. split; [assumption | split; [assumption | lia]].
Qed.

Lemma format_loop_counts : forall names st,
  Fs.listdir (f_captions (format_loop names st))
  = Fs.listdir (f_captions st) /\
  (processed_count (format_loop names st)
   + error_count (format_loop names st)
   = processed_count st + error_count st
     + List.length (filter (endswith JSON_SUFFIX) names))%nat /\
  (fixed_count (format_loop names st)
   <= fixed_count st
      + List.length (filter (endswith JSON_SUFFIX) names))%nat.
Proof.
  induction names as [|g names IH]; intros st.
  - simpl. split; [reflexivity | split; lia].
  - rewrite format_loop_cons. simpl filter.
    destruct (endswith JSON_SUFFIX g).
    + destruct (IH (format_one g st)) as [H1 [H2 H3]].
      destruct (format_one_counts g st) as [G1 [G2 G3]].
      rewrite H1, H2, G1. simpl List.length.
      split; [reflexivity | split; lia].
    + apply IH.
Qed.

Lemma format_loop_skips : forall names st f,
  endswith JSON_SUFFIX f = false ->
  Fs.read f (f_captions (format_loop names st)) = Fs.read f (f_captions st).
Proof.
  induction names as [|g names IH]; intros st f Hf; [reflexivity|].
  rewrite format_loop_cons, IH by assumption.
  destruct (endswith JSON_SUFFIX g) eqn:Eg; [|reflexivity].
  apply format_one_other. intros ->. congruence.
Qed.

(** The formatting pass creates and deletes no file, leaves the files
    without the suffix as they are, and counts every file that bears the
    suffix exactly once, as processed or as an error; no more files are
    reported repaired than were counted. *)
Theorem format_pass_accounting :
  forall captions st,
    process_files (Some captions) = Some st ->
    Fs.listdir (f_captions st) = Fs.listdir captions /\
    (processed_count st + error_count st
     = List.length (filter (endswith JSON_SUFFIX) (Fs.listdir captions)))%nat /\
    (fixed_count st <= processed_count st + error_count st)%nat /\
    (forall f, endswith JSON_SUFFIX f = false ->
               Fs.read f (f_captions st) = Fs.read f captions).
Proof.
  intros captions st H. injection H as <-.
  destruct (format_loop_counts (Fs.listdir captions)
              {| f_captions := captions; processed_count := 0;
                 fixed_count := 0; error_count := 0; f_log := [] |})
    as [H1 [H2 H3]]. simpl in H1, H2, H3.
  split; [assumption | split; [assumption | split; [lia |]]].
  intros f Hf. now rewrite format_loop_skips.
Qed.



End FormatMore.

Lemma format_pass_accounting_witness :
  exists st,
    Maintenance.process_files (L := MiniJson.lib)
      (Some [(lit "a_analysis.json", jlit "{'caption': 'snow', }");
             (lit "notes.txt", lit "keep");
             (lit "b_analysis.json", jlit "{'caption': ")]) = Some st /\
    (Maintenance.processed_count st + Maintenance.error_count st = 2)%nat /\
    Fs.read (lit "notes.txt") (Maintenance.f_captions st) = Some (lit "keep").
Proof.
  eexists. split; [reflexivity|].
  destruct (@format_pass_accounting MiniJson.lib
              [(lit "a_analysis.json", jlit "{'caption': 'snow', }");
               (lit "notes.txt", lit "keep");
               (lit "b_analysis.json", jlit "{'caption': ")] _ eq_refl)
    as [_ [H2 [_ H4]]].
  split; [exact H2 | exact (H4 (lit "notes.txt") eq_refl)].
Defined.


(** ** The orphan cleanup run twice, and the utility as a whole *)

Section CleanupMore.

Context {L : PyLib}.

Import Maintenance Utility.

Lemma clean_orphans_keeps : forall can_remove captions input st,
  clean_orphans can_remove (Some captions) (Some input) = Some st ->
  o_captions st
  = filter (fun e => negb (orphaned can_remove input (fst e))) captions /\
  deleted_count st
  = List.length (filter (orphaned can_remove input) (Fs.listdir captions)).
Proof.
  intros can_remove captions input st H. injection H as <-.
  destruct (clean_loop_spec can_remove input (Fs.listdir captions)
              {| o_captions := captions; deleted_count := 0; o_log := [] |})
    as [H1 H2]. simpl in H1, H2. split; [|exact H2].
  rewrite H1. apply filter_ext_in. intros e He. f_equal.
  destruct (orphaned can_remove input (fst e)) eqn:Eo.
  - apply mem_iff, filter_In. split; [|assumption].
    unfold Fs.listdir. now apply in_map.
  - destruct (mem _ _) eqn:Em; [|reflexivity].
    apply mem_iff, filter_In in Em. destruct Em as [_ Em]. congruence.
Qed.

Lemma filter_map_fst : forall (p : pystr -> bool) (d : Fs.dir),
  filter p (Fs.listdir d) = Fs.listdir (filter (fun e => p (fst e)) d).
Proof.
  intros p. induction d as [|e d IH]; simpl; [reflexivity|].
  destruct (p (fst e)); simpl; now rewrite IH.
Qed.

Lemma filter_split_length : forall (A : Type) (p : A -> bool) l,
  (List.length (filter p l) + List.length (filter (fun x => negb (p x)) l)
   = List.length l)%nat.
Proof.
  induction l as [|x l IH]; simpl; [reflexivity|].
  destruct (p x); simpl; lia.
Qed.

Lemma filter_none : forall (A : Type) (p : A -> bool) l,
  (forall x, In x l -> p x = false) -> filter p l = [].
Proof.
  induction l as [|x l IH]; intros H; simpl; [reflexivity|].
  rewrite (H x) by now left. apply IH. intros y Hy. apply H. now right.
Qed.

Lemma filter_all : forall (A : Type) (p : A -> bool) l,
  (forall x, In x l -> p x = true) -> filter p l = l.
Proof.
  induction l as [|x l IH]; intros H; simpl; [reflexivity|].
  rewrite (H x) by now left. f_equal. apply IH. intros y Hy. apply H.
  now right.
Qed.

(** A second cleanup over the same input directory finds nothing to do:
    it removes no file and counts none.  And the first one accounts for
    every entry: the removed files and the remaining ones add up to the
    directory it started from. *)
Theorem cleanup_twice_removes_nothing :
  forall can_remove captions input st,
    clean_orphans can_remove (Some captions) (Some input) = Some st ->
    (deleted_count st + List.length (o_captions st)
     = List.length captions)%nat /\
    exists st2,
      clean_orphans can_remove (Some (o_captions st)) (Some input) = Some st2 /\
      o_captions st2 = o_captions st /\
      deleted_count st2 = 0%nat.
Proof.
  intros can_remove captions input st H.
  destruct (clean_orphans_keeps _ _ _ _ H) as [H1 H2]. split.
  - rewrite H1, H2, filter_map_fst. unfold Fs.listdir. rewrite length_map.
    apply (filter_split_length _ (fun e => orphaned can_remove input (fst e))).
  - eexists. split; [reflexivity|].
    destruct (clean_orphans_keeps can_remove (o_captions st) input _ eq_refl)
      as [G1 G2].
    assert (K : forall e, In e (o_captions st) ->
                          orphaned can_remove input (fst e) = false).
    { intros e He. rewrite H1 in He. apply filter_In in He.
      destruct He as [_ He]. now apply negb_true_iff in He. }
    split.
    + rewrite G1. apply filter_all. intros e He. now rewrite (K e He).
    + rewrite G2, filter_map_fst.
      rewrite (filter_none _ (fun e => orphaned can_remove input (fst e)) _ K).
      reflexivity.
Qed.

(** The utility as a whole: the directory it leaves lists exactly the
    entries the cleanup did not remove, each file it formats is one of
    them, and it counts every remaining file with the suffix once.  When
    the input directory is missing no file is removed and the formatting
    runs on the directory as it is. *)
Theorem utility_formats_the_survivors :
  forall can_remove captions input st,
    run_utility can_remove (Some captions) (Some input) = Some st ->
    Fs.listdir (f_captions st)
    = filter (fun f => negb (orphaned can_remove input f))
        (Fs.listdir captions) /\
    (processed_count st + error_count st
     = List.length
         (filter (fun f => endswith JSON_SUFFIX f &&
                           negb (orphaned can_remove input f))
            (Fs.listdir captions)))%nat /\
    (forall f, orphaned can_remove input f = true ->
               Fs.read f (f_captions st) = None) /\
    run_utility can_remove (Some captions) None
    = process_files (Some captions).
Proof.
  intros can_remove captions input st H. unfold run_utility in H.
  destruct (clean_orphans can_remove (Some captions) (Some input))
    as [st1|] eqn:E1; [|discriminate E1].
  destruct (clean_orphans_keeps _ _ _ _ E1) as [H1 _].
  injection H as <-.
  destruct (format_loop_counts (Fs.listdir (o_captions st1))
              {| f_captions := o_captions st1; processed_count := 0;
                 fixed_count := 0; error_count := 0; f_log := [] |})
    as [G1 [G2 _]]. simpl in G1, G2.
  assert (El : Fs.listdir (o_captions st1)
               = filter (fun f => negb (orphaned can_remove input f))
                   (Fs.listdir captions)).
  { rewrite H1. symmetry. apply filter_map_fst. }
  split; [now rewrite G1|]. split.
  - rewrite G2, El, filter_filter. f_equal. apply filter_ext.
    intros f. apply andb_comm.
  - split; [|reflexivity]. intros f Hf.
    destruct (Fs.read f _) as [text|] eqn:Er; [|reflexivity].
    apply read_some_listed in Er. rewrite G1, El in Er.
    apply filter_In in Er. destruct Er as [_ Er]. rewrite Hf in Er.
    discriminate Er.
Qed.

End CleanupMore.

Lemma cleanup_twice_removes_nothing_witness :
  let captions :=
    [(lit "a_analysis.json", lit "{}"); (lit "b_analysis.json", lit "{}")] in
  exists st st2,
    Maintenance.clean_orphans (fun _ => true) (Some captions)
      (Some [lit "a.mp4"]) = Some st /\
    Maintenance.clean_orphans (fun _ => true)
      (Some (Maintenance.o_captions st)) (Some [lit "a.mp4"]) = Some st2 /\
    Maintenance.o_captions st2 = [(lit "a_analysis.json", lit "{}")] /\
    Maintenance.deleted_count st2 = 0%nat.
Proof.
  intros captions. eexists.
  destruct (cleanup_twice_removes_nothing (fun _ => true) captions
              [lit "a.mp4"] _ eq_refl) as [_ [st2 [H1 [H2 H3]]]].
  exists st2. split; [reflexivity|]. split; [exact H1|].
  split; [rewrite H2; reflexivity | exact H3].
Defined.

Lemma utility_formats_the_survivors_witness :
  exists st,
    Utility.run_utility (L := MiniJson.lib) (fun _ => true)
      (Some [(lit "a_analysis.json", jlit "{'caption': 'snow', }");
             (lit "b_analysis.json", lit "{}")])
      (Some [lit "a.mp4"]) = Some st /\
    Fs.listdir (Maintenance.f_captions st) = [lit "a_analysis.json"] /\
    Fs.read (lit "b_analysis.json") (Maintenance.f_captions st) = None.
Proof.
  eexists. split; [reflexivity|].
  destruct (@utility_formats_the_survivors MiniJson.lib (fun _ => true)
              [(lit "a_analysis.json", jlit "{'caption': 'snow', }");
               (lit "b_analysis.json", lit "{}")]
              [lit "a.mp4"] _ eq_refl) as [H1 [_ [H3 _]]].
  split; [rewrite H1; reflexivity | exact (H3 (lit "b_analysis.json") eq_refl)].
Defined.

(** ** The combination counter *)

Section CombinationFacts.

Context {L : PyLib}.

Import Combinations.

Lemma bump_total : forall k t,
  fold_right Nat.add 0%nat (map snd (bump k t))
  = S (fold_right Nat.add 0%nat (map snd t)).
Proof.
  intros k. induction t as [|[k' n] t IH]; simpl; [reflexivity|].
  destruct (key_eq k k'); simpl; [reflexivity|]. rewrite IH. lia.
Qed.

Lemma bump_keys : forall k t,
  exists rest, map fst (bump k t) = map fst t ++ rest.
Proof.
  intros k. induction t as [|[k' n] t [rest IH]]; simpl.
  - now exists [k].
  - destruct (key_eq k k'); simpl.
    + exists []. now rewrite app_nil_r.
    + exists rest. now rewrite IH.
Qed.

Lemma bump_forall : forall k0 k t,
  Forall (fun b : key * nat => key_eq (fst b) k0 = false) t ->
  key_eq k k0 = false ->
  Forall (fun b : key * nat => key_eq (fst b) k0 = false) (bump k t).
Proof.
  intros k0 k. induction t as [|[k' n] t IH]; intros Ht Hk; simpl.
  - constructor; [exact Hk | constructor].
  - inversion Ht as [|? ? Hh Hr]; subst.
    destruct (key_eq k k'); constructor; auto.
Qed.

Lemma bump_distinct : forall k t, distinct_keys t -> distinct_keys (bump k t).
Proof.
  intros k. unfold distinct_keys.
  induction t as [|[k' n] t IH]; intros Ht; simpl.
  - constructor; constructor.
  - inversion Ht as [|? ? Hh Hr]; subst.
    destruct (key_eq k k') eqn:E.
    + constructor; assumption.
    + constructor; [|auto]. apply (bump_forall k' k t); assumption.
Qed.

(** What one file does to the table and to the error counter. *)
Lemma count_one_cases : forall d f st,
  (counts (count_one d f st) = counts st /\
   error_count (count_one d f st) = error_count st /\
   s_log (count_one d f st) = s_log st) \/
  (counts (count_one d f st) = counts st /\
   error_count (count_one d f st) = S (error_count st) /\
   exists l, s_log (count_one d f st) = l :: s_log st) \/
  ((exists k, counts (count_one d f st) = bump k (counts st)) /\
   error_count (count_one d f st) = error_count st /\
   s_log (count_one d f st) = s_log st).
Proof.
  intros d f st. unfold count_one.
  destruct (Fs.read f d) as [content|];
    [|right; left; simpl; eauto].
  destruct (json_loads content) as [data|[| |]];
    try (right; left; simpl; eauto; fail).
  destruct (fields data) as [[w h]|e];
    [|right; left; simpl; eauto].
  destruct (negb (is_none w) && negb (is_none h)); [|now left].
  destruct (hashable w && hashable h).
  - right; right. simpl. eauto.
  - right; left. simpl. eauto.
Qed.

Lemma scan_invariant : forall d names st,
  let st' := fold_left (fun st filename => count_one d filename st) names st in
  (total st' + error_count st'
   <= total st + error_count st + List.length names)%nat /\
  (exists rest, map fst (counts st') = map fst (counts st) ++ rest) /\
  (distinct_keys (counts st) -> distinct_keys (counts st')) /\
  (error_count st = List.length (s_log st) ->
   error_count st' = List.length (s_log st')).
Proof.
  intros d. induction names as [|f names IH]; intros st; simpl.
  - split; [lia|]. split; [exists []; now rewrite app_nil_r|]. tauto.
  - destruct (IH (count_one d f st)) as [H1 [[rest H2] [H3 H4]]].
    unfold total in *.
    destruct (count_one_cases d f st)
      as [[Ec [Ee El]] | [[Ec [Ee [l El]]] | [[k Ec] [Ee El]]]];
      rewrite Ec, Ee, El in *.
    + split; [lia|]. split; [now exists rest|]. tauto.
    + split; [lia|]. split; [now exists rest|]. split; [assumption|].
      intros K. apply H4. simpl. now rewrite K.
    + rewrite bump_total in H1. split; [lia|]. split.
      * destruct (bump_keys k (counts st)) as [r Hr].
        exists (r ++ rest). now rewrite H2, Hr, app_assoc.
      * split; [|assumption]. intros K. apply H3. now apply bump_distinct.
Qed.

Lemma pair_le_total : forall a b, pair_le a b = false -> pair_le b a = true.
Proof. intros [[] []] [[] []]; simpl; auto. Qed.

Lemma pair_le_trans : forall a b c,
  pair_le a b = true -> pair_le b c = true -> pair_le a c = true.
Proof. intros [[] []] [[] []] [[] []]; simpl; auto. Qed.

Lemma insert_key_perm : forall k l, Permutation (insert_key k l) (k :: l).
Proof.
  intros k. induction l as [|k' l IH]; simpl; [reflexivity|].
  destruct (pair_le (sort_key k) (sort_key k')); [reflexivity|].
  rewrite IH. apply perm_swap.
Qed.

Lemma insert_key_sorted : forall k l,
  StronglySorted (fun a b => pair_le (sort_key a) (sort_key b) = true) l ->
  StronglySorted (fun a b => pair_le (sort_key a) (sort_key b) = true)
    (insert_key k l).
Proof.
  intros k. induction l as [|k' l IH]; intros Hs; simpl.
  - constructor; constructor.
  - inversion Hs as [|? ? Hs' Hf]; subst.
    destruct (pair_le (sort_key k) (sort_key k')) eqn:E.
    + constructor; [assumption|]. constructor; [assumption|].
      eapply Forall_impl; [|exact Hf]. intros x Hx. simpl in Hx.
      eapply pair_le_trans; eauto.
    + constructor; [now apply IH|].
      apply (Permutation_Forall (Permutation_sym (insert_key_perm k l))).
      constructor; [now apply pair_le_total | assumption].
Qed.

Lemma sorted_keys_perm : forall t, Permutation (sorted_keys t) (map fst t).
Proof.
  intros t. unfold sorted_keys. induction (map fst t) as [|k l IH];
    simpl; [reflexivity|].
  rewrite insert_key_perm. now constructor.
Qed.

Lemma sorted_keys_sorted : forall t,
  StronglySorted (fun a b => pair_le (sort_key a) (sort_key b) = true)
    (sorted_keys t).
Proof.
  intros t. unfold sorted_keys. induction (map fst t) as [|k l IH]; simpl.
  - constructor.
  - now apply insert_key_sorted.
Qed.

Lemma rows_keys : forall st, map fst (rows st) = sorted_keys (counts st).
Proof.
  intros st. unfold rows. rewrite map_map. simpl. apply map_id.
Qed.

(** The scan counts no file twice: the sum of the counts, which is the
    total the scan prints, and the error counter together never exceed the
    number of files scanned, and every error is logged once.  The four
    boolean combinations are always the first four keys of the dict, in
    the order they were entered, and no two keys of the dict are equal.
    The printed table has one row for each key of the dict, so one for each
    boolean combination even when its count is 0, in the order of the sort
    key; keys that are not booleans can stand between the boolean rows. *)
Theorem scan_accounting :
  forall directory st,
    count_combinations (Some directory) = Some st ->
    (total st + error_count st <= List.length (scanned directory))%nat /\
    (exists rest, map fst (counts st) = keys ++ rest) /\
    distinct_keys (counts st) /\
    error_count st = List.length (s_log st) /\
    Permutation (map fst (rows st)) (map fst (counts st)) /\
    StronglySorted (fun a b => pair_le (sort_key a) (sort_key b) = true)
      (map fst (rows st)) /\
    (forall k, In k keys -> In (k, lookup k (counts st)) (rows st)).
Proof.
  intros directory st H. injection H as <-.
  destruct (scan_invariant directory (scanned directory)
              {| counts := initial; error_count := 0; s_log := [] |})
    as [H1 [H2 [H3 H4]]].
  split; [exact H1|]. split; [exact H2|]. split; [|split; [now apply H4|]].
  - apply H3. unfold distinct_keys, initial, keys. simpl.
    repeat (constructor; [repeat (constructor; [reflexivity|]); constructor|]).
    constructor.
  - rewrite rows_keys.
    split; [apply sorted_keys_perm|]. split; [apply sorted_keys_sorted|].
    intros k Hk. unfold rows.
    apply (in_map (fun k => (k, lookup k (counts _)))).
    apply (Permutation_in k (Permutation_sym (sorted_keys_perm _))).
    destruct H2 as [rest ->]. apply in_or_app. now left.
Qed.

Lemma boolean_fields : forall d dw dh a b,
  Dict.get weather_key d = Some (JObj dw) ->
  Dict.get winter_key dw = Some (JBool a) ->
  Dict.get hazard_key d = Some (JObj dh) ->
  Dict.get present_key dh = Some (JBool b) ->
  fields (JObj d) = Ok (JBool a, JBool b).
Proof.
  intros d dw dh a b H1 H2 H3 H4. unfold fields, get_method.
  now rewrite H1, H2, H3, H4.
Qed.

Lemma bump_boolean : forall a b t,
  map fst t = keys ->
  map fst (bump (JBool a, JBool b) t) = keys.
Proof.
  intros a b t H.
  destruct t as [|[k1 n1] [|[k2 n2] [|[k3 n3] [|[k4 n4] [|? ?]]]]];
    try discriminate H.
  simpl in H. injection H as -> -> -> ->.
  destruct a, b; reflexivity.
Qed.

Lemma scan_booleans : forall d names st,
  (forall f, In f names -> exists a b, boolean_file d f a b) ->
  map fst (counts st) = keys ->
  let st' := fold_left (fun st filename => count_one d filename st) names st in
  map fst (counts st') = keys /\
  error_count st' = error_count st /\
  total st' = (total st + List.length names)%nat.
Proof.
  intros d. induction names as [|f names IH]; intros st Hall Hk; simpl.
  - repeat split; [assumption | unfold total; lia].
  - destruct (Hall f (or_introl eq_refl))
      as [a [b [content [o [dw [dh [Hr [Hl [H1 [H2 [H3 H4]]]]]]]]]]].
    assert (E : count_one d f st
                = {| counts := bump (JBool a, JBool b) (counts st);
                     error_count := error_count st; s_log := s_log st |}).
    { unfold count_one.
      rewrite Hr, Hl, (boolean_fields o dw dh a b H1 H2 H3 H4).
      reflexivity. }
    rewrite E.
    destruct (IH {| counts := bump (JBool a, JBool b) (counts st);
                    error_count := error_count st; s_log := s_log st |})
      as [G1 [G2 G3]].
    + intros g Hg. apply Hall. now right.
    + simpl. now apply bump_boolean.
    + split; [exact G1|]. split; [exact G2|]. rewrite G3.
      unfold total. simpl. rewrite bump_total. lia.
Qed.

(** When every scanned file is an object whose two fields are booleans,
    no file is an error or skipped: the total is the number of files
    scanned, and the table has exactly the four boolean rows, printed in
    the order [True]/[True], [True]/[False], [False]/[True],
    [False]/[False]. *)
Theorem boolean_captions_all_counted :
  forall directory st,
    (forall f, In f (scanned directory) ->
               exists a b, boolean_file directory f a b) ->
    count_combinations (Some directory) = Some st ->
    error_count st = 0%nat /\
    total st = List.length (scanned directory) /\
    map fst (counts st) = keys /\
    rows st = counts st.
Proof.
  intros directory st Hall H. injection H as <-.
  destruct (scan_booleans directory (scanned directory)
              {| counts := initial; error_count := 0; s_log := [] |}
              Hall eq_refl) as [H1 [H2 H3]].
  split; [exact H2|]. split; [exact H3|]. split; [exact H1|].
  unfold rows.
  destruct (counts (fold_left _ _ _))
    as [|[k1 n1] [|[k2 n2] [|[k3 n3] [|[k4 n4] [|? ?]]]]];
    try discriminate H1.
  simpl in H1. injection H1 as -> -> -> ->. reflexivity.
Qed.

Lemma value_eq_other : forall w a,
  value_eq w (JBool a) = true -> value_eq w (JBool (negb a)) = false.
Proof.
  intros w a. unfold value_eq.
  destruct (number_of w) as [x|]; simpl; [|discriminate].
  intros H. apply Qeq_bool_iff in H.
  destruct (Qeq_bool x _) eqn:E; [|reflexivity].
  apply Qeq_bool_iff in E. rewrite H in E.
  destruct a; simpl in E; discriminate E.
Qed.

(** A flag spelled as a number equal to 1 or 0 is counted as [True] or
    [False]: the file goes to the boolean row and the table gets no new
    row. *)
Theorem numeric_flags_count_as_booleans :
  forall directory filename st content data w h a b,
    Fs.read filename directory = Some content ->
    json_loads content = Ok data ->
    fields data = Ok (w, h) ->
    value_eq w (JBool a) = true ->
    value_eq h (JBool b) = true ->
    (exists rest, map fst (counts st) = keys ++ rest) ->
    let st' := count_one directory filename st in
    map fst (counts st') = map fst (counts st) /\
    lookup (JBool a, JBool b) (counts st')
    = S (lookup (JBool a, JBool b) (counts st)) /\
    error_count st' = error_count st.
Proof.
  intros directory filename st content data w h a b Hr Hl Hf Hw Hh
    [rest Hk] st'.
  assert (Hn : forall v c, value_eq v (JBool c) = true ->
                           is_none v = false /\ hashable v = true).
  { intros v c. destruct v; simpl; try discriminate; auto. }
  destruct (Hn w a Hw) as [Nw Kw]. destruct (Hn h b Hh) as [Nh Kh].
  assert (E : st' = {| counts := bump (w, h) (counts st);
                       error_count := error_count st;
                       s_log := s_log st |}).
  { unfold st', count_one. rewrite Hr, Hl, Hf, Nw, Nh, Kw, Kh. reflexivity. }
  rewrite E. simpl. split; [|split; [|reflexivity]].
  - destruct (counts st)
      as [|[k1 n1] [|[k2 n2] [|[k3 n3] [|[k4 n4] t]]]];
      try discriminate Hk.
    simpl in Hk. injection Hk as -> -> -> -> _.
    pose proof (value_eq_other w a Hw) as Ow.
    pose proof (value_eq_other h b Hh) as Oh.
    unfold bump, key_eq; simpl fst; simpl snd.
    destruct a, b; simpl negb in Ow, Oh; rewrite ?Hw, ?Hh, ?Ow, ?Oh;
      simpl; reflexivity.
  - destruct (counts st)
      as [|[k1 n1] [|[k2 n2] [|[k3 n3] [|[k4 n4] t]]]];
      try discriminate Hk.
    simpl in Hk. injection Hk as -> -> -> -> _.
    pose proof (value_eq_other w a Hw) as Ow.
    pose proof (value_eq_other h b Hh) as Oh.
    unfold bump, key_eq; simpl fst; simpl snd.
    destruct a, b; simpl negb in Ow, Oh; rewrite ?Hw, ?Hh, ?Ow, ?Oh;
      reflexivity.
Qed.

End CombinationFacts.

Lemma scan_accounting_witness :
  exists st,
    Combinations.count_combinations (L := MiniJson.lib)
      (Some [(lit "a_analysis.json",
              jlit "{'weather': {'winter weather': true}, 'hazardous event': {'present': false}}");
             (lit "b_analysis.json", jlit "{'weather': ");
             (lit "c_analysis.json", jlit "{'weather': {}}");
             (lit "d_analysis.json",
              jlit "{'weather': {'winter weather': 'yes'}, 'hazardous event': {'present': 'x'}}");
             (lit "notes.txt", lit "keep")]) = Some st /\
    (Combinations.total st + Combinations.error_count st <= 4)%nat /\
    Combinations.error_count st = List.length (Combinations.s_log st) /\
    map fst (Combinations.rows st)
    = [(JBool true, JBool true); (JStr (lit "yes"), JStr (lit "x"));
       (JBool true, JBool false); (JBool false, JBool true);
       (JBool false, JBool false)].
Proof.
  eexists. split; [reflexivity|].
  destruct (@scan_accounting MiniJson.lib
              [(lit "a_analysis.json",
                jlit "{'weather': {'winter weather': true}, 'hazardous event': {'present': false}}");
               (lit "b_analysis.json", jlit "{'weather': ");
               (lit "c_analysis.json", jlit "{'weather': {}}");
               (lit "d_analysis.json",
                jlit "{'weather': {'winter weather': 'yes'}, 'hazardous event': {'present': 'x'}}");
               (lit "notes.txt", lit "keep")] _ eq_refl)
    as [H1 [_ [_ [H4 _]]]].
  split; [exact H1|]. split; [exact H4|]. vm_compute. reflexivity.
Defined.

Lemma boolean_captions_all_counted_witness :
  let directory :=
    [(lit "a_analysis.json",
      jlit "{'weather': {'winter weather': true}, 'hazardous event': {'present': false}}");
     (lit "notes.txt", lit "keep")] in
  exists st,
    Combinations.count_combinations (L := MiniJson.lib) (Some directory)
    = Some st /\
    Combinations.total st = 1%nat /\
    Combinations.rows st = Combinations.counts st.
Proof.
  intros directory.
  assert (Hall : forall f, In f (Combinations.scanned directory) ->
                   exists a b,
                     Combinations.boolean_file (L := MiniJson.lib)
                       directory f a b).
  { intros f Hf. vm_compute in Hf. destruct Hf as [<-|[]].
    exists true, false.
    exists (jlit "{'weather': {'winter weather': true}, 'hazardous event': {'present': false}}").
    exists [(lit "weather", JObj [(lit "winter weather", JBool true)]);
            (lit "hazardous event", JObj [(lit "present", JBool false)])].
    exists [(lit "winter weather", JBool true)].
    exists [(lit "present", JBool false)].
    repeat split; vm_compute; reflexivity. }
  eexists. split; [reflexivity|].
  destruct (@boolean_captions_all_counted MiniJson.lib directory _
              Hall eq_refl) as [_ [H2 [_ H4]]].
  split; [exact H2 | exact H4].
Defined.

Lemma numeric_flags_count_as_booleans_witness :
  let directory :=
    [(lit "a_analysis.json",
      jlit "{'weather': {'winter weather': 1}, 'hazardous event': {'present': 0}}")] in
  let st := {| Combinations.counts := Combinations.initial;
               Combinations.error_count := 0; Combinations.s_log := [] |} in
  map fst (Combinations.counts
             (Combinations.count_one (L := MiniJson.lib) directory
                (lit "a_analysis.json") st))
  = Combinations.keys /\
  Combinations.lookup (JBool true, JBool false)
    (Combinations.counts
       (Combinations.count_one (L := MiniJson.lib) directory
          (lit "a_analysis.json") st)) = 1%nat.
Proof.
  intros directory st.
  destruct (@numeric_flags_count_as_booleans MiniJson.lib directory
              (lit "a_analysis.json") st
              (jlit "{'weather': {'winter weather': 1}, 'hazardous event': {'present': 0}}")
              (JObj [(lit "weather", JObj [(lit "winter weather", JInt 1)]);
                     (lit "hazardous event", JObj [(lit "present", JInt 0)])])
              (JInt 1) (JInt 0) true false
              eq_refl eq_refl eq_refl eq_refl eq_refl
              (ex_intro _ [] eq_refl))
    as [H1 [H2 _]].
  split; [exact H1 | exact H2].
Defined.

(** ** Artifacts and eligibility along a run *)

Section ArtifactFacts.

Context {L : PyLib} {LS : PyLibSpec L}.

Import Selector Normalizer Worker Dispatcher Pool Artifacts.









End ArtifactFacts.


